(** * wifictl: the configuration block editor and mode controller

    A shallow embedding of [src/wifictl.py].  Text (Python [str]) is a list
    of characters, a character being one of the 256 of [ascii]; the
    managed files live in a finite map from paths to their content, which
    a read in text mode gives with its line ends turned into newlines
    (the module runs on a POSIX system, where writing leaves newlines as
    they are); every external effect (process invocation, scan, sleep,
    print, file write) is recorded in a trace, and the outcome of external
    processes and of the scanning library is supplied by an environment.

    The library functions follow CPython 3.11: [re.sub] reads its
    replacement as a template when it holds a backslash, and raises when
    the template is malformed.  The patterns of [set_ap_credentials] use
    [\b]; they have a matcher of their own, which knows the character in
    front of a position. *)

From Stdlib Require Import ZArith Ascii String Sorted Permutation Lia.
From stdpp Require Import base gmap strings list.
From Stdlib Require Import List.
Import ListNotations.

Open Scope list_scope.

(** ** Text *)

Definition text := list ascii.

(** A string literal of the source, as text. *)
Definition lit (s : string) : text := list_ascii_of_string s.
Arguments lit s%_string.

Definition newline : ascii := "010"%char.
Definition tab : ascii := "009"%char.
Definition dquote : ascii := "034"%char.
Definition carriage_return : ascii := "013"%char.
Definition backslash : ascii := "092"%char.

(** The code point of a character. *)
Definition code (c : ascii) : nat := nat_of_ascii c.

(** [w] occurs in [s] as a contiguous run of characters. *)
Definition occurs (w s : text) : Prop := exists a b : text, s = a ++ w ++ b.

(** [s.startswith(w)] *)
Fixpoint starts_with (w s : text) : bool :=
  match w, s with
  | [], _ => true
  | c :: w', d :: s' => Ascii.eqb c d && starts_with w' s'
  | _ :: _, [] => false
  end.

(** [s.find(w)]: where [w] first occurs in [s]. *)
Fixpoint find (w s : text) : option nat :=
  if starts_with w s then Some 0
  else
    match s with
    | [] => None
    | _ :: s' => option_map S (find w s')
    end.

(** [s.rfind(w)]: where [w] last occurs in [s]. *)
Fixpoint rfind (w s : text) : option nat :=
  match s with
  | [] => if starts_with w [] then Some 0 else None
  | _ :: s' =>
      match rfind w s' with
      | Some j => Some (S j)
      | None => if starts_with w s then Some 0 else None
      end
  end.

(** [w in s] *)
Definition occursb (w s : text) : bool :=
  match find w s with
  | Some _ => true
  | None => false
  end.

(** The characters of [s] up to its first newline. *)
Fixpoint until_newline (s : text) : text :=
  match s with
  | [] => []
  | c :: s' => if Ascii.eqb c newline then [] else c :: until_newline s'
  end.

(** The last line of [s]: what follows its last newline. *)
Definition last_line (s : text) : text := rev (until_newline (rev s)).

(** [l] is a line of the text [before ++ l ++ after]. *)
Definition is_line (before l after : text) : Prop :=
  ~ In newline l
  /\ (before = [] \/ exists p, before = p ++ [newline])
  /\ (after = [] \/ exists q, after = newline :: q).

(** What a text-mode read makes of the content of a file (universal
    newlines): a carriage return is read as a newline, and a newline that
    follows a carriage return is not read again.  [pending] says that the
    character in front was a carriage return. *)
Fixpoint translate_newlines (pending : bool) (s : text) : text :=
  match s with
  | [] => []
  | c :: s' =>
      if Ascii.eqb c carriage_return then newline :: translate_newlines true s'
      else if Ascii.eqb c newline then
        if pending then translate_newlines false s'
        else newline :: translate_newlines false s'
      else c :: translate_newlines false s'
  end.

Definition universal_newlines (s : text) : text := translate_newlines false s.

(** Whether a read that has come to the end of [a] has a carriage return
    in front of it; [pending] says so for the start of [a]. *)
Fixpoint pending_after (pending : bool) (a : text) : bool :=
  match a with
  | [] => pending
  | c :: a' => pending_after (Ascii.eqb c carriage_return) a'
  end.

(** ** Exceptions *)

Inductive exn : Type :=
  | FileNotFoundError (path : string)
  | CalledProcessError (argv : list text) (status : Z)
  | ReError                                (* re.error *)
  | IndexError.

Inductive result (A : Type) : Type :=
  | Ok (a : A)
  | Raise (e : exn).
Arguments Ok {A} a.
Arguments Raise {A} e.

(** ** Regular expressions

    The fragment of Python's [re] syntax that the patterns of the module
    use: a sequence of single-character atoms, each taken once or under a
    greedy [*] or [+].  The matcher is the backtracking one of [re]: a
    greedy repetition first takes as many characters as it can and gives
    them back one at a time until the rest of the pattern matches. *)

Inductive atom : Type :=
  | Chr (c : ascii)            (* a literal character *)
  | AnyChar                    (* [.] under [re.DOTALL]: any character *)
  | NoneOf (cs : list ascii).  (* [[^...]] *)

Inductive quant : Type :=
  | Once
  | ZeroOrMore   (* greedy [*] *)
  | OneOrMore.   (* greedy [+] *)

Definition regex := list (atom * quant).

Definition atom_ok (a : atom) (c : ascii) : bool :=
  match a with
  | Chr c' => Ascii.eqb c' c
  | AnyChar => true
  | NoneOf cs => negb (existsb (Ascii.eqb c) cs)
  end.

(** The pattern that matches the text [w] literally. *)
Definition literal (w : text) : regex := map (fun c => (Chr c, Once)) w.

(** Greedy repetition of [a] followed by the continuation [k]: the result
    is the remainder of the text after the first match in priority order. *)
Fixpoint match_star (a : atom) (k : text -> option text) (s : text) : option text :=
  match s with
  | c :: s' =>
      if atom_ok a c then
        match match_star a k s' with
        | Some r => Some r
        | None => k s
        end
      else k s
  | [] => k s
  end.

(** [match_here p s]: match [p] at the start of [s]; [Some r] is the text
    left after the match. *)
Fixpoint match_here (p : regex) : text -> option text :=
  match p with
  | [] => fun s => Some s
  | (a, Once) :: p' => fun s =>
      match s with
      | c :: s' => if atom_ok a c then match_here p' s' else None
      | [] => None
      end
  | (a, ZeroOrMore) :: p' => match_star a (match_here p')
  | (a, OneOrMore) :: p' => fun s =>
      match s with
      | c :: s' => if atom_ok a c then match_star a (match_here p') s' else None
      | [] => None
      end
  end.

(** ** Patterns with word boundaries

    The two patterns of [set_ap_credentials] use [\b], for which the
    matcher has to know the character in front of the position it is at:
    [prev] below, [None] at the start of the text. *)

(** The ASCII letters, the digits and the underscore: the characters that
    stand for themselves in a pattern and cannot be part of a marker's
    fixed text. *)
Definition word_char (c : ascii) : bool :=
  let n := nat_of_ascii c in
  (((48 <=? n) && (n <=? 57)) || ((65 <=? n) && (n <=? 90))
   || ((97 <=? n) && (n <=? 122)) || (n =? 95))%nat.

(** [\w] for a [str] pattern, on the 256 characters of [ascii]: letters,
    digits and the underscore, and the letters and numbers beyond 127. *)
Definition re_word (c : ascii) : bool :=
  let n := nat_of_ascii c in
  (word_char c
   || (n =? 170) || (n =? 178) || (n =? 179) || (n =? 181) || (n =? 185)
   || (n =? 186) || (n =? 188) || (n =? 189) || (n =? 190)
   || ((192 <=? n) && (n <=? 214)) || ((216 <=? n) && (n <=? 246))
   || (248 <=? n))%nat.

Inductive token : Type :=
  | Tok (a : atom) (q : quant)
  | Boundary.                     (* [\b] *)

Definition wregex := list token.

(** [\b] holds between a word character and a character that is none;
    what lies outside the text counts as none. *)
Definition at_boundary (prev : option ascii) (s : text) : bool :=
  xorb (match prev with Some c => re_word c | None => false end)
       (match s with c :: _ => re_word c | [] => false end).

Definition wliteral (w : text) : wregex := map (fun c => Tok (Chr c) Once) w.

Fixpoint wmatch_star (a : atom)
         (k : option ascii -> text -> option (option ascii * text))
         (prev : option ascii) (s : text) : option (option ascii * text) :=
  match s with
  | c :: s' =>
      if atom_ok a c then
        match wmatch_star a k (Some c) s' with
        | Some r => Some r
        | None => k prev s
        end
      else k prev s
  | [] => k prev s
  end.

(** [wmatch_here p prev s]: match [p] at the start of [s], which stands
    behind [prev]; the result is the last character in front of the end
    of the match and the text left after it. *)
Fixpoint wmatch_here (p : wregex) : option ascii -> text -> option (option ascii * text) :=
  match p with
  | [] => fun prev s => Some (prev, s)
  | Boundary :: p' => fun prev s =>
      if at_boundary prev s then wmatch_here p' prev s else None
  | Tok a Once :: p' => fun prev s =>
      match s with
      | c :: s' => if atom_ok a c then wmatch_here p' (Some c) s' else None
      | [] => None
      end
  | Tok a ZeroOrMore :: p' => wmatch_star a (wmatch_here p')
  | Tok a OneOrMore :: p' => fun prev s =>
      match s with
      | c :: s' => if atom_ok a c then wmatch_star a (wmatch_here p') (Some c) s' else None
      | [] => None
      end
  end.

(** ** Replacement templates

    [re.sub] takes a replacement without a backslash as it stands.  One
    with a backslash is read as a template, before the text is searched:
    a doubled backslash, [\a], [\b], [\f], [\n], [\r], [\t], [\v] and
    octal escapes stand for one character, [\g<0>] stands for the text
    that was matched, a backslash in front of a character that is neither
    a letter nor a digit stays with that character, and everything else
    raises.  The patterns of the module have no groups, so that a
    reference to a group other than the whole match is an error. *)

Inductive piece : Type :=
  | Verbatim (c : ascii)
  | WholeMatch.              (* [\g<0>] *)

Definition template := list piece.

(** [expand_template]: the replacement for the matched text [found]. *)
Definition expand_template (t : template) (found : text) : text :=
  flat_map (fun p => match p with Verbatim c => [c] | WholeMatch => found end) t.

(** The tokens of the template's tokenizer: a character, a backslash
    with the character behind it, or a backslash at the end. *)
Inductive tok : Type :=
  | Single (c : ascii)
  | Escaped (c : ascii)
  | Dangling.

Fixpoint tokenize (s : text) : list tok :=
  match s with
  | [] => []
  | c :: s' =>
      if Ascii.eqb c backslash then
        match s' with
        | d :: rest => Escaped d :: tokenize rest
        | [] => [Dangling]
        end
      else Single c :: tokenize s'
  end.

Definition octal_digit (c : ascii) : bool := ((48 <=? code c) && (code c <=? 55))%nat.
Definition decimal_digit (c : ascii) : bool := ((48 <=? code c) && (code c <=? 57))%nat.
Definition digit_value (c : ascii) : nat := code c - 48.
Definition ascii_letter (c : ascii) : bool :=
  (((65 <=? code c) && (code c <=? 90)) || ((97 <=? code c) && (code c <=? 122)))%nat.

(** [str.isidentifier], on the 256 characters of [ascii]. *)
Definition identifier_start (c : ascii) : bool :=
  let n := code c in
  (ascii_letter c || (n =? 95) || (n =? 170) || (n =? 181) || (n =? 186)
   || ((192 <=? n) && (n <=? 214)) || ((216 <=? n) && (n <=? 246))
   || (248 <=? n))%nat.

Definition identifier_continue (c : ascii) : bool :=
  (identifier_start c || decimal_digit c || (code c =? 183))%nat.

Definition isidentifier (name : text) : bool :=
  match name with
  | [] => false
  | c :: name' => identifier_start c && forallb identifier_continue name'
  end.

(** [int(name) == 0]: blanks, a sign, zeros that single underscores may
    separate, blanks; [int] refuses more than 4300 digits (its default
    limit). *)
Definition int_space (c : ascii) : bool :=
  let n := code c in
  (((9 <=? n) && (n <=? 13)) || (n =? 32) || (n =? 133) || (n =? 160))%nat.

Fixpoint skip_spaces (s : text) : text :=
  match s with
  | c :: s' => if int_space c then skip_spaces s' else s
  | [] => []
  end.

Definition skip_sign (s : text) : text :=
  match s with
  | c :: s' => if Ascii.eqb c "+"%char || Ascii.eqb c "-"%char then s' else s
  | [] => []
  end.

(** The zeros at the start of [s], a single underscore allowed in front
    of each: how many there are, and what follows them. *)
Fixpoint more_zeros (s : text) : nat * text :=
  match s with
  | c :: s' =>
      if Ascii.eqb c "0"%char then
        let (n, r) := more_zeros s' in (S n, r)
      else if Ascii.eqb c "_"%char then
        match s' with
        | d :: rest =>
            if Ascii.eqb d "0"%char then let (n, r) := more_zeros rest in (S n, r)
            else (0, s)
        | [] => (0, s)
        end
      else (0, s)
  | [] => (0, [])
  end.

Definition reads_as_zero (name : text) : bool :=
  match skip_sign (skip_spaces name) with
  | c :: s' =>
      if Ascii.eqb c "0"%char then
        let (n, r) := more_zeros s' in
        match skip_spaces r with
        | [] => (S n <=? 4300)%nat
        | _ :: _ => false
        end
      else false
  | [] => false
  end.

(** The escapes that stand for one character. *)
Definition escape_char (c : ascii) : option ascii :=
  if Ascii.eqb c "a"%char then Some "007"%char
  else if Ascii.eqb c "b"%char then Some "008"%char
  else if Ascii.eqb c "f"%char then Some "012"%char
  else if Ascii.eqb c "n"%char then Some "010"%char
  else if Ascii.eqb c "r"%char then Some "013"%char
  else if Ascii.eqb c "t"%char then Some "009"%char
  else if Ascii.eqb c "v"%char then Some "011"%char
  else if Ascii.eqb c backslash then Some backslash
  else None.

(** A piece in front of the rest of the template, when the rest is
    well-formed. *)
Definition push (x : piece) (rest : result template) : result template :=
  match rest with
  | Ok t => Ok (x :: t)
  | Raise e => Raise e
  end.

(** [parse_template], token by token; [group_name] reads the name behind
    [\g<] up to the next [>].  An unknown group name raises [IndexError],
    every other malformed template [re.error]; the tokenizer is one token
    ahead, so that a backslash at the end right behind the [>] is found
    before the name is looked up. *)
Fixpoint parse_tokens (ts : list tok) : result template :=
  match ts with
  | [] => Ok []
  | Single c :: ts' => push (Verbatim c) (parse_tokens ts')
  | Dangling :: _ => Raise ReError
  | Escaped c :: ts' =>
      if Ascii.eqb c "g"%char then
        match ts' with
        | Single d :: ts2 => if Ascii.eqb d "<"%char then group_name [] ts2 else Raise ReError
        | _ => Raise ReError
        end
      else if Ascii.eqb c "0"%char then
        match ts' with
        | Single d :: ts2 =>
            if octal_digit d then
              match ts2 with
              | Single e :: ts3 =>
                  if octal_digit e then
                    push (Verbatim (ascii_of_nat (8 * digit_value d + digit_value e)))
                         (parse_tokens ts3)
                  else push (Verbatim (ascii_of_nat (digit_value d))) (parse_tokens ts2)
              | _ => push (Verbatim (ascii_of_nat (digit_value d))) (parse_tokens ts2)
              end
            else push (Verbatim (ascii_of_nat 0)) (parse_tokens ts')
        | _ => push (Verbatim (ascii_of_nat 0)) (parse_tokens ts')
        end
      else if decimal_digit c then
        match ts' with
        | Single d :: Single e :: ts3 =>
            if octal_digit c && octal_digit d && octal_digit e then
              let v := 64 * digit_value c + 8 * digit_value d + digit_value e in
              if (v <=? 255)%nat then push (Verbatim (ascii_of_nat v)) (parse_tokens ts3)
              else Raise ReError
            else Raise ReError
        | _ => Raise ReError
        end
      else
        match escape_char c with
        | Some x => push (Verbatim x) (parse_tokens ts')
        | None =>
            if ascii_letter c then Raise ReError
            else push (Verbatim backslash) (push (Verbatim c) (parse_tokens ts'))
        end
  end
with group_name (name : text) (ts : list tok) : result template :=
  match ts with
  | [] => Raise ReError
  | Dangling :: _ => Raise ReError
  | Escaped c :: ts' => group_name (name ++ [backslash; c]) ts'
  | Single c :: ts' =>
      if Ascii.eqb c ">"%char then
        match name, ts' with
        | [], _ => Raise ReError
        | _, Dangling :: _ => Raise ReError
        | _, _ =>
            if isidentifier name then Raise IndexError
            else if reads_as_zero name then push WholeMatch (parse_tokens ts')
            else Raise ReError
        end
      else group_name (name ++ [c]) ts'
  end.

Definition parse_template (target : text) : result template :=
  parse_tokens (tokenize target).

(** ** Substitution *)

(** [re.sub]: scan left to right, replace every non-overlapping match by
    the expansion of [repl].  After a match the scan resumes where the
    match ended; where nothing matches the character is copied.  An empty
    match is replaced and the scan moves on by one character. *)
Fixpoint sub_loop (fuel : nat) (p : regex) (repl : template) (s : text) : text :=
  match fuel with
  | O => s
  | S fuel' =>
      match match_here p s with
      | Some r =>
          let found := take (length s - length r) s in
          if (length r <? length s)%nat
          then expand_template repl found ++ sub_loop fuel' p repl r
          else
            match s with
            | c :: s' => expand_template repl found ++ c :: sub_loop fuel' p repl s'
            | [] => expand_template repl found
            end
      | None =>
          match s with
          | c :: s' => c :: sub_loop fuel' p repl s'
          | [] => []
          end
      end
  end.

(** The substitution with a parsed replacement. *)
Definition re_sub (p : regex) (repl : template) (s : text) : text :=
  sub_loop (S (length s)) p repl s.

(** The same for a pattern with word boundaries. *)
Fixpoint wsub_loop (fuel : nat) (p : wregex) (repl : template)
         (prev : option ascii) (s : text) : text :=
  match fuel with
  | O => s
  | S fuel' =>
      match wmatch_here p prev s with
      | Some (prev', r) =>
          let found := take (length s - length r) s in
          if (length r <? length s)%nat
          then expand_template repl found ++ wsub_loop fuel' p repl prev' r
          else
            match s with
            | c :: s' => expand_template repl found ++ c :: wsub_loop fuel' p repl (Some c) s'
            | [] => expand_template repl found
            end
      | None =>
          match s with
          | c :: s' => c :: wsub_loop fuel' p repl (Some c) s'
          | [] => []
          end
      end
  end.

Definition wre_sub (p : wregex) (repl : template) (s : text) : text :=
  wsub_loop (S (length s)) p repl None s.

(** [re.escape]: the pattern that matches [source] literally. *)
Definition re_escape (source : text) : regex := literal source.

(** ** The content of a file under the editor's operations *)

(** [replace_in_file]'s [source] argument with its [regex] flag. *)
Inductive pattern_arg : Type :=
  | Plain (source : text)          (* regex=False *)
  | Regex (source : regex)         (* regex=True *)
  | WordRegex (source : wregex).   (* regex=True, a pattern with [\b] *)

(** The substitution of a replacement that has been parsed; a source
    that is no regular expression is escaped before. *)
Definition substituted (source : pattern_arg) (repl : template) (content : text) : text :=
  match source with
  | Plain s => re_sub (re_escape s) repl content
  | Regex r => re_sub r repl content
  | WordRegex r => wre_sub r repl content
  end.

(** [re.sub(source, target, content, flags=re.DOTALL)]: the target is
    parsed first, then the content is searched. *)
Definition replaced_content (source : pattern_arg) (target content : text)
  : result text :=
  match parse_template target with
  | Ok repl => Ok (substituted source repl content)
  | Raise e => Raise e
  end.

(** ["#<begin_{id}_entry>".format(id=identifier)] *)
Definition begin_marker (identifier : text) : text :=
  lit "#<begin_" ++ identifier ++ lit "_entry>".

(** ["#<end_{id}_entry>".format(id=identifier)] *)
Definition end_marker (identifier : text) : text :=
  lit "#<end_" ++ identifier ++ lit "_entry>".

(** An identifier made of such characters, like the default ["rpiwifi"]
    (no call in the module passes another one).  For these the compiled
    pattern of [remove_entry_from_config] is [entry_pattern] below; a
    character with a meaning in [re] would be compiled as such, so the
    properties of the editor are stated for plain identifiers. *)
Definition plain_identifier (identifier : text) : Prop :=
  forallb word_char identifier = true.

(** [r"#<begin_{id}_entry>.+#<end_{id}_entry>".format(id=identifier)],
    compiled with [re.DOTALL]. *)
Definition entry_pattern (identifier : text) : regex :=
  literal (begin_marker identifier)
  ++ [(AnyChar, OneOrMore)]
  ++ literal (end_marker identifier).

(** What [remove_entry_from_config] makes of the text [content] that it
    has read: the empty replacement takes the place of every match. *)
Definition removed_content (identifier content : text) : text :=
  re_sub (entry_pattern identifier) [] content.

(** What [add_entry_to_config] appends. *)
Definition entry_block (entry identifier : text) : text :=
  begin_marker identifier ++ [newline]
  ++ entry ++ [newline]
  ++ end_marker identifier ++ [newline].


(** ** Reading a file for its delimited entries *)

(** A complete span: a begin marker and, somewhere after it, an end
    marker. *)
Definition complete_span (identifier content : text) : Prop :=
  exists a m b : text,
    content = a ++ begin_marker identifier ++ m ++ end_marker identifier ++ b.

(** The same, computed: the first begin marker ends before the last end
    marker starts. *)
Definition has_span (identifier content : text) : bool :=
  match find (begin_marker identifier) content, rfind (end_marker identifier) content with
  | Some i, Some j => (i + length (begin_marker identifier) <=? j)%nat
  | _, _ => false
  end.

(** The delimited entries of a text, counted the way a reader of the file
    finds them: look for a begin marker, then for the next end marker
    after it, and go on behind that one. *)
Fixpoint count_spans (fuel : nat) (B E s : text) : nat :=
  match fuel with
  | O => 0
  | S fuel' =>
      match find B s with
      | None => 0
      | Some i =>
          let inside := drop (i + length B) s in
          match find E inside with
          | None => 0
          | Some j => S (count_spans fuel' B E (drop (j + length E) inside))
          end
      end
  end.

Definition count_entries (identifier content : text) : nat :=
  count_spans (S (length content)) (begin_marker identifier) (end_marker identifier) content.

(** The removal as the specification words it, to compare with the
    code's: at each match only the shortest span from a begin marker to
    the next end marker (with at least one character between) is cut. *)
Fixpoint cut_shortest_spans (fuel : nat) (B E s : text) : text :=
  match fuel with
  | O => s
  | S fuel' =>
      match find B s with
      | None => s
      | Some i =>
          match drop (i + length B) s with
          | [] => s
          | _ :: inside =>
              match find E inside with
              | None => s
              | Some j =>
                  take i s ++ cut_shortest_spans fuel' B E (drop (j + length E) inside)
              end
          end
      end
  end.

Definition removed_content_non_greedy (identifier content : text) : text :=
  cut_shortest_spans (S (length content))
    (begin_marker identifier) (end_marker identifier) content.

(** An operation of the editor on one file. *)
Inductive op : Type :=
  | Add (entry : text)
  | Remove.


(** ** The world outside the program *)

(** A cell of a scan, as the scanning library [wifi] gives it, with the
    two attributes the module reads.  The library is not part of the
    module: its [quality] is the text that stands behind [Quality=] in
    the output of [iwlist], such as [50/70]. *)
Record Cell : Type := { ssid : text; quality : text }.

Inductive event : Type :=
  | Exec (argv : list text)                (* subprocess.check_output, subprocess.call *)
  | Scan (interface : text)                (* wifi.Cell.all *)
  | Sleep (seconds : nat)                  (* time.sleep *)
  | Printed (message : text)               (* print *)
  | FileWrite (path : string) (data : text).   (* file.write *)

(** The managed files and everything the program has done so far. *)
Record World : Type := { files : gmap string text; trace : list event }.

(** What the external programs and the scanning library answer, given
    what has happened before.  [cell_all] is [None] when the library
    raises [InterfaceError]. *)
Record Env : Type := {
  exit_status : list event -> list text -> Z;
  output : list event -> list text -> text;
  cell_all : list event -> text -> option (list Cell)
}.

(** A computation of the program: it reads and changes the world and
    either returns a value or raises. *)
Definition M (A : Type) : Type := World -> result A * World.

Definition ret {A : Type} (a : A) : M A := fun w => (Ok a, w).

Definition bind {A B : Type} (m : M A) (k : A -> M B) : M B :=
  fun w =>
    match m w with
    | (Ok a, w') => k a w'
    | (Raise e, w') => (Raise e, w')
    end.

Global Instance M_ret : MRet M := @ret.
Global Instance M_bind : MBind M := fun A B k m => bind m k.

Definition log (e : event) (w : World) : World :=
  {| files := files w; trace := trace w ++ [e] |}.

(** A computation without effect that returns or raises. *)
Definition lift {A : Type} (r : result A) : M A := fun w => (r, w).

(** [with open(path, "r") as file: file.read()]: the content of the file,
    its line ends read as newlines. *)
Definition read_file (path : string) : M text :=
  fun w =>
    match files w !! path with
    | Some content => (Ok (universal_newlines content), w)
    | None => (Raise (FileNotFoundError path), w)
    end.

(** [open(path, "w")]: the file is empty from the moment it is opened. *)
Definition open_truncating (path : string) : M unit :=
  fun w => (Ok tt, {| files := <[path := []]> (files w); trace := trace w |}).

(** [file.write(data)] on the file so opened, and its closing. *)
Definition write_file (path : string) (data : text) : M unit :=
  fun w =>
    (Ok tt, {| files := <[path := data]> (files w);
               trace := trace w ++ [FileWrite path data] |}).

(** [with open(path, "a") as f: f.write(data)]; the file is created when
    it does not exist. *)
Definition append_file (path : string) (data : text) : M unit :=
  fun w =>
    (Ok tt, {| files := <[path := default [] (files w !! path) ++ data]> (files w);
               trace := trace w ++ [FileWrite path data] |}).

Definition sleep (seconds : nat) : M unit := fun w => (Ok tt, log (Sleep seconds) w).

Definition print (message : text) : M unit := fun w => (Ok tt, log (Printed message) w).

(** ** Dictionaries and sorting, as [list_available_wifis] uses them *)

(** A [dict] keeps its keys in the order of their first insertion; an
    assignment to an existing key replaces the value where the key is. *)
Fixpoint dict_set {V : Type} (k : text) (v : V) (d : list (text * V)) : list (text * V) :=
  match d with
  | [] => [(k, v)]
  | (k', v') :: d' =>
      if decide (k' = k) then (k, v) :: d' else (k', v') :: dict_set k v d'
  end.

(** [{cell.ssid: cell for cell in cells}] *)
Definition cells_by_ssid (cells : list Cell) : list (text * Cell) :=
  fold_left (fun d cell => dict_set (ssid cell) cell d) cells [].

(** [list(d.values())] *)
Definition values {V : Type} (d : list (text * V)) : list V := map snd d.

(** [a < b] on [str]: the first character in which the two differ
    decides, by its code point; a proper prefix is smaller. *)
Fixpoint str_lt (a b : text) : bool :=
  match a, b with
  | _, [] => false
  | [], _ :: _ => true
  | c :: a', d :: b' =>
      (code c <? code d)%nat || (Ascii.eqb c d && str_lt a' b')
  end.

(** [list.sort(key=lambda cell: cell.quality, reverse=True)]: the keys
    are the quality texts, compared as [str]; the sort is stable, also in
    reverse, so a cell goes behind the cells of greater or equal key that
    stood before it. *)
Fixpoint insert_by_quality (x : Cell) (l : list Cell) : list Cell :=
  match l with
  | [] => [x]
  | y :: l' =>
      if str_lt (quality x) (quality y) then y :: insert_by_quality x l'
      else x :: y :: l'
  end.

Definition sort_by_quality_desc (l : list Cell) : list Cell :=
  fold_right insert_by_quality [] l.

(** The last cell of [cells] with the network name [name]. *)
Fixpoint last_with_ssid (name : text) (cells : list Cell) : option Cell :=
  match cells with
  | [] => None
  | cell :: cells' =>
      match last_with_ssid name cells' with
      | Some found => Some found
      | None => if decide (ssid cell = name) then Some cell else None
      end
  end.

(** [x] may stand before [y] in a list in descending order of the
    quality texts: the text of [x] is not smaller than that of [y]. *)
Definition quality_ge (x y : Cell) : Prop := str_lt (quality x) (quality y) = false.

(** [str.strip()] *)
Definition is_space (c : ascii) : bool :=
  let n := nat_of_ascii c in
  (((9 <=? n) && (n <=? 13)) || ((28 <=? n) && (n <=? 32))
   || (n =? 133) || (n =? 160))%nat.

Fixpoint lstrip (s : text) : text :=
  match s with
  | c :: s' => if is_space c then lstrip s' else s
  | [] => []
  end.

Definition strip (s : text) : text := rev (lstrip (rev (lstrip s))).

(** [DHCPCD_CONF_ENTRY_TEMPLATE.format(iface=iface)] *)
Definition DHCPCD_CONF_ENTRY_TEMPLATE (iface : text) : text :=
  [newline] ++ lit "interface " ++ iface ++ [newline]
  ++ lit "    static ip_address=192.168.4.1/24" ++ [newline]
  ++ lit "    nohook wpa_supplicant" ++ [newline].

Definition WPA_SUPPLICANT_CONF : string := "/etc/wpa_supplicant/wpa_supplicant.conf".
Definition DHCPCD_CONF : string := "/etc/dhcpcd.conf".
Definition HOSTAPD_CONF : string := "/etc/hostapd/hostapd.conf".

Definition AP_MODE : text := lit "AP".
Definition CLI_MODE : text := lit "CLI".

(** The default of the [identifier] parameter; no call passes another. *)
Definition rpiwifi : text := lit "rpiwifi".

(** The pattern of the line with the plain text password in the output of
    [wpa_passphrase]: [\t*#psk=Q[^\nQ]+Q\n], where Q stands for the double
    quote character. *)
Definition psk_comment_pattern : regex :=
  [(Chr tab, ZeroOrMore)]
  ++ literal (lit "#psk=" ++ [dquote])
  ++ [(NoneOf [newline; dquote], OneOrMore)]
  ++ literal [dquote; newline].

(** The truth value of an optional string argument: [None] and the empty
    string count as false. *)
Definition truthy (a : option text) : bool :=
  match a with
  | None => false
  | Some [] => false
  | Some (_ :: _) => true
  end.

Definition arg (a : option text) : text := default [] a.

Record WifiController : Type := {
  interface : text;
  dhcpcd_conf_entry : text
}.

(** [WifiController.__init__] *)
Definition init (interface : text) : WifiController :=
  {| interface := interface;
     dhcpcd_conf_entry := strip (DHCPCD_CONF_ENTRY_TEMPLATE interface) |}.

Section Program.

Variable env : Env.

(** [run = subprocess.check_output]: the output of the process, or
    [CalledProcessError] when it exits with a status other than 0. *)
Definition run (argv : list text) : M text :=
  fun w =>
    let status := exit_status env (trace w) argv in
    if (status =? 0)%Z then (Ok (output env (trace w) argv), log (Exec argv) w)
    else (Raise (CalledProcessError argv status), log (Exec argv) w).

(** [subprocess.call]: the exit status of the process. *)
Definition call (argv : list text) : M Z :=
  fun w => (Ok (exit_status env (trace w) argv), log (Exec argv) w).

(** [wifi.Cell.all(interface)] *)
Definition Cell_all (interface : text) : M (option (list Cell)) :=
  fun w => (Ok (cell_all env (trace w) interface), log (Scan interface) w).

(** ** The module's functions *)

Definition replace_in_file (filepath : string) (source : pattern_arg) (target : text)
  : M unit :=
  content ← read_file filepath;
  open_truncating filepath;;
  data ← lift (replaced_content source target content);
  write_file filepath data.

Definition remove_entry_from_config (filepath : string) (identifier : text) : M unit :=
  replace_in_file filepath (Regex (entry_pattern identifier)) [].

Definition add_entry_to_config (entry : text) (filepath : string) (identifier : text)
  : M unit :=
  remove_entry_from_config filepath identifier;;
  append_file filepath (entry_block entry identifier).

(** The loop of [list_available_wifis]: up to [attempts] scans; after an
    [InterfaceError] the interface is brought up and the scan is tried
    again after two seconds; with no attempt left [cells] is still []. *)
Fixpoint scan_loop (attempts : nat) (self : WifiController) : M (list Cell) :=
  match attempts with
  | O => mret []
  | S attempts' =>
      scanned ← Cell_all (interface self);
      match scanned with
      | Some cells => mret cells
      | None =>
          run [lit "ifconfig"; interface self; lit "up"];;
          sleep 2;;
          scan_loop attempts' self
      end
  end.

Definition list_available_wifis (self : WifiController) : M (list Cell) :=
  cells ← scan_loop 3 self;
  let unique_cells := values (cells_by_ssid cells) in
  mret (sort_by_quality_desc unique_cells).

Definition set_cli_mode (self : WifiController) (ssid password : option text) : M bool :=
  if negb (truthy password) then
    print (lit "[WARNING] Unencrypted networks are not implemented yet.");;
    mret false
  else
    run [lit "dhcpcd"; lit "--release"; interface self];;
    run [lit "service"; lit "dhcpcd"; lit "stop"];;
    (if truthy ssid then
       entry ← run [lit "/usr/bin/wpa_passphrase"; arg ssid; arg password];
       let entry := re_sub psk_comment_pattern [] entry in
       add_entry_to_config entry WPA_SUPPLICANT_CONF rpiwifi
     else mret tt);;
    remove_entry_from_config DHCPCD_CONF rpiwifi;;
    run [lit "systemctl"; lit "stop"; lit "hostapd.service"; lit "dnsmasq.service"];;
    run [lit "systemctl"; lit "disable"; lit "hostapd.service"; lit "dnsmasq.service"];;
    run [lit "service"; lit "dhcpcd"; lit "start"];;
    sleep 3;;
    run [lit "wpa_cli"; lit "-i"; interface self; lit "reconfigure"];;
    mret true.

Definition set_ap_mode (self : WifiController) : M unit :=
  run [lit "dhcpcd"; lit "--release"; interface self];;
  run [lit "service"; lit "dhcpcd"; lit "stop"];;
  add_entry_to_config (dhcpcd_conf_entry self) DHCPCD_CONF rpiwifi;;
  run [lit "systemctl"; lit "enable"; lit "hostapd.service"; lit "dnsmasq.service"];;
  run [lit "systemctl"; lit "start"; lit "hostapd.service"; lit "dnsmasq.service"];;
  run [lit "service"; lit "dhcpcd"; lit "start"];;
  mret tt.

Definition get_mode (self : WifiController) : M text :=
  status ← call [lit "systemctl"; lit "-q"; lit "is-active"; lit "hostapd"];
  if (status =? 0)%Z then mret AP_MODE else mret CLI_MODE.

End Program.

(** A sequence of editor operations on the file at [filepath]. *)
Fixpoint perform (filepath : string) (identifier : text) (ops : list op) : M unit :=
  match ops with
  | [] => mret tt
  | o :: ops' =>
      match o with
      | Add entry => add_entry_to_config entry filepath identifier
      | Remove => remove_entry_from_config filepath identifier
      end;;
      perform filepath identifier ops'
  end.

(** ** Notions and sample data of the properties *)

Definition hash : ascii := "#"%char.

Ltac not_in_literal :=
  let H := fresh in
  intros H; cbn in H;
  repeat (destruct H as [H|H]; [discriminate H|]); exact H.

Definition dhcpcd_with (content : text) : World :=
  {| files := {[DHCPCD_CONF := content]}; trace := [] |}.

(** A file with two delimited entries and the text [mid] between them. *)
Definition two_blocks : text :=
  lit "a" ++ begin_marker rpiwifi ++ lit "x" ++ end_marker rpiwifi
  ++ lit "mid"
  ++ begin_marker rpiwifi ++ lit "y" ++ end_marker rpiwifi ++ lit "z".

(** An unterminated entry: a begin marker and no end marker. *)
Definition unterminated : text :=
  lit "hostname" ++ [newline] ++ begin_marker rpiwifi ++ [newline]
  ++ lit "interface wlan0" ++ [newline].



(** A file that ends in an entry with no newline behind its end marker. *)
Definition entry_at_end : text :=
  lit "hostname" ++ [newline]
  ++ begin_marker rpiwifi ++ [newline] ++ lit "interface wlan0" ++ [newline]
  ++ end_marker rpiwifi.

Definition warning : text :=
  lit "[WARNING] Unencrypted networks are not implemented yet.".

(** An environment in which every process succeeds without output and
    every scan finds [cells]. *)
Definition quiet_env (cells : list Cell) : Env :=
  {| exit_status := fun _ _ => 0%Z;
     output := fun _ _ => [];
     cell_all := fun _ _ => Some cells |}.

Definition empty_world : World := {| files := ∅; trace := [] |}.

Definition is_active_query : list text :=
  [lit "systemctl"; lit "-q"; lit "is-active"; lit "hostapd"].

(** The level that a quality text names: the number in front of the
    slash. *)
Fixpoint number_from (acc : nat) (s : text) : nat :=
  match s with
  | c :: s' => if decimal_digit c then number_from (10 * acc + digit_value c) s' else acc
  | [] => acc
  end.

Definition quality_level (q : text) : nat := number_from 0 q.

Definition cell_A3 : Cell := {| ssid := lit "A"; quality := lit "3/70" |}.
Definition cell_B5 : Cell := {| ssid := lit "B"; quality := lit "5/70" |}.
Definition cell_A7 : Cell := {| ssid := lit "A"; quality := lit "7/70" |}.

(** The text [#psk=] and a double quote, with which the line starts. *)
Definition psk_open : text := lit "#psk=" ++ [dquote].

(** The line as [wpa_passphrase] prints it. *)
Definition psk_comment_line (tabs password : text) : text :=
  tabs ++ psk_open ++ password ++ [dquote; newline].

(** The line with the derived key. *)
Definition psk_key_line (tabs key : text) : text :=
  tabs ++ lit "psk=" ++ key ++ [newline].

Definition wpa_passphrase (ssid password : text) : list text :=
  [lit "/usr/bin/wpa_passphrase"; ssid; password].

(** An output of [wpa_passphrase] for the network [home]. *)
Definition sample_pre : text :=
  lit "network={" ++ [newline; tab] ++ lit "ssid=" ++ [dquote] ++ lit "home"
  ++ [dquote; newline].

Definition sample_output : text :=
  sample_pre ++ psk_comment_line [tab] (lit "secretpw")
  ++ psk_key_line [tab] (lit "0123abcd") ++ lit "}" ++ [newline].

Definition sample_env : Env :=
  {| exit_status := fun _ _ => 0%Z;
     output := fun _ _ => sample_output;
     cell_all := fun _ _ => None |}.

(** A password with a double quote in it, and the output of
    [wpa_passphrase] for it. *)
Definition quoted_password : text := lit "pass" ++ [dquote] ++ lit "word".

Definition quoted_env : Env :=
  {| exit_status := fun _ _ => 0%Z;
     output := fun _ _ =>
       sample_pre ++ psk_comment_line [tab] quoted_password
       ++ psk_key_line [tab] (lit "0123abcd") ++ lit "}" ++ [newline];
     cell_all := fun _ _ => None |}.

Definition sample_world : World :=
  {| files := {[ WPA_SUPPLICANT_CONF := lit "country=AT" ++ [newline];
                 DHCPCD_CONF := lit "hostname" ++ [newline] ]};
     trace := [] |}.

(** ** Notions of the further properties *)

(** [m] leaves the file at [path] as it is, whatever it returns or raises. *)
Definition leaves_file {A : Type} (path : string) (m : M A) : Prop :=
  forall w, files (m w).2 !! path = files w !! path.

(** [m] leaves every file as it is, whatever it returns or raises. *)
Definition leaves_files {A : Type} (m : M A) : Prop :=
  forall w, files (m w).2 = files w.

(** The scans among the events of a trace. *)
Definition is_scan (e : event) : bool :=
  match e with
  | Scan _ => true
  | _ => false
  end.

(** The file writes among the events of a trace. *)
Definition is_write (e : event) : bool :=
  match e with
  | FileWrite _ _ => true
  | _ => false
  end.

(** [("ifconfig", self.interface, "up")] *)
Definition ifconfig_up (self : WifiController) : list text :=
  [lit "ifconfig"; interface self; lit "up"].

(** An environment in which no scan succeeds and every process does. *)
Definition deaf_env : Env :=
  {| exit_status := fun _ _ => 0%Z;
     output := fun _ _ => [];
     cell_all := fun _ _ => None |}.

(** An environment in which no scan succeeds and every process exits
    with status 1. *)
Definition broken_env : Env :=
  {| exit_status := fun _ _ => 1%Z;
     output := fun _ _ => [];
     cell_all := fun _ _ => None |}.

(** An environment in which the scan succeeds once the interface has been
    brought up. *)
Definition waking_env (cells : list Cell) : Env :=
  {| exit_status := fun _ _ => 0%Z;
     output := fun _ _ => [];
     cell_all := fun t _ => if existsb (fun e => negb (is_scan e)) t
                            then Some cells else None |}.

(** The entry for the DHCP client configuration, as it reads for an
    interface. *)
Definition static_address_entry (iface : text) : text :=
  lit "interface " ++ iface ++ [newline]
  ++ lit "    static ip_address=192.168.4.1/24" ++ [newline]
  ++ lit "    nohook wpa_supplicant".

(** Going to access point mode and back to client mode, [n] times. *)
Fixpoint switch_modes (env : Env) (n : nat) (self : WifiController)
         (ssid : option text) (password : text) : M unit :=
  match n with
  | O => mret tt
  | S n' =>
      set_ap_mode env self;;
      set_cli_mode env self ssid (Some password);;
      switch_modes env n' self ssid password
  end.

(** The processes of [set_ap_mode], in the order in which it runs them. *)
Definition ap_mode_before (self : WifiController) : list event :=
  [Exec [lit "dhcpcd"; lit "--release"; interface self];
   Exec [lit "service"; lit "dhcpcd"; lit "stop"]].

Definition ap_mode_after : list event :=
  [Exec [lit "systemctl"; lit "enable"; lit "hostapd.service"; lit "dnsmasq.service"];
   Exec [lit "systemctl"; lit "start"; lit "hostapd.service"; lit "dnsmasq.service"];
   Exec [lit "service"; lit "dhcpcd"; lit "start"]].

(** [("dhcpcd", "--release", self.interface)] *)
Definition dhcpcd_release (self : WifiController) : list text :=
  [lit "dhcpcd"; lit "--release"; interface self].

(** ** The credentials of the access point: [set_ap_credentials] *)

(** The patterns [\bssid=[^\n]+\b] and [\bwpa_passphrase=[^\n]+\b]: a key
    at a word boundary and the rest of its line, up to a word boundary. *)
Definition key_pattern (key : text) : wregex :=
  [Boundary] ++ wliteral key ++ [Tok (NoneOf [newline]) OneOrMore; Boundary].

Definition ssid_key : text := lit "ssid=".
Definition passphrase_key : text := lit "wpa_passphrase=".

Definition restart_hostapd : list text :=
  [lit "systemctl"; lit "restart"; lit "hostapd.service"].

Definition set_ap_credentials (env : Env) (self : WifiController)
           (wifi_name wifi_password : text) : M unit :=
  replace_in_file HOSTAPD_CONF (WordRegex (key_pattern ssid_key))
    (ssid_key ++ wifi_name);;
  replace_in_file HOSTAPD_CONF (WordRegex (key_pattern passphrase_key))
    (passphrase_key ++ wifi_password);;
  mode ← get_mode env self;
  if decide (mode = AP_MODE) then run env restart_hostapd;; mret tt
  else mret tt.

(** A text that [re.sub] takes as it stands when it is the replacement. *)
Definition plain_replacement (target : text) : Prop := ~ In backslash target.

(** The template of such a text. *)
Definition verbatim (target : text) : template := map Verbatim target.

(** The character in front of the position behind [a], when [prev] is in
    front of [a]. *)
Definition last_char (prev : option ascii) (a : text) : option ascii :=
  match rev a with
  | c :: _ => Some c
  | [] => prev
  end.

(** The substitution on a text that stands behind [prev]. *)
Definition wsub_from (p : wregex) (repl : template) (prev : option ascii) (s : text)
  : text :=
  wsub_loop (S (length s)) p repl prev s.

(** [s] ends in a word character. *)
Definition ends_in_word (s : text) : bool :=
  match last_char None s with
  | Some c => re_word c
  | None => false
  end.

(** [s] is empty or starts with a newline: a line ends in front of it. *)
Definition line_end (s : text) : bool :=
  match s with
  | [] => true
  | c :: _ => Ascii.eqb c newline
  end.

(** [s] holds no newline. *)
Definition one_line (s : text) : bool := forallb (atom_ok (NoneOf [newline])) s.

(** [s] is made of characters that are neither word characters nor
    newlines. *)
Definition no_word (s : text) : bool :=
  forallb (fun c => negb (re_word c) && atom_ok (NoneOf [newline]) c) s.

(** Wherever [key] stands in [s], a word character stands in front of it;
    [prev] is the character in front of [s]. *)
Fixpoint key_free (key : text) (prev : option ascii) (s : text) : bool :=
  (if starts_with key s
   then match prev with Some c => re_word c | None => false end
   else true)
  && match s with
     | [] => true
     | c :: s' => key_free key (Some c) s'
     end.

(** A configuration of the access point daemon. *)
Definition sample_hostapd : text :=
  lit "interface=wlan0" ++ [newline]
  ++ lit "ssid=OldNet" ++ [newline]
  ++ lit "ignore_broadcast_ssid=0" ++ [newline]
  ++ lit "wpa_passphrase=oldsecret" ++ [newline].

(** One with a carriage return and a newline at the end of each line, and
    with punctuation behind the name. *)
Definition crlf : text := [carriage_return; newline].

Definition crlf_hostapd : text :=
  lit "interface=wlan0" ++ crlf
  ++ lit "ssid=Old Net!!" ++ crlf
  ++ lit "ignore_broadcast_ssid=0" ++ crlf
  ++ lit "wpa_passphrase=oldsecret" ++ crlf.

Definition hostapd_world (content : text) : World :=
  {| files := {[ HOSTAPD_CONF := content ]}; trace := [] |}.

(** The events of [set_cli_mode] behind the writes, in their order. *)
Definition cli_mode_after (self : WifiController) : list event :=
  [Exec [lit "systemctl"; lit "stop"; lit "hostapd.service"; lit "dnsmasq.service"];
   Exec [lit "systemctl"; lit "disable"; lit "hostapd.service"; lit "dnsmasq.service"];
   Exec [lit "service"; lit "dhcpcd"; lit "start"];
   Sleep 3;
   Exec [lit "wpa_cli"; lit "-i"; interface self; lit "reconfigure"]].

(** * Properties *)

(** ** Occurrences of a text in a text *)

Lemma starts_with_spec (w s : text) :
  starts_with w s = true <-> exists y, s = w ++ y.
Proof.
  revert s. induction w as [|c w IH]; intros s; simpl.
  - split; eauto.
  - destruct s as [|d s].
    + split; [discriminate | intros [y Hy]; discriminate].
    + rewrite andb_true_iff, Ascii.eqb_eq, IH. split.
      * intros [-> [y ->]]. eauto.
      * intros [y Hy]. injection Hy as -> ->. eauto.
Qed.

Lemma starts_with_app (w y : text) : starts_with w (w ++ y) = true.
Proof. apply starts_with_spec. eauto. Qed.

Lemma starts_with_false (w s : text) :
  starts_with w s = false <-> forall y, s <> w ++ y.
Proof.
  split.
  - intros H y ->. rewrite starts_with_app in H. discriminate.
  - intros H. destruct (starts_with w s) eqn:E; [|reflexivity].
    apply starts_with_spec in E as [y ->]. now destruct (H y).
Qed.

(** [find] gives the first occurrence. *)
Lemma find_Some (w s : text) (i : nat) :
  find w s = Some i ->
  exists x y, s = x ++ w ++ y /\ length x = i /\
    forall x' y', s = x' ++ w ++ y' -> i <= length x'.
Proof.
  revert i. induction s as [|c s IH]; intros i; simpl.
  - destruct (starts_with w []) eqn:E; [|discriminate].
    intros [= <-]. apply starts_with_spec in E as [y Hy].
    exists [], y. repeat split; [exact Hy | intros; lia].
  - destruct (starts_with w (c :: s)) eqn:E.
    + intros [= <-]. apply starts_with_spec in E as [y Hy].
      exists [], y. repeat split; [exact Hy | intros; lia].
    + destruct (find w s) as [k|] eqn:F; simpl; [|discriminate].
      intros [= <-]. destruct (IH k eq_refl) as (x & y & -> & Hx & Hmin).
      exists (c :: x), y. repeat split; [simpl; lia|].
      intros [|d x'] y' H'.
      * exfalso. apply (proj1 (starts_with_false _ _) E y'). exact H'.
      * injection H' as _ H'. specialize (Hmin _ _ H'). simpl. lia.
Qed.

Lemma find_None (w s : text) : find w s = None -> ~ occurs w s.
Proof.
  induction s as [|c s IH]; simpl.
  - destruct (starts_with w []) eqn:E; [discriminate|]. intros _ (a & b & H).
    destruct a; [|discriminate]. simpl in H.
    apply (proj1 (starts_with_false _ _) E b). exact H.
  - destruct (starts_with w (c :: s)) eqn:E; [discriminate|].
    destruct (find w s) eqn:F; [discriminate|]. intros _ (a & b & H).
    destruct a as [|d a].
    + apply (proj1 (starts_with_false _ _) E b). exact H.
    + injection H as _ H. apply IH; [reflexivity|]. exists a, b. exact H.
Qed.

Lemma occursb_spec (w s : text) : occursb w s = true <-> occurs w s.
Proof.
  unfold occursb. destruct (find w s) as [i|] eqn:F.
  - apply find_Some in F as (x & y & -> & _). split; [|reflexivity].
    intros _. exists x, y. reflexivity.
  - apply find_None in F. split; [discriminate | tauto].
Qed.

Lemma rfind_None (w s : text) : rfind w s = None -> ~ occurs w s.
Proof.
  induction s as [|c s IH]; simpl.
  - destruct (starts_with w []) eqn:E; [discriminate|]. intros _ (a & b & H).
    destruct a; [|discriminate].
    apply (proj1 (starts_with_false _ _) E b). exact H.
  - destruct (rfind w s) eqn:F; [discriminate|].
    destruct (starts_with w (c :: s)) eqn:E; [discriminate|]. intros _ (a & b & H).
    destruct a as [|d a].
    + apply (proj1 (starts_with_false _ _) E b). exact H.
    + injection H as _ H. apply IH; [reflexivity|]. exists a, b. exact H.
Qed.

(** [rfind] gives the last occurrence. *)
Lemma rfind_Some (w s : text) (j : nat) :
  rfind w s = Some j ->
  exists x y, s = x ++ w ++ y /\ length x = j /\
    forall x' y', s = x' ++ w ++ y' -> length x' <= j.
Proof.
  revert j. induction s as [|c s IH]; intros j; simpl.
  - destruct (starts_with w []) eqn:E; [|discriminate].
    intros [= <-]. apply starts_with_spec in E as [y Hy].
    exists [], y. repeat split; [exact Hy|].
    intros [|d x'] y' H'; [simpl; lia | discriminate].
  - destruct (rfind w s) as [k|] eqn:F.
    + intros [= <-]. destruct (IH k eq_refl) as (x & y & -> & Hx & Hmax).
      exists (c :: x), y. repeat split; [simpl; lia|].
      intros [|d x'] y' H'; [simpl; lia|].
      injection H' as _ H'. specialize (Hmax _ _ H'). simpl. lia.
    + destruct (starts_with w (c :: s)) eqn:E; [|discriminate].
      intros [= <-]. apply starts_with_spec in E as [y Hy].
      exists [], y. repeat split; [exact Hy|].
      intros [|d x'] y' H'; [simpl; lia|].
      injection H' as _ H'. exfalso. apply (rfind_None _ _ F). exists x', y'. exact H'.
Qed.

(** ** The matcher *)

Lemma match_literal_app (w : text) (p : regex) (s : text) :
  match_here (literal w ++ p) (w ++ s) = match_here p s.
Proof.
  induction w as [|c w IH]; simpl; [reflexivity|].
  rewrite Ascii.eqb_refl. exact IH.
Qed.

Lemma match_literal_inv (w : text) (p : regex) (s r : text) :
  match_here (literal w ++ p) s = Some r ->
  exists s', s = w ++ s' /\ match_here p s' = Some r.
Proof.
  revert s. induction w as [|c w IH]; intros s; simpl.
  - eauto.
  - destruct s as [|d s]; [discriminate|].
    destruct (Ascii.eqb c d) eqn:E; [|discriminate].
    apply Ascii.eqb_eq in E as <-. intros H.
    destruct (IH _ H) as (s' & -> & H'). eauto.
Qed.

(** A greedy repetition hands some prefix made of its atom to the
    continuation. *)
Lemma match_star_inv (a : atom) (k : text -> option text) (s r : text) :
  match_star a k s = Some r ->
  exists u v, s = u ++ v /\ forallb (atom_ok a) u = true /\ k v = Some r.
Proof.
  induction s as [|c s IH]; simpl.
  - intros H. exists [], []. auto.
  - destruct (atom_ok a c) eqn:Hc.
    + destruct (match_star a k s) as [r'|] eqn:Hs.
      * intros [= ->]. destruct (IH eq_refl) as (u & v & -> & Hu & Hk).
        exists (c :: u), v. simpl. rewrite Hc. auto.
      * intros H. exists [], (c :: s). auto.
    + intros H. exists [], (c :: s). auto.
Qed.

Lemma match_star_none (a : atom) (k : text -> option text) (s : text) :
  (forall u v, s = u ++ v -> forallb (atom_ok a) u = true -> k v = None) ->
  match_star a k s = None.
Proof.
  intros H. destruct (match_star a k s) as [r|] eqn:E; [|reflexivity].
  apply match_star_inv in E as (u & v & Hs & Hu & Hk).
  rewrite (H u v Hs Hu) in Hk. discriminate.
Qed.

(** Greediness: the continuation gets the shortest remainder it accepts. *)
Lemma match_star_greedy (a : atom) (k : text -> option text) (u v r : text) :
  forallb (atom_ok a) u = true ->
  k v = Some r ->
  (forall v1 v2, v = v1 ++ v2 -> v1 <> [] -> forallb (atom_ok a) v1 = true ->
                 k v2 = None) ->
  match_star a k (u ++ v) = Some r.
Proof.
  intros Hu Hk Hlast. induction u as [|c u IH]; simpl.
  - destruct v as [|d v]; simpl; [exact Hk|].
    destruct (atom_ok a d) eqn:Hd; [|exact Hk].
    rewrite match_star_none; [exact Hk|].
    intros v1 v2 -> Hv1. apply (Hlast (d :: v1) v2); [reflexivity | discriminate|].
    simpl. now rewrite Hd.
  - simpl in Hu. apply andb_true_iff in Hu as [Hc Hu].
    rewrite Hc, (IH Hu). reflexivity.
Qed.

(** ** Line ends as a read gives them *)

Lemma translate_newlines_same (s : text) :
  ~ In carriage_return s -> translate_newlines false s = s.
Proof.
  induction s as [|c s IH]; intros H; [reflexivity|]. cbn [translate_newlines].
  destruct (Ascii.eqb_spec c carriage_return) as [->|_].
  - exfalso. apply H. now left.
  - assert (translate_newlines false s = s) as -> by (apply IH; intros Hin; apply H; now right).
    destruct (Ascii.eqb_spec c newline) as [->|_]; reflexivity.
Qed.

Lemma universal_newlines_same (s : text) :
  ~ In carriage_return s -> universal_newlines s = s.
Proof. apply translate_newlines_same. Qed.

(** What has been read holds no carriage return. *)
Lemma translate_newlines_no_cr (pending : bool) (s : text) :
  ~ In carriage_return (translate_newlines pending s).
Proof.
  revert pending. induction s as [|c s IH]; intros pending; [intros []|].
  cbn [translate_newlines].
  destruct (Ascii.eqb_spec c carriage_return) as [->|Hc].
  - intros [H|H]; [discriminate H | exact (IH _ H)].
  - destruct (Ascii.eqb c newline), pending;
      try (intros [H|H]; [try discriminate H; now apply Hc | exact (IH _ H)]).
    apply IH.
Qed.

Lemma universal_newlines_no_cr (s : text) : ~ In carriage_return (universal_newlines s).
Proof. apply translate_newlines_no_cr. Qed.

Lemma universal_newlines_idem (s : text) :
  universal_newlines (universal_newlines s) = universal_newlines s.
Proof. apply universal_newlines_same, universal_newlines_no_cr. Qed.

(** A text without carriage return in front of another is read as it is. *)
Lemma universal_newlines_app (a s : text) :
  ~ In carriage_return a ->
  universal_newlines (a ++ s) = a ++ universal_newlines s.
Proof.
  unfold universal_newlines. induction a as [|c a IH]; intros H; [reflexivity|].
  cbn [app translate_newlines].
  destruct (Ascii.eqb_spec c carriage_return) as [->|_].
  - exfalso. apply H. now left.
  - assert (translate_newlines false (a ++ s) = a ++ translate_newlines false s) as ->
      by (apply IH; intros Hin; apply H; now right).
    destruct (Ascii.eqb_spec c newline) as [->|_]; reflexivity.
Qed.

(** A text with neither carriage return nor newline at the start of what
    has been read stood at the start of what was there. *)
Lemma translate_newlines_prefix (w s y : text) :
  ~ In carriage_return w -> ~ In newline w ->
  translate_newlines false s = w ++ y ->
  exists y', s = w ++ y' /\ translate_newlines false y' = y.
Proof.
  revert s. induction w as [|d w IH]; intros s Hcr Hnl H; [now exists s|].
  destruct s as [|c s]; [discriminate H|]. cbn [translate_newlines app] in H.
  destruct (Ascii.eqb_spec c carriage_return) as [->|Hc].
  { injection H as <- _. exfalso. apply Hnl. now left. }
  destruct (Ascii.eqb_spec c newline) as [->|_].
  { injection H as <- _. exfalso. apply Hnl. now left. }
  injection H as <- H.
  destruct (IH s) as (y' & -> & Hy'); try assumption.
  - intros Hin. apply Hcr. now right.
  - intros Hin. apply Hnl. now right.
  - now exists y'.
Qed.

(** A text with neither carriage return nor newline that is read from a
    file stands in the file, and what is read behind it is what the file
    holds behind it. *)
Lemma translate_newlines_occurrence (pending : bool) (s a w y : text) :
  w <> [] -> ~ In carriage_return w -> ~ In newline w ->
  translate_newlines pending s = a ++ w ++ y ->
  exists a' y', s = a' ++ w ++ y' /\ translate_newlines false y' = y.
Proof.
  intros Hw Hcr Hnl. revert pending a.
  induction s as [|c s IH]; intros pending a H.
  { destruct a, w; try discriminate H. congruence. }
  assert (forall pending' a0, translate_newlines pending' s = a0 ++ w ++ y ->
            exists a' y', c :: s = a' ++ w ++ y' /\ translate_newlines false y' = y)
    as Hrest.
  { intros pending' a0 H0. destruct (IH _ _ H0) as (a' & y' & -> & Hy').
    now exists (c :: a'), y'. }
  assert (forall x, In x w -> x <> newline) as Hnot.
  { intros x Hx ->. now apply Hnl. }
  cbn [translate_newlines] in H.
  destruct (Ascii.eqb_spec c carriage_return) as [->|Hc].
  { destruct a as [|x a].
    - destruct w as [|d w]; [congruence|]. injection H as <- _.
      exfalso. apply Hnl. now left.
    - injection H as _ H. exact (Hrest _ _ H). }
  destruct (Ascii.eqb_spec c newline) as [->|Hn].
  { destruct pending; [exact (Hrest _ _ H)|].
    destruct a as [|x a].
    - destruct w as [|d w]; [congruence|]. injection H as <- _.
      exfalso. apply Hnl. now left.
    - injection H as _ H. exact (Hrest _ _ H). }
  destruct a as [|x a].
  - destruct w as [|d w]; [congruence|]. injection H as <- H.
    destruct (translate_newlines_prefix w s y) as (y' & -> & Hy'); try assumption.
    + intros Hin. apply Hcr. now right.
    + intros Hin. apply Hnl. now right.
    + now exists [], y'.
  - injection H as _ H. exact (Hrest _ _ H).
Qed.

Lemma occurs_universal_newlines (w s : text) :
  w <> [] -> ~ In carriage_return w -> ~ In newline w ->
  occurs w (universal_newlines s) -> occurs w s.
Proof.
  intros Hw Hcr Hnl (a & y & H).
  destruct (translate_newlines_occurrence false s a w y) as (a' & y' & -> & _);
    try assumption.
  now exists a', y'.
Qed.

(** ** [re.sub] *)

Lemma expand_template_nil (found : text) : expand_template [] found = [].
Proof. reflexivity. Qed.

(** A replacement made of characters alone does not depend on the match. *)
Lemma expand_template_verbatim (target found : text) :
  expand_template (verbatim target) found = target.
Proof.
  induction target as [|c target IH]; [reflexivity|].
  change (expand_template (verbatim (c :: target)) found)
    with (c :: expand_template (verbatim target) found).
  now rewrite IH.
Qed.

Lemma tokenize_plain (target : text) :
  plain_replacement target -> tokenize target = map Single target.
Proof.
  induction target as [|c target IH]; intros H; [reflexivity|].
  cbn [tokenize map]. destruct (Ascii.eqb_spec c backslash) as [->|_].
  - exfalso. apply H. now left.
  - rewrite IH; [reflexivity|]. intros Hin. apply H. now right.
Qed.

Lemma parse_tokens_single (target : text) :
  parse_tokens (map Single target) = Ok (verbatim target).
Proof.
  induction target as [|c target IH]; [reflexivity|].
  cbn [map parse_tokens]. rewrite IH. reflexivity.
Qed.

(** A replacement without a backslash is taken as it stands. *)
Lemma parse_template_plain (target : text) :
  plain_replacement target -> parse_template target = Ok (verbatim target).
Proof.
  intros H. unfold parse_template. rewrite (tokenize_plain _ H).
  apply parse_tokens_single.
Qed.

Lemma sub_loop_fuel (p : regex) (repl : template) (n m : nat) (s : text) :
  length s < n -> length s < m -> sub_loop n p repl s = sub_loop m p repl s.
Proof.
  revert m s. induction n as [|n IH]; intros m s Hn Hm; [lia|].
  destruct m as [|m]; [lia|]. cbn [sub_loop].
  destruct (match_here p s) as [r|].
  - destruct (Nat.ltb_spec (length r) (length s)).
    + f_equal. apply IH; lia.
    + destruct s as [|c s]; [reflexivity|]. cbn [length] in *.
      do 2 f_equal. apply IH; lia.
  - destruct s as [|c s]; [reflexivity|]. cbn [length] in *. f_equal. apply IH; lia.
Qed.

Lemma re_sub_skip (p : regex) (repl : template) (c : ascii) (s : text) :
  match_here p (c :: s) = None ->
  re_sub p repl (c :: s) = c :: re_sub p repl s.
Proof.
  intros H. unfold re_sub. set (rest := sub_loop (S (length s)) p repl s).
  cbn [sub_loop length]. rewrite H. reflexivity.
Qed.

Lemma re_sub_match (p : regex) (repl : template) (s r : text) :
  match_here p s = Some r -> length r < length s ->
  re_sub p repl s
  = expand_template repl (take (length s - length r) s) ++ re_sub p repl r.
Proof.
  intros H Hlt. unfold re_sub. set (rest := sub_loop (S (length r)) p repl r).
  cbn [sub_loop]. rewrite H. destruct (Nat.ltb_spec (length r) (length s)); [|lia].
  f_equal. apply sub_loop_fuel; lia.
Qed.

(** Where the pattern matches nowhere, the text is left as it is. *)
Lemma re_sub_no_match (p : regex) (repl : template) (s : text) :
  (forall a b, s = a ++ b -> match_here p b = None) ->
  re_sub p repl s = s.
Proof.
  induction s as [|c s IH]; intros H.
  - unfold re_sub. cbn [sub_loop length]. now rewrite (H [] []).
  - rewrite re_sub_skip by (apply (H []); reflexivity).
    f_equal. apply IH. intros a b ->. apply (H (c :: a)). reflexivity.
Qed.

(** The text before the first match is copied, the match is replaced, and
    the scan goes on behind it. *)
Lemma re_sub_first_match (p : regex) (repl : template) (a s r : text) :
  (forall a1 a2, a = a1 ++ a2 -> a2 <> [] -> match_here p (a2 ++ s) = None) ->
  match_here p s = Some r -> length r < length s ->
  re_sub p repl (a ++ s)
  = a ++ expand_template repl (take (length s - length r) s) ++ re_sub p repl r.
Proof.
  intros Ha Hm Hlt. induction a as [|c a IH]; cbn [app].
  - apply re_sub_match; assumption.
  - rewrite re_sub_skip.
    + f_equal. apply IH. intros a1 a2 -> Ha2. apply (Ha (c :: a1)); [reflexivity | exact Ha2].
    + apply (Ha [] (c :: a)); [reflexivity | discriminate].
Qed.

(** ** The pattern of a delimited entry *)

Arguments begin_marker : simpl never.
Arguments end_marker : simpl never.
Arguments literal : simpl never.

Lemma app_eq_app_le {A : Type} (l1 l2 l3 l4 : list A) :
  l1 ++ l2 = l3 ++ l4 -> length l1 <= length l3 ->
  exists m, l3 = l1 ++ m /\ l2 = m ++ l4.
Proof.
  revert l3. induction l1 as [|c l1 IH]; intros l3 H Hlen; simpl in *.
  - exists l3. auto.
  - destruct l3 as [|d l3]; simpl in *; [lia|].
    injection H as -> H. destruct (IH l3 H ltac:(lia)) as (m & -> & ->).
    exists m. auto.
Qed.

Lemma find_occurs (w s : text) :
  occurs w s -> exists i, find w s = Some i.
Proof.
  intros H. destruct (find w s) as [i|] eqn:F; [eauto|].
  now apply find_None in F.
Qed.

Lemma rfind_occurs (w s : text) :
  occurs w s -> exists j, rfind w s = Some j.
Proof.
  intros H. destruct (rfind w s) as [j|] eqn:F; [eauto|].
  now apply rfind_None in F.
Qed.

(** A match of the pattern is a begin marker, at least one character, and
    an end marker. *)
Lemma entry_match_inv (identifier s r : text) :
  match_here (entry_pattern identifier) s = Some r ->
  exists m, m <> [] /\
    s = begin_marker identifier ++ m ++ end_marker identifier ++ r.
Proof.
  unfold entry_pattern. intros H.
  apply match_literal_inv in H as (s' & -> & H). cbn [app match_here] in H.
  destruct s' as [|c s']; [discriminate|]. cbn [atom_ok] in H.
  apply match_star_inv in H as (u & v & -> & _ & H).
  rewrite <- (app_nil_r (literal _)) in H.
  apply match_literal_inv in H as (t & -> & H). simpl in H. injection H as ->.
  exists (c :: u). split; [discriminate | reflexivity].
Qed.

(** The greedy [.+] runs up to the last end marker. *)
Lemma entry_match_last (identifier m r : text) :
  m <> [] ->
  (forall x y, m ++ end_marker identifier ++ r = x ++ end_marker identifier ++ y ->
               length x <= length m) ->
  match_here (entry_pattern identifier)
             (begin_marker identifier ++ m ++ end_marker identifier ++ r) = Some r.
Proof.
  intros Hm Hlast. unfold entry_pattern. rewrite match_literal_app.
  destruct m as [|c m]; [congruence|]. cbn [app match_here atom_ok].
  apply match_star_greedy.
  - apply forallb_forall. reflexivity.
  - rewrite <- (app_nil_r (literal _)). now rewrite match_literal_app.
  - intros v1 v2 Hv Hv1 _.
    destruct (match_here (literal (end_marker identifier)) v2) as [r'|] eqn:E;
      [|reflexivity].
    rewrite <- (app_nil_r (literal _)) in E.
    apply match_literal_inv in E as (t & -> & _).
    specialize (Hlast ((c :: m) ++ v1) t). rewrite Hv in Hlast.
    rewrite <- app_assoc in Hlast. specialize (Hlast eq_refl).
    rewrite length_app in Hlast. destruct v1; [congruence | simpl in Hlast; lia].
Qed.

(** What [remove_entry_from_config] does to a file that has a begin marker
    and, at least one character behind it, an end marker: it cuts from the
    first begin marker to the last end marker. *)
Lemma removed_content_cut (identifier a m b : text) :
  let content := a ++ begin_marker identifier ++ m ++ end_marker identifier ++ b in
  m <> [] ->
  (forall x y, content = x ++ begin_marker identifier ++ y -> length a <= length x) ->
  (forall x y, content = x ++ end_marker identifier ++ y ->
               length x <= length (a ++ begin_marker identifier ++ m)) ->
  removed_content identifier content = a ++ b.
Proof.
  intros content Hm Hfirst Hlast. unfold removed_content, replaced_content.
  unfold content. rewrite (re_sub_first_match _ _ _ _ b).
  - simpl. f_equal. apply re_sub_no_match. intros b1 b2 -> .
    destruct (match_here (entry_pattern identifier) b2) as [r|] eqn:E; [|reflexivity].
    apply entry_match_inv in E as (m' & _ & ->).
    specialize (Hlast (a ++ begin_marker identifier ++ m ++ end_marker identifier
                         ++ b1 ++ begin_marker identifier ++ m') r).
    unfold content in Hlast. repeat rewrite <- app_assoc in Hlast.
    specialize (Hlast eq_refl). repeat rewrite length_app in Hlast.
    assert (0 < length (end_marker identifier))
      by (unfold end_marker; rewrite length_app; simpl; lia).
    lia.
  - intros a1 a2 -> Ha2.
    destruct (match_here (entry_pattern identifier) (a2 ++ _)) as [r|] eqn:E;
      [|reflexivity].
    apply entry_match_inv in E as (m' & _ & E).
    specialize (Hfirst a1 (m' ++ end_marker identifier ++ r)).
    unfold content in Hfirst. rewrite <- app_assoc, E in Hfirst.
    specialize (Hfirst eq_refl). rewrite length_app in Hfirst.
    destruct a2; [congruence | simpl in Hfirst; lia].
  - apply entry_match_last; [exact Hm|].
    intros x y H.
    specialize (Hlast (a ++ begin_marker identifier ++ x) y).
    unfold content in Hlast. rewrite H in Hlast. repeat rewrite <- app_assoc in Hlast.
    specialize (Hlast eq_refl). repeat rewrite length_app in Hlast. lia.
  - repeat rewrite length_app.
    assert (0 < length (end_marker identifier))
      by (unfold end_marker; rewrite length_app; simpl; lia).
    lia.
Qed.

(** Without a begin marker followed, at least one character later, by an
    end marker, nothing matches. *)
Lemma removed_content_same (identifier content : text) :
  (forall a m b, m <> [] ->
     content <> a ++ begin_marker identifier ++ m ++ end_marker identifier ++ b) ->
  removed_content identifier content = content.
Proof.
  intros H. apply re_sub_no_match. intros a b ->.
  destruct (match_here (entry_pattern identifier) b) as [r|] eqn:E; [|reflexivity].
  apply entry_match_inv in E as (m & Hm & ->). now destruct (H a m r Hm).
Qed.

Lemma has_span_spec (identifier content : text) :
  has_span identifier content = true <-> complete_span identifier content.
Proof.
  unfold has_span, complete_span. split.
  - destruct (find _ content) as [i|] eqn:F; [|discriminate].
    destruct (rfind _ content) as [j|] eqn:R; [|discriminate].
    intros H. apply Nat.leb_le in H.
    apply find_Some in F as (x & y & Hx & Hi & _).
    apply rfind_Some in R as (x' & y' & Hx' & Hj & _).
    rewrite Hx in Hx'. rewrite app_assoc in Hx'.
    apply app_eq_app_le in Hx' as (m & -> & ->);
      [|rewrite length_app; lia].
    exists x, m, y'. rewrite Hx. reflexivity.
  - intros (a & m & b & ->).
    destruct (find_occurs (begin_marker identifier)
                (a ++ begin_marker identifier ++ m ++ end_marker identifier ++ b))
      as [i F]; [eexists _, _; reflexivity|].
    destruct (rfind_occurs (end_marker identifier)
                (a ++ begin_marker identifier ++ m ++ end_marker identifier ++ b))
      as [j R].
    { exists (a ++ begin_marker identifier ++ m), b.
      now repeat rewrite <- app_assoc. }
    rewrite F, R. apply Nat.leb_le.
    apply find_Some in F as (x & y & Hx & Hi & Hmin).
    apply rfind_Some in R as (x' & y' & Hx' & Hj & Hmax).
    specialize (Hmin a _ eq_refl).
    specialize (Hmax (a ++ begin_marker identifier ++ m) b).
    repeat rewrite <- app_assoc in Hmax. specialize (Hmax eq_refl).
    repeat rewrite length_app in Hmax. lia.
Qed.

Lemma removed_content_find (identifier content : text) (i j : nat) :
  find (begin_marker identifier) content = Some i ->
  rfind (end_marker identifier) content = Some j ->
  i + length (begin_marker identifier) < j ->
  removed_content identifier content
  = take i content ++ drop (j + length (end_marker identifier)) content.
Proof.
  intros F R Hij.
  apply find_Some in F as (x & y & Hx & Hi & Hmin).
  apply rfind_Some in R as (x' & y' & Hx' & Hj & Hmax).
  pose proof Hx' as Hsplit. rewrite Hx, app_assoc in Hsplit.
  apply app_eq_app_le in Hsplit as (m & Hm & Hy); [|rewrite length_app; lia].
  assert (m <> []) as Hne.
  { intros ->. rewrite app_nil_r in Hm. subst x'. rewrite length_app in Hj. lia. }
  assert (content = x ++ begin_marker identifier ++ m ++ end_marker identifier ++ y')
    as Hc by (rewrite Hx, Hy; reflexivity).
  assert (take i content = x) as ->.
  { rewrite Hc, <- Hi. apply take_app_length. }
  assert (drop (j + length (end_marker identifier)) content = y') as ->.
  { rewrite Hx', <- Hj, app_assoc, <- length_app. apply drop_app_length. }
  rewrite Hc. apply removed_content_cut; [exact Hne | |].
  - intros x0 y0 H0. rewrite <- Hc in H0. specialize (Hmin _ _ H0). lia.
  - intros x0 y0 H0. rewrite <- Hc in H0. specialize (Hmax _ _ H0).
    rewrite app_assoc, <- Hm. lia.
Qed.

(** ** The editor on a file *)

(** With a well-formed target the file is read, emptied and written with
    the substitution made in the text that was read. *)
Lemma replace_in_file_run (filepath : string) (source : pattern_arg)
      (target content : text) (repl : template) (w : World) :
  files w !! filepath = Some content ->
  parse_template target = Ok repl ->
  replace_in_file filepath source target w
  = (Ok tt,
     {| files :=
          <[filepath := substituted source repl (universal_newlines content)]> (files w);
        trace :=
          trace w
          ++ [FileWrite filepath (substituted source repl (universal_newlines content))] |}).
Proof.
  intros H Hrepl. unfold replace_in_file, replaced_content.
  unfold mbind, M_bind, bind, read_file, open_truncating, lift, write_file.
  unfold text in *. rewrite H, Hrepl. cbn [files trace].
  now rewrite insert_insert_eq.
Qed.

(** With a malformed target the file is read and emptied, and left empty
    by the exception that [re.sub] raises. *)
Lemma replace_in_file_raise (filepath : string) (source : pattern_arg)
      (target content : text) (e : exn) (w : World) :
  files w !! filepath = Some content ->
  parse_template target = Raise e ->
  replace_in_file filepath source target w
  = (Raise e, {| files := <[filepath := []]> (files w); trace := trace w |}).
Proof.
  intros H Hrepl. unfold replace_in_file, replaced_content.
  unfold mbind, M_bind, bind, read_file, open_truncating, lift.
  unfold text in *. now rewrite H, Hrepl.
Qed.

Lemma replace_in_file_missing (filepath : string) (source : pattern_arg) (target : text)
      (w : World) :
  files w !! filepath = None ->
  replace_in_file filepath source target w = (Raise (FileNotFoundError filepath), w).
Proof.
  intros H. unfold replace_in_file, mbind, M_bind, bind, read_file.
  unfold text in *. now rewrite H.
Qed.

Lemma remove_entry_run (filepath : string) (identifier content : text) (w : World) :
  files w !! filepath = Some content ->
  let kept := removed_content identifier (universal_newlines content) in
  remove_entry_from_config filepath identifier w
  = (Ok tt,
     {| files := <[filepath := kept]> (files w);
        trace := trace w ++ [FileWrite filepath kept] |}).
Proof.
  intros H kept. unfold remove_entry_from_config.
  now rewrite (replace_in_file_run _ _ _ _ [] _ H).
Qed.

Lemma add_entry_run (entry : text) (filepath : string) (identifier content : text)
      (w : World) :
  files w !! filepath = Some content ->
  let kept := removed_content identifier (universal_newlines content) in
  add_entry_to_config entry filepath identifier w
  = (Ok tt,
     {| files := <[filepath := kept ++ entry_block entry identifier]> (files w);
        trace := trace w
                 ++ [FileWrite filepath kept;
                     FileWrite filepath (entry_block entry identifier)] |}).
Proof.
  intros H kept. unfold add_entry_to_config. unfold mbind at 1. unfold M_bind, bind.
  rewrite (remove_entry_run _ _ _ _ H). unfold append_file. cbn [files trace].
  rewrite lookup_insert_eq, insert_insert_eq. cbn [default].
  rewrite <- app_assoc. reflexivity.
Qed.

(** ** The markers of a plain identifier *)

Lemma begin_marker_cons (identifier : text) :
  begin_marker identifier = hash :: lit "<begin_" ++ identifier ++ lit "_entry>".
Proof. reflexivity. Qed.

Lemma end_marker_cons (identifier : text) :
  end_marker identifier = hash :: lit "<end_" ++ identifier ++ lit "_entry>".
Proof. reflexivity. Qed.

Lemma end_marker_snoc (identifier : text) :
  end_marker identifier = (lit "#<end_" ++ identifier ++ lit "_entry") ++ [">"%char].
Proof. unfold end_marker. now repeat rewrite <- app_assoc. Qed.

Lemma plain_not_in (identifier : text) (c : ascii) :
  plain_identifier identifier -> word_char c = false -> ~ In c identifier.
Proof.
  unfold plain_identifier. rewrite forallb_forall. intros H Hc Hin.
  rewrite (H c Hin) in Hc. discriminate.
Qed.

(** Neither marker of a plain identifier holds a [#] behind its first
    character, or a newline anywhere. *)
Lemma hash_not_in_begin (identifier : text) :
  plain_identifier identifier ->
  ~ In hash (lit "<begin_" ++ identifier ++ lit "_entry>").
Proof.
  intros Hp H. apply in_app_or in H as [H|H]; [revert H; not_in_literal|].
  apply in_app_or in H as [H|H]; [|revert H; not_in_literal].
  now apply (plain_not_in _ hash Hp).
Qed.


Lemma newline_not_in_begin (identifier : text) :
  plain_identifier identifier -> ~ In newline (begin_marker identifier).
Proof.
  intros Hp H. unfold begin_marker in H.
  apply in_app_or in H as [H|H]; [revert H; not_in_literal|].
  apply in_app_or in H as [H|H]; [|revert H; not_in_literal].
  now apply (plain_not_in _ newline Hp).
Qed.

Lemma occurs_nil (w : text) : w <> [] -> ~ occurs w [].
Proof.
  intros Hw (a & b & H). destruct a; [|discriminate].
  destruct w; [congruence | discriminate].
Qed.

Lemma occurs_app_l (w x y : text) : occurs w x -> occurs w (x ++ y).
Proof.
  intros (a & b & ->). exists a, (b ++ y). now repeat rewrite <- app_assoc.
Qed.


(** An occurrence of [w] avoids a character that [w] does not hold. *)
Lemma occurs_around (w x y : text) (c : ascii) :
  ~ In c w -> occurs w (x ++ c :: y) -> occurs w x \/ occurs w y.
Proof.
  intros Hc (a & b & H).
  destruct (Nat.le_gt_cases (length (a ++ w)) (length x)) as [Hle|Hgt].
  - left. rewrite app_assoc in H. symmetry in H.
    apply app_eq_app_le in H as (m & -> & _); [|exact Hle].
    exists a, m. now rewrite <- app_assoc.
  - destruct (Nat.le_gt_cases (length a) (length x)) as [Hax|Hax].
    + exfalso. symmetry in H. apply app_eq_app_le in H as (m & -> & H); [|exact Hax].
      repeat rewrite length_app in Hgt.
      symmetry in H. apply app_eq_app_le in H as (m' & -> & H); [|lia].
      destruct m' as [|d m']; [rewrite app_nil_r in Hgt; lia|].
      injection H as -> _. apply Hc. apply in_or_app. right. now left.
    + right. apply app_eq_app_le in H as (m & -> & H); [|lia].
      destruct m as [|d m]; [rewrite app_nil_r in Hax; lia|].
      injection H as _ ->. exists m, b. reflexivity.
Qed.

(** No occurrence of [w] starts inside [a] when [a] is followed by a
    character that [w] holds at most in front. *)
Lemma no_start_inside (w w' a t : text) (h : ascii) :
  w = h :: w' ->
  ~ occurs w a ->
  (forall c t', t = c :: t' -> ~ In c w') ->
  forall a1 a2 y, a = a1 ++ a2 -> a2 <> [] -> a2 ++ t <> w ++ y.
Proof.
  intros Hw Hocc Ht a1 a2 y -> Ha2 H.
  destruct (Nat.le_gt_cases (length w) (length a2)) as [Hle|Hgt].
  - symmetry in H. apply app_eq_app_le in H as (m & -> & _); [|exact Hle].
    apply Hocc. exists a1, m. reflexivity.
  - apply app_eq_app_le in H as (m & Hm & Hty); [|lia].
    destruct m as [|c m]; [rewrite Hm, app_nil_r in Hgt; lia|].
    simpl in Hty. apply (Ht c (m ++ y) Hty).
    destruct a2 as [|d a2]; [congruence|]. rewrite Hw in Hm.
    injection Hm as _ ->. apply in_or_app. right. now left.
Qed.

Lemma begin_first_occurrence (identifier a rest : text) :
  plain_identifier identifier ->
  ~ occurs (begin_marker identifier) a ->
  forall x y,
    a ++ begin_marker identifier ++ rest = x ++ begin_marker identifier ++ y ->
    length a <= length x.
Proof.
  intros Hp Hocc x y H.
  destruct (Nat.le_gt_cases (length a) (length x)) as [|Hgt]; [assumption|].
  exfalso. symmetry in H. apply app_eq_app_le in H as (a2 & -> & H); [|lia].
  apply (no_start_inside _ _ _ (begin_marker identifier ++ rest) hash
           (begin_marker_cons identifier) Hocc) with (a1 := x) (a2 := a2)
           (y := y); [|reflexivity| |now symmetry].
  - intros c t' Hc. rewrite begin_marker_cons in Hc. injection Hc as <- _.
    now apply hash_not_in_begin.
  - intros ->. rewrite app_nil_r in Hgt. lia.
Qed.

(** The end marker that [add_entry_to_config] writes is the last one of
    the file, whatever the entry holds. *)
Lemma end_last_occurrence (identifier P : text) :
  forall x y,
    P ++ end_marker identifier ++ [newline] = x ++ end_marker identifier ++ y ->
    length x <= length P.
Proof.
  intros x y H.
  destruct (Nat.le_gt_cases (length x) (length P)) as [|Hgt]; [assumption|].
  exfalso. apply app_eq_app_le in H as (x2 & -> & H); [|lia].
  pose proof (f_equal (@length ascii) H) as Hlen.
  repeat rewrite length_app in Hlen. rewrite length_app in Hgt.
  destruct x2 as [|c x2]; cbn [length] in *; [lia|].
  destruct x2 as [|d x2]; cbn [length] in *; [|lia].
  destruct y; cbn [length] in *; [|lia]. rewrite app_nil_r in H.
  rewrite end_marker_snoc in H. rewrite (app_assoc [c]) in H.
  apply app_inj_tail in H as [_ H]. discriminate H.
Qed.

Lemma begin_marker_not_nil (identifier : text) : begin_marker identifier <> [].
Proof. rewrite begin_marker_cons. discriminate. Qed.

(** A file without a begin marker is left as it is. *)
Lemma removed_content_no_begin (identifier content : text) :
  ~ occurs (begin_marker identifier) content ->
  removed_content identifier content = content.
Proof.
  intros H. apply removed_content_same. intros a m b _ ->. apply H.
  eexists _, _. reflexivity.
Qed.

(** Removing what [add_entry_to_config] appended leaves the newline that
    was written behind the end marker. *)
Lemma removed_added_block (entry identifier content : text) :
  plain_identifier identifier ->
  ~ occurs (begin_marker identifier) content ->
  removed_content identifier (content ++ entry_block entry identifier)
  = content ++ [newline].
Proof.
  intros Hp Hocc. unfold entry_block.
  replace (content ++ begin_marker identifier ++ [newline] ++ entry ++ [newline]
             ++ end_marker identifier ++ [newline])
    with (content ++ begin_marker identifier ++ (newline :: entry ++ [newline])
            ++ end_marker identifier ++ [newline])
    by (simpl; now repeat rewrite <- app_assoc).
  apply removed_content_cut.
  - discriminate.
  - apply begin_first_occurrence; assumption.
  - intros x y H. apply (end_last_occurrence identifier _ x y).
    rewrite <- H. now repeat rewrite <- app_assoc.
Qed.

(** ** Markers and entries as a read gives them *)

Lemma cr_not_in_begin (identifier : text) :
  plain_identifier identifier -> ~ In carriage_return (begin_marker identifier).
Proof.
  intros Hp H. unfold begin_marker in H.
  apply in_app_or in H as [H|H]; [revert H; not_in_literal|].
  apply in_app_or in H as [H|H]; [|revert H; not_in_literal].
  now apply (plain_not_in _ carriage_return Hp).
Qed.

Lemma cr_not_in_end (identifier : text) :
  plain_identifier identifier -> ~ In carriage_return (end_marker identifier).
Proof.
  intros Hp H. unfold end_marker in H.
  apply in_app_or in H as [H|H]; [revert H; not_in_literal|].
  apply in_app_or in H as [H|H]; [|revert H; not_in_literal].
  now apply (plain_not_in _ carriage_return Hp).
Qed.

Lemma newline_not_in_end (identifier : text) :
  plain_identifier identifier -> ~ In newline (end_marker identifier).
Proof.
  intros Hp H. unfold end_marker in H.
  apply in_app_or in H as [H|H]; [revert H; not_in_literal|].
  apply in_app_or in H as [H|H]; [|revert H; not_in_literal].
  now apply (plain_not_in _ newline Hp).
Qed.

Lemma end_marker_not_nil (identifier : text) : end_marker identifier <> [].
Proof. rewrite end_marker_cons. discriminate. Qed.

(** A begin marker that is read from a file stands in the file. *)
Lemma no_begin_read (identifier content : text) :
  plain_identifier identifier ->
  ~ occurs (begin_marker identifier) content ->
  ~ occurs (begin_marker identifier) (universal_newlines content).
Proof.
  intros Hp H Hocc. apply H.
  apply occurs_universal_newlines;
    [apply begin_marker_not_nil | now apply cr_not_in_begin
     | now apply newline_not_in_begin | exact Hocc].
Qed.

(** A complete span that is read from a file stands in the file. *)
Lemma complete_span_read (identifier content : text) :
  plain_identifier identifier ->
  complete_span identifier (universal_newlines content) ->
  complete_span identifier content.
Proof.
  intros Hp (a & m & b & H).
  destruct (translate_newlines_occurrence false content a (begin_marker identifier)
              (m ++ end_marker identifier ++ b))
    as (a' & y' & -> & Hy');
    [apply begin_marker_not_nil | now apply cr_not_in_begin
     | now apply newline_not_in_begin | exact H |].
  destruct (translate_newlines_occurrence false y' m (end_marker identifier) b)
    as (m' & b' & -> & _);
    [apply end_marker_not_nil | now apply cr_not_in_end
     | now apply newline_not_in_end | exact Hy' |].
  now exists a', m', b'.
Qed.

Lemma translate_newlines_app (pending : bool) (a s : text) :
  translate_newlines pending (a ++ s)
  = translate_newlines pending a ++ translate_newlines (pending_after pending a) s.
Proof.
  revert pending. induction a as [|c a IH]; intros pending; [reflexivity|].
  cbn [app translate_newlines pending_after].
  destruct (Ascii.eqb c carriage_return).
  - now rewrite IH.
  - destruct (Ascii.eqb c newline); [destruct pending|]; now rewrite IH.
Qed.

Lemma pending_after_app (pending : bool) (a b : text) :
  pending_after pending (a ++ b) = pending_after (pending_after pending a) b.
Proof. revert pending. induction a as [|c a IH]; intros pending; [reflexivity | apply IH]. Qed.

Lemma pending_after_true (e : text) :
  pending_after false e = true -> exists e0, e = e0 ++ [carriage_return].
Proof.
  destruct e as [|c e] using rev_ind; [discriminate|].
  rewrite pending_after_app. cbn [pending_after].
  destruct (Ascii.eqb_spec c carriage_return) as [->|_]; [|discriminate].
  intros _. now exists e.
Qed.

(** The text in front of a newline, as it is read: a carriage return at
    its end is read as one line end together with the newline. *)
Lemma read_before_newline (e t : text) :
  exists e',
    universal_newlines (e ++ newline :: t) = e' ++ newline :: universal_newlines t
    /\ forall w, w <> [] -> ~ In carriage_return w -> ~ In newline w ->
                 occurs w e' -> occurs w e.
Proof.
  unfold universal_newlines. destruct (pending_after false e) eqn:Hp.
  - destruct (pending_after_true e Hp) as (e0 & ->).
    exists (translate_newlines false e0). split.
    + rewrite <- app_assoc. cbn [app]. rewrite translate_newlines_app.
      cbn [translate_newlines]. rewrite Ascii.eqb_refl.
      change (Ascii.eqb newline carriage_return) with false.
      cbn [translate_newlines]. rewrite Ascii.eqb_refl.
      change (Ascii.eqb newline carriage_return) with false. reflexivity.
    + intros w Hw Hcr Hnl Hocc. apply occurs_app_l.
      now apply occurs_universal_newlines.
  - exists (translate_newlines false e). split.
    + rewrite translate_newlines_app, Hp. cbn [translate_newlines].
      rewrite Ascii.eqb_refl.
      change (Ascii.eqb newline carriage_return) with false. reflexivity.
    + intros w Hw Hcr Hnl Hocc. now apply occurs_universal_newlines.
Qed.

(** An entry as [add_entry_to_config] wrote it is read as an entry. *)
Lemma read_entry_block (entry identifier : text) :
  plain_identifier identifier ->
  exists entry',
    universal_newlines (entry_block entry identifier) = entry_block entry' identifier
    /\ (~ occurs (begin_marker identifier) entry ->
        ~ occurs (begin_marker identifier) entry').
Proof.
  intros Hp.
  destruct (read_before_newline entry (end_marker identifier ++ [newline]))
    as (entry' & Hread & Hocc).
  exists entry'. split.
  - unfold entry_block.
    rewrite universal_newlines_app by now apply cr_not_in_begin.
    rewrite (universal_newlines_app [newline]) by not_in_literal.
    cbn [app] in *. rewrite Hread.
    rewrite (universal_newlines_same (end_marker identifier ++ [newline])); [reflexivity|].
    intros H. apply in_app_or in H as [H|H]; [now apply (cr_not_in_end _ Hp)|].
    revert H. not_in_literal.
  - intros H H'. apply H.
    apply Hocc;
      [apply begin_marker_not_nil | now apply cr_not_in_begin
       | now apply newline_not_in_begin | exact H'].
Qed.

(** A substitution with the empty replacement holds no character that the
    text did not hold. *)
Lemma match_here_suffix (p : regex) (s r : text) :
  match_here p s = Some r -> exists m, s = m ++ r.
Proof.
  revert s. induction p as [|[a q] p IH]; intros s H; cbn [match_here] in H.
  - injection H as ->. now exists [].
  - destruct q.
    + destruct s as [|c s]; [discriminate|].
      destruct (atom_ok a c); [|discriminate].
      destruct (IH _ H) as (m & ->). now exists (c :: m).
    + apply match_star_inv in H as (u & v & -> & _ & H).
      destruct (IH _ H) as (m & ->). exists (u ++ m). now rewrite <- app_assoc.
    + destruct s as [|c s]; [discriminate|].
      destruct (atom_ok a c); [|discriminate].
      apply match_star_inv in H as (u & v & -> & _ & H).
      destruct (IH _ H) as (m & ->). exists (c :: u ++ m).
      cbn [app]. now rewrite <- app_assoc.
Qed.

Lemma sub_loop_nil_In (fuel : nat) (p : regex) (s : text) (x : ascii) :
  In x (sub_loop fuel p [] s) -> In x s.
Proof.
  revert s. induction fuel as [|fuel IH]; intros s; [trivial|]. cbn [sub_loop].
  destruct (match_here p s) as [r|] eqn:Hm.
  - destruct (match_here_suffix _ _ _ Hm) as (m & ->).
    rewrite expand_template_nil. cbn [app].
    destruct (length r <? length (m ++ r))%nat.
    + intros H. apply in_or_app. right. now apply IH.
    + destruct (m ++ r) as [|c s']; [trivial|].
      intros [H|H]; [now left | right; now apply IH].
  - destruct s as [|c s]; [trivial|].
    intros [H|H]; [now left | right; now apply IH].
Qed.

Lemma removed_content_no_cr (identifier content : text) :
  ~ In carriage_return content ->
  ~ In carriage_return (removed_content identifier content).
Proof. intros H Hin. apply H. revert Hin. apply sub_loop_nil_In. Qed.

(** What a removal has written is read back as it was written. *)
Lemma read_removed (identifier content : text) :
  universal_newlines (removed_content identifier (universal_newlines content))
  = removed_content identifier (universal_newlines content).
Proof.
  apply universal_newlines_same, removed_content_no_cr, universal_newlines_no_cr.
Qed.

(** ** Adding and removing an entry *)

(** A file without a begin marker, after an entry was added and removed,
    is the text of the file with a newline behind it. *)
Lemma add_then_remove (entry : text) (filepath : string) (identifier content : text)
      (w : World) :
  plain_identifier identifier ->
  files w !! filepath = Some content ->
  occursb (begin_marker identifier) content = false ->
  exists w1 w2,
    add_entry_to_config entry filepath identifier w = (Ok tt, w1)
    /\ remove_entry_from_config filepath identifier w1 = (Ok tt, w2)
    /\ files w2 !! filepath = Some (universal_newlines content ++ [newline]).
Proof.
  intros Hp Hf Hb.
  assert (~ occurs (begin_marker identifier) (universal_newlines content)) as Hocc.
  { apply no_begin_read; [exact Hp|]. rewrite <- occursb_spec, Hb. discriminate. }
  destruct (read_entry_block entry identifier Hp) as (entry' & Hread & _).
  eexists _, _. split; [apply add_entry_run, Hf|].
  split; [apply remove_entry_run; cbn [files]; apply lookup_insert_eq|].
  cbn [files]. rewrite lookup_insert_eq. f_equal.
  rewrite (removed_content_no_begin _ _ Hocc).
  rewrite universal_newlines_app by apply universal_newlines_no_cr.
  rewrite Hread. now apply removed_added_block.
Qed.

(** C1, on the code.  The round trip is not the identity: with the DHCP
    client configuration holding one line, adding the static address
    entry and removing it again leaves an empty line behind, the newline
    that [add_entry_to_config] writes after the end marker and that the
    pattern of [remove_entry_from_config] does not take. *)
Theorem round_trip_leaves_newline :
  let before := lit "hostname" ++ [newline] in
  let entry := dhcpcd_conf_entry (init (lit "wlan0")) in
  exists w1 w2,
    add_entry_to_config entry DHCPCD_CONF rpiwifi (dhcpcd_with before) = (Ok tt, w1)
    /\ remove_entry_from_config DHCPCD_CONF rpiwifi w1 = (Ok tt, w2)
    /\ files w2 !! DHCPCD_CONF = Some (before ++ [newline])
    /\ files w2 !! DHCPCD_CONF <> Some before.
Proof.
  intros before entry.
  destruct (add_then_remove entry DHCPCD_CONF rpiwifi before (dhcpcd_with before))
    as (w1 & w2 & H1 & H2 & H3); [reflexivity | reflexivity | reflexivity |].
  exists w1, w2. repeat split; [exact H1 | exact H2 | exact H3 |].
  rewrite H3. discriminate.
Qed.


(** C2, on the code.  Adding the same entry twice leaves one delimited
    entry, but not the file that adding it once gives: the second call
    removes the first entry up to its end marker and keeps the newline
    behind it, so the entry now stands one empty line further down. *)
Theorem second_add_inserts_newline :
  let before := lit "hostname" ++ [newline] in
  let entry := dhcpcd_conf_entry (init (lit "wlan0")) in
  exists w1 w2 once twice,
    add_entry_to_config entry DHCPCD_CONF rpiwifi (dhcpcd_with before) = (Ok tt, w1)
    /\ add_entry_to_config entry DHCPCD_CONF rpiwifi w1 = (Ok tt, w2)
    /\ files w1 !! DHCPCD_CONF = Some once
    /\ files w2 !! DHCPCD_CONF = Some twice
    /\ once = before ++ entry_block entry rpiwifi
    /\ twice = before ++ [newline] ++ entry_block entry rpiwifi
    /\ count_entries rpiwifi twice = 1
    /\ twice <> once.
Proof.
  intros before entry.
  eexists _, _, _, _.
  split; [apply add_entry_run; reflexivity|].
  split; [apply add_entry_run; cbn [files]; apply lookup_insert_eq|].
  split; [cbn [files]; apply lookup_insert_eq|].
  split; [cbn [files]; apply lookup_insert_eq|].
  split; [vm_compute; reflexivity|].
  split; [vm_compute; reflexivity|].
  split; [vm_compute; reflexivity|].
  vm_compute. discriminate.
Qed.

(** ** Which span a removal takes *)

(** C3, as stated, fails.  On a file with two entries the removal takes
    the text between them too, where cutting the shortest spans would
    keep it. *)
Lemma removal_takes_text_between_blocks :
  exists w',
    remove_entry_from_config DHCPCD_CONF rpiwifi (dhcpcd_with two_blocks) = (Ok tt, w')
    /\ files w' !! DHCPCD_CONF = Some (lit "az")
    /\ removed_content_non_greedy rpiwifi two_blocks = lit "amidz"
    /\ files w' !! DHCPCD_CONF <> Some (removed_content_non_greedy rpiwifi two_blocks).
Proof.
  eexists. split; [apply remove_entry_run; reflexivity|].
  cbn [files]. rewrite lookup_insert_eq.
  split; [vm_compute; reflexivity|].
  split; [vm_compute; reflexivity|].
  vm_compute. discriminate.
Qed.

(** C3, amended.  For an identifier of letters, digits and underscores:
    when, in the text that is read from the file (its line ends read as
    newlines), the first begin marker ends at least one character before
    the last end marker starts, the removal cuts exactly the span from
    that first begin marker to that last end marker (the match is
    greedy), with whatever lies between, other markers and the text
    between two entries included; what is written back is the rest of the
    text that was read. *)
Theorem removal_cuts_first_begin_to_last_end
        (filepath : string) (identifier content : text) (i j : nat) (w : World) :
  let read := universal_newlines content in
  plain_identifier identifier ->
  files w !! filepath = Some content ->
  find (begin_marker identifier) read = Some i ->
  rfind (end_marker identifier) read = Some j ->
  i + length (begin_marker identifier) < j ->
  exists w',
    remove_entry_from_config filepath identifier w = (Ok tt, w')
    /\ files w' !! filepath
       = Some (take i read ++ drop (j + length (end_marker identifier)) read).
Proof.
  intros read _ Hf F R Hij. eexists. split; [apply remove_entry_run, Hf|].
  cbn [files]. rewrite lookup_insert_eq. f_equal.
  now apply removed_content_find.
Qed.

Lemma removal_cuts_first_begin_to_last_end_witness :
  let read := universal_newlines two_blocks in
  exists w',
    remove_entry_from_config DHCPCD_CONF rpiwifi (dhcpcd_with two_blocks) = (Ok tt, w')
    /\ files w' !! DHCPCD_CONF
       = Some (take 1 read ++ drop (70 + length (end_marker rpiwifi)) read).
Proof.
  apply (removal_cuts_first_begin_to_last_end DHCPCD_CONF rpiwifi two_blocks 1 70).
  - reflexivity.
  - reflexivity.
  - vm_compute. reflexivity.
  - vm_compute. reflexivity.
  - vm_compute. lia.
Defined.

(** C9, as stated, fails.  A file without any marker whose lines end in
    carriage return and newline is not left as it is: the removal reads
    the line ends as newlines and writes the text back so. *)
Lemma removal_rewrites_line_ends :
  let content := lit "hostname" ++ [carriage_return; newline] in
  ~ complete_span rpiwifi content
  /\ exists w',
       remove_entry_from_config DHCPCD_CONF rpiwifi (dhcpcd_with content) = (Ok tt, w')
       /\ files w' !! DHCPCD_CONF = Some (lit "hostname" ++ [newline])
       /\ files w' !! DHCPCD_CONF <> Some content.
Proof.
  intros content. split.
  - rewrite <- has_span_spec. vm_compute. discriminate.
  - eexists. split; [apply remove_entry_run; reflexivity|].
    cbn [files]. rewrite lookup_insert_eq.
    split; [vm_compute; reflexivity | vm_compute; discriminate].
Qed.

(** C9, amended.  For an identifier of letters, digits and underscores, a
    file without a complete span, be it without any marker or with a
    begin marker that no end marker follows, is written back as it was
    read, its line ends as newlines; a file without carriage return is
    left as it was. *)
Theorem removal_without_span_keeps_text
        (filepath : string) (identifier content : text) (w : World) :
  plain_identifier identifier ->
  files w !! filepath = Some content ->
  ~ complete_span identifier content ->
  exists w',
    remove_entry_from_config filepath identifier w = (Ok tt, w')
    /\ files w' = <[filepath := universal_newlines content]> (files w)
    /\ trace w' = trace w ++ [FileWrite filepath (universal_newlines content)]
    /\ (~ In carriage_return content -> files w' = files w).
Proof.
  intros Hp Hf Hspan.
  assert (removed_content identifier (universal_newlines content)
          = universal_newlines content) as Hsame.
  { apply removed_content_same. intros a m b _ Heq. apply Hspan.
    apply complete_span_read; [exact Hp|]. exists a, m, b. exact Heq. }
  eexists. split; [apply remove_entry_run, Hf|].
  cbn [files trace]. rewrite Hsame. repeat split.
  intros Hcr. rewrite universal_newlines_same by exact Hcr. apply insert_id, Hf.
Qed.

Lemma removal_without_span_keeps_text_witness :
  exists w',
    remove_entry_from_config DHCPCD_CONF rpiwifi (dhcpcd_with unterminated) = (Ok tt, w')
    /\ files w' = <[DHCPCD_CONF := universal_newlines unterminated]>
                    (files (dhcpcd_with unterminated))
    /\ trace w'
       = trace (dhcpcd_with unterminated)
         ++ [FileWrite DHCPCD_CONF (universal_newlines unterminated)]
    /\ (~ In carriage_return unterminated -> files w' = files (dhcpcd_with unterminated)).
Proof.
  apply (removal_without_span_keeps_text DHCPCD_CONF rpiwifi unterminated).
  - reflexivity.
  - reflexivity.
  - rewrite <- has_span_spec. vm_compute. discriminate.
Defined.

(** ** At most one entry *)


Lemma no_begin_snoc_newline (identifier p : text) :
  plain_identifier identifier ->
  ~ occurs (begin_marker identifier) p ->
  ~ occurs (begin_marker identifier) (p ++ [newline]).
Proof.
  intros Hp Hocc H. apply occurs_around in H as [H|H].
  - now apply Hocc.
  - now apply (occurs_nil _ (begin_marker_not_nil identifier)).
  - now apply newline_not_in_begin.
Qed.












(** ** Where the begin marker lands *)

Lemma until_newline_split (s : text) :
  exists rest,
    s = until_newline s ++ rest
    /\ (rest = [] \/ exists q, rest = newline :: q)
    /\ ~ In newline (until_newline s).
Proof.
  induction s as [|c s (rest & Hs & Hrest & Hnl)]; simpl.
  - exists []. auto.
  - destruct (Ascii.eqb c newline) eqn:E.
    + apply Ascii.eqb_eq in E as ->. exists (newline :: s).
      split; [reflexivity|]. split; [right; now exists s | intros []].
    + exists rest. split; [simpl; congruence|]. split; [exact Hrest|].
      intros [->|H]; [|tauto]. rewrite Ascii.eqb_refl in E. discriminate.
Qed.

Lemma last_line_split (s : text) :
  exists before,
    s = before ++ last_line s
    /\ (before = [] \/ exists p, before = p ++ [newline])
    /\ ~ In newline (last_line s).
Proof.
  destruct (until_newline_split (rev s)) as (rest & Hs & Hrest & Hnl).
  exists (rev rest). unfold last_line. split; [|split].
  - rewrite <- rev_app_distr, <- Hs. symmetry. apply rev_involutive.
  - destruct Hrest as [-> | (q & ->)]; [now left|]. right. exists (rev q). reflexivity.
  - intros H. apply Hnl. now apply in_rev.
Qed.

Lemma last_line_nil_iff (s : text) :
  last_line s = [] <-> s = [] \/ exists p, s = p ++ [newline].
Proof.
  unfold last_line. split.
  - intros H. destruct (rev s) as [|c r] eqn:Hr.
    + left. apply (f_equal (@rev ascii)) in Hr. now rewrite rev_involutive in Hr.
    + right. simpl in H. destruct (Ascii.eqb c newline) eqn:E;
        [|simpl in H; apply app_eq_nil in H as [_ H]; discriminate H].
      apply Ascii.eqb_eq in E as ->. exists (rev r).
      apply (f_equal (@rev ascii)) in Hr. now rewrite rev_involutive in Hr.
  - intros [-> | (p & ->)]; [reflexivity|].
    rewrite rev_app_distr. reflexivity.
Qed.

(** C10, as stated, fails.  The file does not end in a newline, yet the
    begin marker that is appended starts a line: the removal took the old
    entry, and what it left ends in a newline. *)
Lemma begin_marker_after_removed_entry :
  last entry_at_end newline <> newline
  /\ exists w',
       add_entry_to_config (lit "interface wlan1") DHCPCD_CONF rpiwifi
         (dhcpcd_with entry_at_end) = (Ok tt, w')
       /\ files w' !! DHCPCD_CONF
          = Some ((lit "hostname" ++ [newline])
                  ++ entry_block (lit "interface wlan1") rpiwifi)
       /\ is_line (lit "hostname" ++ [newline]) (begin_marker rpiwifi)
            (newline :: lit "interface wlan1" ++ [newline]
               ++ end_marker rpiwifi ++ [newline]).
Proof.
  split; [vm_compute; discriminate|].
  eexists. split; [apply add_entry_run; reflexivity|].
  split; [cbn [files]; rewrite lookup_insert_eq; f_equal; vm_compute; reflexivity|].
  split; [|split].
  - apply newline_not_in_begin. reflexivity.
  - right. exists (lit "hostname"). reflexivity.
  - right. eexists. reflexivity.
Qed.

(** C10, amended.  For an identifier of letters, digits and underscores:
    the block is appended, with nothing in front of it, to what the
    removal of the previous entry has left of the text that was read from
    the file (its line ends read as newlines), which is that text itself
    when the file holds no complete span.  The begin marker continues the
    last line of that prior text, so it starts a line exactly when the
    prior text is empty or ends in a newline. *)
Theorem begin_marker_joins_last_line
        (entry : text) (filepath : string) (identifier content : text) (w : World) :
  plain_identifier identifier ->
  files w !! filepath = Some content ->
  let prior := removed_content identifier (universal_newlines content) in
  let rest := newline :: entry ++ [newline] ++ end_marker identifier ++ [newline] in
  exists w' before,
    add_entry_to_config entry filepath identifier w = (Ok tt, w')
    /\ prior = before ++ last_line prior
    /\ files w' !! filepath
       = Some (before ++ (last_line prior ++ begin_marker identifier) ++ rest)
    /\ is_line before (last_line prior ++ begin_marker identifier) rest
    /\ (last_line prior = [] <-> prior = [] \/ exists p, prior = p ++ [newline])
    /\ (~ complete_span identifier content -> prior = universal_newlines content).
Proof.
  intros Hp Hf prior rest.
  destruct (last_line_split prior) as (before & Hprior & Hbefore & Hnl).
  eexists _, before. split; [apply add_entry_run, Hf|].
  split; [exact Hprior|]. split; [|split; [|split]].
  - cbn [files]. rewrite lookup_insert_eq. f_equal.
    fold prior. rewrite Hprior at 1. unfold entry_block, rest.
    repeat rewrite <- app_assoc. reflexivity.
  - split; [|split; [exact Hbefore|]].
    + intros H. apply in_app_or in H as [H|H]; [now apply Hnl|].
      now apply (newline_not_in_begin _ Hp).
    + right. eexists. reflexivity.
  - apply last_line_nil_iff.
  - intros Hspan. apply removed_content_same. intros a m b _ Heq. apply Hspan.
    apply complete_span_read; [exact Hp|]. exists a, m, b. exact Heq.
Qed.

Lemma begin_marker_joins_last_line_witness :
  let prior := removed_content rpiwifi (universal_newlines (lit "hostname")) in
  let rest :=
    newline :: lit "interface wlan0" ++ [newline] ++ end_marker rpiwifi ++ [newline] in
  exists w' before,
    add_entry_to_config (lit "interface wlan0") DHCPCD_CONF rpiwifi
      (dhcpcd_with (lit "hostname")) = (Ok tt, w')
    /\ prior = before ++ last_line prior
    /\ files w' !! DHCPCD_CONF
       = Some (before ++ (last_line prior ++ begin_marker rpiwifi) ++ rest)
    /\ is_line before (last_line prior ++ begin_marker rpiwifi) rest
    /\ (last_line prior = [] <-> prior = [] \/ exists p, prior = p ++ [newline])
    /\ (~ complete_span rpiwifi (lit "hostname") ->
        prior = universal_newlines (lit "hostname")).
Proof.
  apply (begin_marker_joins_last_line (lit "interface wlan0") DHCPCD_CONF rpiwifi
           (lit "hostname")).
  - reflexivity.
  - reflexivity.
Defined.

(** ** The mode controller *)

(** C6.  Without a password, missing or empty, [set_cli_mode] returns
    [False]; it prints its warning and does nothing else: no process is
    invoked, no file is written, the files are as they were. *)
Theorem set_cli_mode_without_password
        (env : Env) (self : WifiController) (ssid password : option text) (w : World) :
  password = None \/ password = Some [] ->
  exists w',
    set_cli_mode env self ssid password w = (Ok false, w')
    /\ files w' = files w
    /\ trace w' = trace w ++ [Printed warning].
Proof.
  intros [-> | ->]; eexists; (split; [reflexivity|]); split; reflexivity.
Qed.

Lemma set_cli_mode_without_password_witness :
  exists w',
    set_cli_mode (quiet_env []) (init (lit "wlan0")) (Some (lit "x")) None empty_world
    = (Ok false, w')
    /\ files w' = files empty_world
    /\ trace w' = trace empty_world ++ [Printed warning].
Proof.
  apply (set_cli_mode_without_password (quiet_env []) (init (lit "wlan0"))
           (Some (lit "x")) None empty_world).
  left. reflexivity.
Defined.

(** C8.  [get_mode] asks whether the access point daemon is active and
    returns [AP_MODE] exactly when the query exits with status 0, and
    [CLI_MODE] for every other status; it returns nothing else. *)
Theorem get_mode_two_states (env : Env) (self : WifiController) (w : World) :
  let status := exit_status env (trace w) is_active_query in
  exists mode,
    get_mode env self w = (Ok mode, log (Exec is_active_query) w)
    /\ (mode = AP_MODE <-> status = 0%Z)
    /\ (mode = CLI_MODE <-> status <> 0%Z)
    /\ (mode = AP_MODE \/ mode = CLI_MODE).
Proof.
  intros status. unfold get_mode, mbind, M_bind, bind, call. fold is_active_query.
  fold status. destruct (Z.eqb_spec status 0) as [H0|H0].
  - exists AP_MODE. repeat split; auto; try discriminate. intros H. now destruct H.
  - exists CLI_MODE. repeat split; auto; try discriminate. intros H. now destruct H0.
Qed.

(** ** The scanner *)

Lemma last_with_ssid_snoc (name : text) (cells : list Cell) (cell : Cell) :
  last_with_ssid name (cells ++ [cell])
  = if decide (ssid cell = name) then Some cell else last_with_ssid name cells.
Proof.
  induction cells as [|c cells IH]; simpl.
  - reflexivity.
  - rewrite IH. destruct (decide (ssid cell = name)); reflexivity.
Qed.

Lemma dict_set_key_in {V : Type} (k0 k : text) (v0 : V) (d : list (text * V)) :
  In k (map fst (dict_set k0 v0 d)) <-> k = k0 \/ In k (map fst d).
Proof.
  induction d as [|[k1 v1] d IH]; simpl.
  - intuition.
  - destruct (decide (k1 = k0)) as [->|Hne]; simpl; [intuition|].
    rewrite IH. intuition.
Qed.

Lemma dict_set_NoDup {V : Type} (k0 : text) (v0 : V) (d : list (text * V)) :
  List.NoDup (map fst d) -> List.NoDup (map fst (dict_set k0 v0 d)).
Proof.
  induction d as [|[k1 v1] d IH]; simpl; intros Hnd.
  - constructor; [intros [] | constructor].
  - inversion Hnd as [|? ? Hk1 Hd]; subst.
    destruct (decide (k1 = k0)) as [->|Hne]; simpl.
    + constructor; assumption.
    + constructor; [|now apply IH].
      rewrite dict_set_key_in. intros [->|H]; [congruence | contradiction].
Qed.

Lemma dict_set_in {V : Type} (k0 k : text) (v0 v : V) (d : list (text * V)) :
  List.NoDup (map fst d) ->
  In (k, v) (dict_set k0 v0 d)
  <-> (k = k0 /\ v = v0) \/ (k <> k0 /\ In (k, v) d).
Proof.
  induction d as [|[k1 v1] d IH]; simpl; intros Hnd.
  - split.
    + intros [[= <- <-]|[]]. now left.
    + intros [[-> ->]|[_ []]]. now left.
  - inversion Hnd as [|? ? Hk1 Hd]; subst.
    destruct (decide (k1 = k0)) as [->|Hne]; simpl.
    + split.
      * intros [[= <- <-]|H]; [now left|]. right. split; [|now right].
        intros ->. apply Hk1. apply (in_map fst) in H. exact H.
      * intros [[-> ->]|[Hk [[= -> ->]|H]]]; [now left | congruence | now right].
    + rewrite (IH Hd). split.
      * intros [[= -> ->]|[H|[Hk H]]]; [right; split; [congruence | now left] | now left |].
        right. split; [exact Hk | now right].
      * intros [H|[Hk [H|H]]]; [right; now left | now left | right; right; auto].
Qed.

(** The dictionary of a scan has every name once, with the last cell of
    that name. *)
Lemma cells_by_ssid_spec (cells : list Cell) :
  List.NoDup (map fst (cells_by_ssid cells))
  /\ forall k v, In (k, v) (cells_by_ssid cells) <-> last_with_ssid k cells = Some v.
Proof.
  induction cells as [|cell cells [Hnd Hin]] using rev_ind.
  - split; [constructor|]. intros k v. simpl. split; [intros [] | discriminate].
  - unfold cells_by_ssid in *. rewrite fold_left_app. cbn [fold_left].
    split; [now apply dict_set_NoDup|].
    intros k v. rewrite (dict_set_in _ _ _ _ _ Hnd), last_with_ssid_snoc, Hin.
    destruct (decide (ssid cell = k)) as [<-|Hne].
    + split; [intros [[_ ->]|[H _]]; congruence | intros [= ->]; now left].
    + split; [intros [[-> _]|[_ H]]; congruence | intros H; right; auto].
Qed.

Lemma last_with_ssid_name (name : text) (cells : list Cell) (cell : Cell) :
  last_with_ssid name cells = Some cell -> ssid cell = name.
Proof.
  induction cells as [|c cells IH]; simpl; [discriminate|].
  destruct (last_with_ssid name cells); [intros [= ->]; now apply IH|].
  destruct (decide (ssid c = name)); [intros [= <-]; assumption | discriminate].
Qed.

(** The order of [str] is strict. *)
Lemma str_lt_irrefl (a : text) : str_lt a a = false.
Proof.
  induction a as [|c a IH]; [reflexivity|]. cbn [str_lt].
  now rewrite Nat.ltb_irrefl, Ascii.eqb_refl, IH.
Qed.

Lemma str_lt_asym (a b : text) : str_lt a b = true -> str_lt b a = false.
Proof.
  revert b. induction a as [|c a IH]; intros [|d b]; cbn [str_lt]; try discriminate;
    [reflexivity|].
  intros H. apply orb_true_iff in H as [H|H].
  - apply Nat.ltb_lt in H.
    assert ((code d <? code c)%nat = false) as -> by (apply Nat.ltb_ge; lia).
    destruct (Ascii.eqb_spec d c) as [->|_]; [lia | reflexivity].
  - apply andb_true_iff in H as [Hcd H]. apply Ascii.eqb_eq in Hcd as ->.
    now rewrite Nat.ltb_irrefl, Ascii.eqb_refl, (IH _ H).
Qed.

Lemma insert_by_quality_perm (x : Cell) (l : list Cell) :
  Permutation (insert_by_quality x l) (x :: l).
Proof.
  induction l as [|y l IH]; cbn [insert_by_quality]; [reflexivity|].
  destruct (str_lt (quality x) (quality y)); [|reflexivity].
  rewrite IH. apply perm_swap.
Qed.

Lemma sort_by_quality_desc_perm (l : list Cell) :
  Permutation (sort_by_quality_desc l) l.
Proof.
  induction l as [|x l IH]; cbn [sort_by_quality_desc fold_right]; [reflexivity|].
  rewrite insert_by_quality_perm. now constructor.
Qed.

Lemma insert_by_quality_HdRel (y x : Cell) (l : list Cell) :
  quality_ge y x -> HdRel quality_ge y l -> HdRel quality_ge y (insert_by_quality x l).
Proof.
  intros Hyx Hl. destruct l as [|z l]; cbn [insert_by_quality]; [now constructor|].
  destruct (str_lt (quality x) (quality z)); constructor; [|exact Hyx].
  now inversion Hl.
Qed.

Lemma insert_by_quality_sorted (x : Cell) (l : list Cell) :
  Sorted quality_ge l -> Sorted quality_ge (insert_by_quality x l).
Proof.
  induction l as [|y l IH]; cbn [insert_by_quality]; intros Hs.
  - repeat constructor.
  - inversion Hs as [|? ? Hl Hy]; subst.
    destruct (str_lt (quality x) (quality y)) eqn:Hxy.
    + constructor; [now apply IH|].
      apply insert_by_quality_HdRel; [now apply str_lt_asym | exact Hy].
    + constructor; [exact Hs|]. constructor. exact Hxy.
Qed.

Lemma sort_by_quality_desc_sorted (l : list Cell) :
  Sorted quality_ge (sort_by_quality_desc l).
Proof.
  induction l as [|x l IH]; cbn [sort_by_quality_desc fold_right];
    [constructor | now apply insert_by_quality_sorted].
Qed.

(** C5, on the code.  The qualities that the scanning library gives are
    texts such as 9/70, and the sort compares them as texts: of a cell
    with 50 of 70 and a cell with 9 of 70 the weaker one comes first,
    because the character 9 is greater than the character 5. *)
Theorem list_available_wifis_weaker_first :
  let near := {| ssid := lit "near"; quality := lit "50/70" |} in
  let far := {| ssid := lit "far"; quality := lit "9/70" |} in
  quality_level (quality far) < quality_level (quality near)
  /\ str_lt (quality near) (quality far) = true
  /\ list_available_wifis (quiet_env [near; far]) (init (lit "wlan0")) empty_world
     = (Ok [far; near], log (Scan (lit "wlan0")) empty_world).
Proof.
  intros near far. split; [vm_compute; lia|]. split; reflexivity.
Qed.

(** X26.  From the cells of the scan, [list_available_wifis] returns one
    cell for every network name, namely the last cell scanned with that
    name, in descending order of the quality texts as [str] orders them;
    for the cells A with 3/70, B with 5/70, A with 7/70 it returns A with
    7/70, B with 5/70. *)
Theorem list_available_wifis_dedup_by_name
        (env : Env) (self : WifiController) (w w' : World) (cells : list Cell) :
  scan_loop env 3 self w = (Ok cells, w') ->
  exists result,
    list_available_wifis env self w = (Ok result, w')
    /\ List.NoDup (map ssid result)
    /\ (forall cell, In cell result <-> last_with_ssid (ssid cell) cells = Some cell)
    /\ Sorted quality_ge result
    /\ (cells = [cell_A3; cell_B5; cell_A7] -> result = [cell_A7; cell_B5]).
Proof.
  intros Hscan. exists (sort_by_quality_desc (values (cells_by_ssid cells))).
  destruct (cells_by_ssid_spec cells) as [Hnd Hin].
  assert (forall cell, In cell (values (cells_by_ssid cells))
                       <-> last_with_ssid (ssid cell) cells = Some cell) as Hval.
  { intros cell. unfold values. rewrite in_map_iff. split.
    - intros ([k v] & <- & H). simpl. apply Hin in H.
      now rewrite (last_with_ssid_name _ _ _ H).
    - intros H. exists (ssid cell, cell). split; [reflexivity | now apply Hin]. }
  assert (map ssid (values (cells_by_ssid cells)) = map fst (cells_by_ssid cells))
    as Hkeys.
  { unfold values. rewrite map_map. apply map_ext_in. intros [k v] H. simpl.
    apply Hin in H. now apply last_with_ssid_name in H. }
  split; [|split; [|split; [|split]]].
  - unfold list_available_wifis, mbind, M_bind, bind. now rewrite Hscan.
  - eapply Permutation_NoDup; [|rewrite <- Hkeys in Hnd; exact Hnd].
    apply Permutation_map. symmetry. apply sort_by_quality_desc_perm.
  - intros cell. rewrite <- Hval. split; apply Permutation_in;
      [|symmetry]; apply sort_by_quality_desc_perm.
  - apply sort_by_quality_desc_sorted.
  - intros ->. reflexivity.
Qed.

Lemma list_available_wifis_dedup_by_name_witness :
  exists result,
    list_available_wifis (quiet_env [cell_A3; cell_B5; cell_A7]) (init (lit "wlan0"))
      empty_world
    = (Ok result, log (Scan (lit "wlan0")) empty_world)
    /\ List.NoDup (map ssid result)
    /\ (forall cell,
          In cell result
          <-> last_with_ssid (ssid cell) [cell_A3; cell_B5; cell_A7] = Some cell)
    /\ Sorted quality_ge result
    /\ ([cell_A3; cell_B5; cell_A7] = [cell_A3; cell_B5; cell_A7] ->
        result = [cell_A7; cell_B5]).
Proof.
  apply (list_available_wifis_dedup_by_name
           (quiet_env [cell_A3; cell_B5; cell_A7]) (init (lit "wlan0")) empty_world).
  reflexivity.
Defined.

(** ** The line with the plain text password *)

Lemma psk_match_inv (s r : text) :
  match_here psk_comment_pattern s = Some r ->
  exists tabs rest,
    s = tabs ++ psk_open ++ rest /\ forallb (Ascii.eqb tab) tabs = true.
Proof.
  unfold psk_comment_pattern. cbn [app match_here]. intros H.
  apply match_star_inv in H as (u & v & -> & Hu & H).
  apply match_literal_inv in H as (s' & -> & _).
  exists u, s'. auto.
Qed.

Lemma psk_match (tabs password r : text) :
  forallb (Ascii.eqb tab) tabs = true ->
  password <> [] ->
  ~ In newline password -> ~ In dquote password ->
  match_here psk_comment_pattern (psk_comment_line tabs password ++ r) = Some r.
Proof.
  intros Htabs Hpw Hnl Hdq. unfold psk_comment_pattern, psk_comment_line.
  cbn [app match_here]. repeat rewrite <- app_assoc.
  apply match_star_greedy; [exact Htabs | |].
  - rewrite match_literal_app. cbn [app match_here].
    destruct password as [|c password]; [congruence|]. cbn [app].
    assert (forall l, ~ In newline l -> ~ In dquote l ->
              forallb (atom_ok (NoneOf [newline; dquote])) l = true) as Hok.
    { intros l H1 H2. apply forallb_forall. intros x Hx. simpl.
      destruct (Ascii.eqb_spec x newline) as [->|_]; [contradiction|].
      destruct (Ascii.eqb_spec x dquote) as [->|_]; [contradiction | reflexivity]. }
    pose proof (Hok (c :: password) Hnl Hdq) as Hall. cbn [forallb] in Hall.
    apply andb_true_iff in Hall as [Hc Hrest]. rewrite Hc.
    apply match_star_greedy; [exact Hrest | |].
    + rewrite <- (app_nil_r (literal _)).
      change (dquote :: newline :: r) with ([dquote; newline] ++ r).
      now rewrite match_literal_app.
    + intros v1 v2 Hv Hv1 Hall. exfalso.
      destruct v1 as [|d v1]; [congruence|]. injection Hv as <- _.
      simpl in Hall. discriminate Hall.
  - intros v1 v2 Hv Hv1 Hall. exfalso.
    destruct v1 as [|d v1]; [congruence|]. injection Hv as <- _.
    simpl in Hall. discriminate Hall.
Qed.

(** An occurrence of [w] that starts in front of a character that [w]
    does not hold also ends in front of it. *)
Lemma ends_before (w a b x y : text) (c : ascii) :
  ~ In c w ->
  a ++ w ++ b = x ++ c :: y ->
  length a <= length x ->
  exists m, x = a ++ w ++ m.
Proof.
  intros Hc H Hlen. apply app_eq_app_le in H as (m0 & -> & H); [|exact Hlen].
  destruct (Nat.le_gt_cases (length w) (length m0)) as [Hle|Hgt].
  - apply app_eq_app_le in H as (m & -> & _); [|exact Hle]. now exists m.
  - exfalso. symmetry in H. apply app_eq_app_le in H as (k & -> & H); [|lia].
    destruct k as [|d k]; [rewrite app_nil_r in Hgt; lia|].
    injection H as -> _. apply Hc. apply in_or_app. right. now left.
Qed.

Lemma newline_not_in_psk_open : ~ In newline psk_open.
Proof. not_in_literal. Qed.

(** The substitution of [set_cli_mode] on an output in which the line with
    the password starts a line and is the only place where [#psk=] and a
    double quote stand: that line goes, the rest stays. *)
Lemma scrub_psk_comment (pre tabs password post : text) :
  forallb (Ascii.eqb tab) tabs = true ->
  password <> [] ->
  ~ In newline password -> ~ In dquote password ->
  (pre = [] \/ exists p, pre = p ++ [newline]) ->
  ~ occurs psk_open pre ->
  ~ occurs psk_open post ->
  re_sub psk_comment_pattern []
         (pre ++ psk_comment_line tabs password ++ post)
  = pre ++ post.
Proof.
  intros Htabs Hpw Hnl Hdq Hpre Hopre Hopost.
  rewrite (re_sub_first_match _ _ _ _ post).
  - cbn [app]. f_equal. apply re_sub_no_match. intros a b ->.
    destruct (match_here psk_comment_pattern b) as [r|] eqn:E; [|reflexivity].
    exfalso. apply psk_match_inv in E as (t & rest & -> & _). apply Hopost.
    exists (a ++ t), rest. now rewrite <- app_assoc.
  - intros a1 a2 Ha Ha2.
    destruct (match_here psk_comment_pattern _) as [r|] eqn:E; [|reflexivity].
    exfalso. apply psk_match_inv in E as (t & rest & E & Ht).
    destruct Hpre as [-> | (p & ->)].
    { symmetry in Ha. apply app_eq_nil in Ha as [_ ->]. congruence. }
    destruct (exists_last Ha2) as (a2' & x & ->).
    rewrite app_assoc in Ha. apply app_inj_tail in Ha as [-> <-].
    rewrite <- app_assoc in E. cbn [app] in E.
    destruct (Nat.le_gt_cases (length t) (length a2')) as [Hle|Hgt].
    + symmetry in E.
      apply (ends_before _ _ _ _ _ _ newline_not_in_psk_open) in E as (m & ->);
        [|exact Hle].
      apply Hopre. exists (a1 ++ t), (m ++ [newline]).
      now repeat rewrite <- app_assoc.
    + apply app_eq_app_le in E as (m & -> & E); [|lia].
      destruct m as [|d m]; [rewrite app_nil_r in Hgt; lia|].
      injection E as <- _.
      rewrite forallb_app in Ht. apply andb_true_iff in Ht as [_ Ht].
      simpl in Ht. discriminate Ht.
  - now apply psk_match.
  - unfold psk_comment_line. repeat rewrite length_app. simpl. lia.
Qed.

Lemma run_ok (env : Env) (argv : list text) (w : World) :
  exit_status env (trace w) argv = 0%Z ->
  run env argv w = (Ok (output env (trace w) argv), log (Exec argv) w).
Proof. intros H. unfold run. now rewrite H. Qed.

Lemma bind_ok {A B : Type} (m : M A) (k : A -> M B) (w w' : World) (a : A) :
  m w = (Ok a, w') -> (m ≫= k) w = k a w'.
Proof. intros H. unfold mbind, M_bind, bind. now rewrite H. Qed.

(** An occurrence of [w] in [a ++ t] lies in [t] when [a] holds none and
    [t] starts with a character that [w] holds at most in front. *)
Lemma occurs_behind (w w' a t : text) (h : ascii) :
  w = h :: w' ->
  ~ occurs w a ->
  (forall c t', t = c :: t' -> ~ In c w') ->
  occurs w (a ++ t) -> occurs w t.
Proof.
  intros Hw Ha Ht (x & y & H).
  destruct (Nat.le_gt_cases (length a) (length x)) as [Hle|Hgt].
  - apply app_eq_app_le in H as (m & -> & ->); [|exact Hle]. now exists m, y.
  - exfalso. symmetry in H. apply app_eq_app_le in H as (a2 & -> & H); [|lia].
    apply (no_start_inside w w' (x ++ a2) t h Hw Ha Ht x a2 y eq_refl); [|now symmetry].
    intros ->. rewrite app_nil_r in Hgt. lia.
Qed.

(** The entry without the line of the plain text password holds no
    [#psk=] with a double quote behind it. *)
Lemma no_psk_open_in_entry (pre rest : text) :
  (pre = [] \/ exists p, pre = p ++ [newline]) ->
  ~ occurs psk_open pre -> ~ occurs psk_open rest ->
  ~ occurs psk_open (pre ++ rest).
Proof.
  intros Hpre Hopre Horest Hocc.
  destruct Hpre as [-> | (p & ->)]; [now apply Horest|].
  rewrite <- app_assoc in Hocc. cbn [app] in Hocc.
  apply occurs_around in Hocc as [Hocc|Hocc]; [|now apply Horest|].
  - apply Hopre. now apply occurs_app_l.
  - exact newline_not_in_psk_open.
Qed.

(** X27.  When the output of [wpa_passphrase] holds the line with the
    plain text password, a line that the pattern matches (the password
    holds neither a double quote nor a newline), followed by the line
    with the derived key, then what [set_cli_mode] appends to the WPA
    supplicant configuration is the output without that line, between
    the two markers: the stored file holds the line with the key, and it
    holds [#psk=] with a double quote behind it only if what was left of
    the old file did. *)
Theorem set_cli_mode_scrubs_password
        (env : Env) (self : WifiController) (ssid password : text) (w : World)
        (wpa dhcpcd pre tabs plain ktabs key post : text) :
  ssid <> [] -> password <> [] ->
  (forall t argv, exit_status env t argv = 0%Z) ->
  (forall t, output env t (wpa_passphrase ssid password)
             = pre ++ psk_comment_line tabs plain ++ psk_key_line ktabs key ++ post) ->
  files w !! WPA_SUPPLICANT_CONF = Some wpa ->
  files w !! DHCPCD_CONF = Some dhcpcd ->
  forallb (Ascii.eqb tab) tabs = true ->
  plain <> [] -> ~ In newline plain -> ~ In dquote plain ->
  (pre = [] \/ exists p, pre = p ++ [newline]) ->
  ~ occurs psk_open pre ->
  ~ occurs psk_open (psk_key_line ktabs key ++ post) ->
  let prior := removed_content rpiwifi (universal_newlines wpa) in
  exists w' stored,
    set_cli_mode env self (Some ssid) (Some password) w = (Ok true, w')
    /\ files w' !! WPA_SUPPLICANT_CONF = Some stored
    /\ stored
       = prior ++ lit "#<begin_rpiwifi_entry>" ++ [newline]
         ++ (pre ++ psk_key_line ktabs key ++ post) ++ [newline]
         ++ lit "#<end_rpiwifi_entry>" ++ [newline]
    /\ (occursb (lit "#<begin_rpiwifi_entry>") (universal_newlines wpa) = false ->
        prior = universal_newlines wpa)
    /\ occurs (psk_key_line ktabs key) stored
    /\ (~ occurs psk_open prior -> ~ occurs psk_open stored).
Proof.
  intros Hssid Hpw Hexit Hout Hwpa Hdhcp Htabs Hplain Hnl Hdq Hpre Hopre Hopost prior.
  unfold set_cli_mode.
  destruct ssid as [|s0 ssid]; [congruence|].
  destruct password as [|p0 password]; [congruence|]. cbn [truthy negb arg default].
  eexists _, _. split; [|split; [|split; [|split; [|split]]]].
  - rewrite (bind_ok _ _ _ _ _ (run_ok _ _ _ (Hexit _ _))).
    rewrite (bind_ok _ _ _ _ _ (run_ok _ _ _ (Hexit _ _))).
    erewrite bind_ok.
    2:{ rewrite (bind_ok _ _ _ _ _ (run_ok _ _ _ (Hexit _ _))).
        fold (wpa_passphrase (s0 :: ssid) (p0 :: password)). rewrite Hout.
        rewrite scrub_psk_comment by assumption.
        apply add_entry_run. exact Hwpa. }
    erewrite bind_ok.
    2:{ apply remove_entry_run. cbn [files]. rewrite lookup_insert_ne by discriminate.
        exact Hdhcp. }
    rewrite (bind_ok _ _ _ _ _ (run_ok _ _ _ (Hexit _ _))).
    rewrite (bind_ok _ _ _ _ _ (run_ok _ _ _ (Hexit _ _))).
    rewrite (bind_ok _ _ _ _ _ (run_ok _ _ _ (Hexit _ _))).
    erewrite bind_ok by reflexivity.
    rewrite (bind_ok _ _ _ _ _ (run_ok _ _ _ (Hexit _ _))).
    reflexivity.
  - cbn [files log]. rewrite lookup_insert_ne by discriminate.
    rewrite lookup_insert_eq. reflexivity.
  - reflexivity.
  - intros Hb. apply removed_content_no_begin.
    rewrite <- occursb_spec. change (begin_marker rpiwifi) with (lit "#<begin_rpiwifi_entry>").
    rewrite Hb. discriminate.
  - exists (prior ++ begin_marker rpiwifi ++ [newline] ++ pre),
      (post ++ [newline] ++ end_marker rpiwifi ++ [newline]).
    unfold entry_block. repeat rewrite <- app_assoc. reflexivity.
  - intros Hprior Hocc. fold prior in Hocc.
    apply (occurs_behind psk_open (lit "psk=" ++ [dquote]) _ _ hash eq_refl Hprior)
      in Hocc.
    2:{ intros c t' Ht. injection Ht as <- _. not_in_literal. }
    unfold entry_block in Hocc. cbn [app] in Hocc.
    pose proof newline_not_in_psk_open as Hno.
    apply occurs_around in Hocc as [Hocc|Hocc]; [|clear Hno|exact Hno].
    { rewrite <- occursb_spec in Hocc. vm_compute in Hocc. discriminate. }
    pose proof newline_not_in_psk_open as Hno.
    assert (occurs psk_open
              ((pre ++ psk_key_line ktabs key ++ post)
               ++ newline :: end_marker rpiwifi ++ [newline])) as Hocc'.
    { revert Hocc. repeat rewrite <- app_assoc. cbn [app]. trivial. }
    clear Hocc. rename Hocc' into Hocc.
    apply occurs_around in Hocc as [Hocc|Hocc]; [| |exact Hno].
    + revert Hocc. now apply no_psk_open_in_entry.
    + apply occurs_around in Hocc as [Hocc|Hocc]; [| |exact Hno].
      * rewrite <- occursb_spec in Hocc. vm_compute in Hocc. discriminate.
      * revert Hocc. apply occurs_nil. discriminate.
Qed.

Lemma set_cli_mode_scrubs_password_witness :
  let prior := removed_content rpiwifi (universal_newlines (lit "country=AT" ++ [newline])) in
  exists w' stored,
    set_cli_mode sample_env (init (lit "wlan0")) (Some (lit "home"))
      (Some (lit "secretpw")) sample_world = (Ok true, w')
    /\ files w' !! WPA_SUPPLICANT_CONF = Some stored
    /\ stored
       = prior ++ lit "#<begin_rpiwifi_entry>" ++ [newline]
         ++ (sample_pre ++ psk_key_line [tab] (lit "0123abcd") ++ lit "}" ++ [newline])
         ++ [newline] ++ lit "#<end_rpiwifi_entry>" ++ [newline]
    /\ (occursb (lit "#<begin_rpiwifi_entry>")
          (universal_newlines (lit "country=AT" ++ [newline])) = false ->
        prior = universal_newlines (lit "country=AT" ++ [newline]))
    /\ occurs (psk_key_line [tab] (lit "0123abcd")) stored
    /\ (~ occurs psk_open prior -> ~ occurs psk_open stored).
Proof.
  apply (set_cli_mode_scrubs_password sample_env (init (lit "wlan0"))
           (lit "home") (lit "secretpw") sample_world
           (lit "country=AT" ++ [newline]) (lit "hostname" ++ [newline])
           sample_pre [tab] (lit "secretpw") [tab] (lit "0123abcd")
           (lit "}" ++ [newline])).
  - discriminate.
  - discriminate.
  - intros t argv. reflexivity.
  - intros t. reflexivity.
  - vm_compute. reflexivity.
  - vm_compute. reflexivity.
  - reflexivity.
  - discriminate.
  - not_in_literal.
  - not_in_literal.
  - right.
    exists (lit "network={" ++ [newline; tab] ++ lit "ssid=" ++ [dquote] ++ lit "home"
              ++ [dquote]).
    reflexivity.
  - rewrite <- occursb_spec. vm_compute. discriminate.
  - rewrite <- occursb_spec. vm_compute. discriminate.
Defined.

(** C7, on the code.  The pattern takes a password up to the first double
    quote and then wants the line to end: for a password that holds a
    double quote the line with the plain text password is no match, and
    [set_cli_mode] stores it in the WPA supplicant configuration with the
    rest of the output. *)
Theorem set_cli_mode_keeps_quoted_password :
  exists w' stored,
    set_cli_mode quoted_env (init (lit "wlan0")) (Some (lit "home"))
      (Some quoted_password) sample_world = (Ok true, w')
    /\ files w' !! WPA_SUPPLICANT_CONF = Some stored
    /\ stored
       = lit "country=AT" ++ [newline]
         ++ lit "#<begin_rpiwifi_entry>" ++ [newline]
         ++ lit "network={" ++ [newline]
         ++ [tab] ++ lit "ssid=" ++ [dquote] ++ lit "home" ++ [dquote; newline]
         ++ [tab] ++ lit "#psk=" ++ [dquote] ++ quoted_password ++ [dquote; newline]
         ++ [tab] ++ lit "psk=0123abcd" ++ [newline]
         ++ lit "}" ++ [newline]
         ++ [newline] ++ lit "#<end_rpiwifi_entry>" ++ [newline]
    /\ occursb (psk_comment_line [tab] quoted_password) stored = true.
Proof.
  eexists _, _. split; [vm_compute; reflexivity|].
  split; [vm_compute; reflexivity|].
  split; vm_compute; reflexivity.
Qed.

(** The pattern does not reach a password that holds a double quote: the
    line is then no match and stays in the entry. *)
Remark psk_comment_with_quote_stays :
  let line := psk_comment_line [tab] (lit "secret" ++ [dquote] ++ lit "pw") in
  re_sub psk_comment_pattern [] (sample_pre ++ line ++ lit "}" ++ [newline])
  = sample_pre ++ line ++ lit "}" ++ [newline].
Proof. vm_compute. reflexivity. Qed.

(** * Further properties of the module *)

(** ** The removal, in full *)

(** The substitution of the removal, in terms of [find] and [rfind]. *)
Lemma removed_content_by_markers (identifier content : text) :
  removed_content identifier content
  = match find (begin_marker identifier) content,
          rfind (end_marker identifier) content with
    | Some i, Some j =>
        if (i + length (begin_marker identifier) <? j)%nat
        then take i content ++ drop (j + length (end_marker identifier)) content
        else content
    | _, _ => content
    end.
Proof.
  destruct (find _ content) as [i|] eqn:F.
  - destruct (rfind _ content) as [j|] eqn:R.
    + destruct (Nat.ltb_spec (i + length (begin_marker identifier)) j) as [Hlt|Hge].
      * now apply removed_content_find.
      * apply removed_content_same. intros a m b Hm ->.
        apply find_Some in F as (x & y & _ & Hi & Hmin).
        apply rfind_Some in R as (x' & y' & _ & Hj & Hmax).
        specialize (Hmin a _ eq_refl).
        specialize (Hmax (a ++ begin_marker identifier ++ m) b).
        repeat rewrite <- app_assoc in Hmax. specialize (Hmax eq_refl).
        repeat rewrite length_app in Hmax.
        destruct m; [congruence | cbn [length] in Hmax; lia].
    + apply removed_content_same. intros a m b _ ->.
      apply (rfind_None _ _ R).
      exists (a ++ begin_marker identifier ++ m), b. now repeat rewrite <- app_assoc.
  - apply removed_content_no_begin. now apply find_None.
Qed.

(** X1.  For an identifier of letters, digits and underscores, what
    [remove_entry_from_config] leaves of a file is decided by the first
    begin marker and the last end marker of the text that is read from
    it (its line ends read as newlines): when the first begin marker ends
    at least one character before the last end marker starts, everything
    from the one to the other is cut; in every other case the text is
    written back whole. *)
Theorem remove_entry_by_markers
        (filepath : string) (identifier content : text) (w : World) :
  plain_identifier identifier ->
  files w !! filepath = Some content ->
  let read := universal_newlines content in
  let kept :=
    match find (begin_marker identifier) read, rfind (end_marker identifier) read with
    | Some i, Some j =>
        if (i + length (begin_marker identifier) <? j)%nat
        then take i read ++ drop (j + length (end_marker identifier)) read
        else read
    | _, _ => read
    end in
  remove_entry_from_config filepath identifier w
  = (Ok tt,
     {| files := <[filepath := kept]> (files w);
        trace := trace w ++ [FileWrite filepath kept] |}).
Proof.
  intros _ Hf read kept. rewrite (remove_entry_run _ _ _ _ Hf).
  fold read. now rewrite (removed_content_by_markers identifier read).
Qed.

Lemma remove_entry_by_markers_witness :
  let read := universal_newlines two_blocks in
  let kept :=
    match find (begin_marker rpiwifi) read, rfind (end_marker rpiwifi) read with
    | Some i, Some j =>
        if (i + length (begin_marker rpiwifi) <? j)%nat
        then take i read ++ drop (j + length (end_marker rpiwifi)) read
        else read
    | _, _ => read
    end in
  remove_entry_from_config DHCPCD_CONF rpiwifi (dhcpcd_with two_blocks)
  = (Ok tt,
     {| files := <[DHCPCD_CONF := kept]> (files (dhcpcd_with two_blocks));
        trace := trace (dhcpcd_with two_blocks) ++ [FileWrite DHCPCD_CONF kept] |}).
Proof.
  apply (remove_entry_by_markers DHCPCD_CONF rpiwifi two_blocks (dhcpcd_with two_blocks)).
  - reflexivity.
  - reflexivity.
Defined.

Lemma end_marker_length_pos (identifier : text) : 0 < length (end_marker identifier).
Proof. rewrite end_marker_cons. simpl. lia. Qed.

Lemma begin_marker_length_pos (identifier : text) : 0 < length (begin_marker identifier).
Proof. rewrite begin_marker_cons. simpl. lia. Qed.

(** What a cut leaves holds no further match. *)
Lemma removed_content_idem (identifier content : text) :
  removed_content identifier (removed_content identifier content)
  = removed_content identifier content.
Proof.
  destruct (find (begin_marker identifier) content) as [i|] eqn:F.
  2:{ apply find_None in F. rewrite (removed_content_no_begin _ _ F).
      exact (removed_content_no_begin _ _ F). }
  destruct (rfind (end_marker identifier) content) as [j|] eqn:R.
  2:{ assert (removed_content identifier content = content) as Hsame;
        [|rewrite Hsame; exact Hsame].
      apply removed_content_same. intros a m b _ ->.
      apply (rfind_None _ _ R).
      exists (a ++ begin_marker identifier ++ m), b. now repeat rewrite <- app_assoc. }
  destruct (Nat.le_gt_cases j (i + length (begin_marker identifier))) as [Hge|Hlt].
  { assert (removed_content identifier content = content) as Hsame;
      [|rewrite Hsame; exact Hsame].
    apply removed_content_same. intros a m b Hm ->.
    apply find_Some in F as (x & y & _ & Hi & Hmin).
    apply rfind_Some in R as (x' & y' & _ & Hj & Hmax).
    specialize (Hmin a _ eq_refl).
    specialize (Hmax (a ++ begin_marker identifier ++ m) b).
    repeat rewrite <- app_assoc in Hmax. specialize (Hmax eq_refl).
    repeat rewrite length_app in Hmax.
    destruct m; [congruence | cbn [length] in Hmax; lia]. }
  rewrite (removed_content_find _ _ _ _ F R Hlt).
  apply find_Some in F as (x & y & Hx & Hi & Hmin).
  apply rfind_Some in R as (x' & y' & Hx' & Hj & Hmax).
  assert (take i content = x) as ->.
  { rewrite Hx, <- Hi. apply take_app_length. }
  assert (drop (j + length (end_marker identifier)) content = y') as ->.
  { rewrite Hx', <- Hj, app_assoc, <- length_app. apply drop_app_length. }
  apply removed_content_same. intros a m b _ H.
  pose proof (end_marker_length_pos identifier) as HE.
  pose proof (begin_marker_length_pos identifier) as HB.
  destruct (Nat.le_gt_cases (length (a ++ begin_marker identifier ++ m)) (length x))
    as [Hq|Hq].
  - symmetry in H. rewrite 2!app_assoc, <- (app_assoc a) in H.
    apply app_eq_app_le in H as (k & Hk & _); [|exact Hq].
    specialize (Hmin a (m ++ k ++ begin_marker identifier ++ y)).
    rewrite Hx, Hk in Hmin. repeat rewrite <- app_assoc in Hmin.
    specialize (Hmin eq_refl). rewrite Hk in Hi. repeat rewrite length_app in Hi. lia.
  - rewrite 2!app_assoc, <- (app_assoc a) in H.
    apply app_eq_app_le in H as (k & Hk & Hy'); [|lia].
    specialize (Hmax (x' ++ end_marker identifier ++ k) b).
    rewrite Hx', Hy' in Hmax. repeat rewrite <- app_assoc in Hmax.
    specialize (Hmax eq_refl). repeat rewrite length_app in Hmax. lia.
Qed.

(** X2.  For an identifier of letters, digits and underscores, removing
    twice is removing once: the first removal writes what it leaves of
    the text it has read, the second finds nothing to cut in it and
    writes it back as it is. *)
Theorem remove_entry_twice
        (filepath : string) (identifier content : text) (w : World) :
  plain_identifier identifier ->
  files w !! filepath = Some content ->
  let kept := removed_content identifier (universal_newlines content) in
  exists w1 w2,
    remove_entry_from_config filepath identifier w = (Ok tt, w1)
    /\ remove_entry_from_config filepath identifier w1 = (Ok tt, w2)
    /\ files w1 = <[filepath := kept]> (files w)
    /\ files w2 = files w1
    /\ trace w2 = trace w ++ [FileWrite filepath kept; FileWrite filepath kept].
Proof.
  intros _ Hf kept. eexists _, _.
  split; [apply remove_entry_run, Hf|].
  split; [apply remove_entry_run; cbn [files]; apply lookup_insert_eq|].
  cbn [files trace].
  assert (removed_content identifier (universal_newlines kept) = kept) as Hkept.
  { unfold kept. rewrite read_removed. apply removed_content_idem. }
  fold kept. rewrite Hkept, insert_insert_eq, <- app_assoc. repeat split.
Qed.

Lemma remove_entry_twice_witness :
  let kept := removed_content rpiwifi (universal_newlines two_blocks) in
  exists w1 w2,
    remove_entry_from_config DHCPCD_CONF rpiwifi (dhcpcd_with two_blocks) = (Ok tt, w1)
    /\ remove_entry_from_config DHCPCD_CONF rpiwifi w1 = (Ok tt, w2)
    /\ files w1 = <[DHCPCD_CONF := kept]> (files (dhcpcd_with two_blocks))
    /\ files w2 = files w1
    /\ trace w2
       = trace (dhcpcd_with two_blocks)
         ++ [FileWrite DHCPCD_CONF kept; FileWrite DHCPCD_CONF kept].
Proof.
  apply (remove_entry_twice DHCPCD_CONF rpiwifi two_blocks (dhcpcd_with two_blocks)).
  - reflexivity.
  - reflexivity.
Defined.

(** ** What the functions leave alone *)

Lemma leaves_files_file {A : Type} (path : string) (m : M A) :
  leaves_files m -> leaves_file path m.
Proof. intros H w. now rewrite H. Qed.

Lemma leaves_file_bind {A B : Type} (path : string) (m : M A) (k : A -> M B) :
  leaves_file path m -> (forall a, leaves_file path (k a)) ->
  leaves_file path (m ≫= k).
Proof.
  intros Hm Hk w. unfold mbind, M_bind, bind. specialize (Hm w).
  destruct (m w) as [[a|e] w'] eqn:E; simpl in *; [|exact Hm].
  now rewrite Hk.
Qed.

Lemma leaves_files_bind {A B : Type} (m : M A) (k : A -> M B) :
  leaves_files m -> (forall a, leaves_files (k a)) -> leaves_files (m ≫= k).
Proof.
  intros Hm Hk w. unfold mbind, M_bind, bind. specialize (Hm w).
  destruct (m w) as [[a|e] w'] eqn:E; simpl in *; [|exact Hm].
  now rewrite Hk.
Qed.

Lemma leaves_files_ret {A : Type} (a : A) : leaves_files (mret a : M A).
Proof. intros w. reflexivity. Qed.

Lemma leaves_files_run (env : Env) (argv : list text) : leaves_files (run env argv).
Proof. intros w. unfold run. now destruct (_ =? _)%Z. Qed.

Lemma leaves_files_call (env : Env) (argv : list text) : leaves_files (call env argv).
Proof. intros w. reflexivity. Qed.

Lemma leaves_files_sleep (n : nat) : leaves_files (sleep n).
Proof. intros w. reflexivity. Qed.

Lemma leaves_files_print (msg : text) : leaves_files (print msg).
Proof. intros w. reflexivity. Qed.

Lemma leaves_files_Cell_all (env : Env) (iface : text) : leaves_files (Cell_all env iface).
Proof. intros w. reflexivity. Qed.

Lemma leaves_file_replace (path filepath : string) (source : pattern_arg) (target : text) :
  path <> filepath -> leaves_file path (replace_in_file filepath source target).
Proof.
  intros Hne w. unfold replace_in_file, mbind, M_bind, bind, read_file.
  destruct (files w !! filepath); [|reflexivity].
  unfold open_truncating, lift, write_file.
  destruct (replaced_content source target _); cbn [snd files].
  - now rewrite !lookup_insert_ne.
  - now apply lookup_insert_ne.
Qed.

Lemma leaves_file_remove (path filepath : string) (identifier : text) :
  path <> filepath -> leaves_file path (remove_entry_from_config filepath identifier).
Proof. intros Hne. now apply leaves_file_replace. Qed.

Lemma leaves_file_add (path filepath : string) (entry identifier : text) :
  path <> filepath -> leaves_file path (add_entry_to_config entry filepath identifier).
Proof.
  intros Hne. apply leaves_file_bind; [now apply leaves_file_remove|].
  intros _ w. simpl. now apply lookup_insert_ne.
Qed.

(** X3.  The editor works on the one file it is given: whatever the sequence
    of additions and removals, and whether it ends or raises, every
    other file is as it was. *)
Theorem perform_leaves_other_files
        (path filepath : string) (identifier : text) (ops : list op) (w : World) :
  path <> filepath ->
  files (perform filepath identifier ops w).2 !! path = files w !! path.
Proof.
  intros Hne. revert w. change (leaves_file path (perform filepath identifier ops)).
  induction ops as [|o ops IH]; [intros w; reflexivity|].
  cbn [perform]. apply leaves_file_bind; [|intros _; exact IH].
  destruct o; [now apply leaves_file_add | now apply leaves_file_remove].
Qed.

Lemma perform_leaves_other_files_witness :
  files (perform DHCPCD_CONF rpiwifi [Add (lit "x"); Remove] sample_world).2
    !! WPA_SUPPLICANT_CONF
  = files sample_world !! WPA_SUPPLICANT_CONF.
Proof.
  apply (perform_leaves_other_files WPA_SUPPLICANT_CONF DHCPCD_CONF rpiwifi
           [Add (lit "x"); Remove] sample_world).
  discriminate.
Defined.

(** X4.  Neither operation of the editor creates the file: on a path that
    holds no file both raise [FileNotFoundError] from the read, before
    anything is written, although the append alone would create it. *)
Theorem editor_needs_the_file
        (entry : text) (filepath : string) (identifier : text) (w : World) :
  files w !! filepath = None ->
  remove_entry_from_config filepath identifier w
  = (Raise (FileNotFoundError filepath), w)
  /\ add_entry_to_config entry filepath identifier w
     = (Raise (FileNotFoundError filepath), w)
  /\ exists w', append_file filepath entry w = (Ok tt, w')
                /\ files w' !! filepath = Some entry.
Proof.
  intros Hf. unfold add_entry_to_config, remove_entry_from_config, replace_in_file.
  unfold mbind, M_bind, bind, read_file. rewrite Hf. repeat split.
  eexists. split; [reflexivity|]. cbn [files]. rewrite lookup_insert_eq.
  unfold text in *. rewrite Hf. reflexivity.
Qed.

Lemma editor_needs_the_file_witness :
  remove_entry_from_config DHCPCD_CONF rpiwifi empty_world
  = (Raise (FileNotFoundError DHCPCD_CONF), empty_world)
  /\ add_entry_to_config (lit "x") DHCPCD_CONF rpiwifi empty_world
     = (Raise (FileNotFoundError DHCPCD_CONF), empty_world)
  /\ exists w', append_file DHCPCD_CONF (lit "x") empty_world = (Ok tt, w')
                /\ files w' !! DHCPCD_CONF = Some (lit "x").
Proof.
  apply (editor_needs_the_file (lit "x") DHCPCD_CONF rpiwifi empty_world).
  reflexivity.
Defined.

(** X5.  Going to client mode can change two files, the WPA supplicant and the
    DHCP client configuration.  However far it gets, and whichever step
    raises, every other file is as it was; without a network name the
    WPA supplicant configuration is left alone too. *)
Theorem set_cli_mode_leaves_other_files
        (env : Env) (self : WifiController) (ssid password : option text)
        (path : string) (w : World) :
  path <> DHCPCD_CONF ->
  path <> WPA_SUPPLICANT_CONF \/ truthy ssid = false ->
  files (set_cli_mode env self ssid password w).2 !! path = files w !! path.
Proof.
  intros Hd Hw. revert w.
  change (leaves_file path (set_cli_mode env self ssid password)).
  unfold set_cli_mode. destruct (negb (truthy password)).
  - apply leaves_file_bind; intros; apply leaves_files_file;
      [apply leaves_files_print | apply leaves_files_ret].
  - apply leaves_file_bind; [apply leaves_files_file, leaves_files_run|]. intros _.
    apply leaves_file_bind; [apply leaves_files_file, leaves_files_run|]. intros _.
    apply leaves_file_bind.
    + destruct (truthy ssid) eqn:Hs.
      * destruct Hw as [Hw|Hw]; [|discriminate].
        apply leaves_file_bind; [apply leaves_files_file, leaves_files_run|].
        intros entry. now apply leaves_file_add.
      * apply leaves_files_file, leaves_files_ret.
    + intros _. apply leaves_file_bind; [now apply leaves_file_remove|]. intros _.
      apply leaves_file_bind; [apply leaves_files_file, leaves_files_run|]. intros _.
      apply leaves_file_bind; [apply leaves_files_file, leaves_files_run|]. intros _.
      apply leaves_file_bind; [apply leaves_files_file, leaves_files_run|]. intros _.
      apply leaves_file_bind; [apply leaves_files_file, leaves_files_sleep|]. intros _.
      apply leaves_file_bind; [apply leaves_files_file, leaves_files_run|]. intros _.
      apply leaves_files_file, leaves_files_ret.
Qed.

Lemma set_cli_mode_leaves_other_files_witness :
  files (set_cli_mode sample_env (init (lit "wlan0")) None (Some (lit "secretpw"))
           sample_world).2 !! WPA_SUPPLICANT_CONF
  = files sample_world !! WPA_SUPPLICANT_CONF.
Proof.
  apply (set_cli_mode_leaves_other_files sample_env (init (lit "wlan0")) None
           (Some (lit "secretpw")) WPA_SUPPLICANT_CONF sample_world).
  - discriminate.
  - right. reflexivity.
Defined.

(** X6.  Going to access point mode can change one file, the DHCP client
    configuration; every other file is as it was, however far the
    function gets. *)
Theorem set_ap_mode_leaves_other_files
        (env : Env) (self : WifiController) (path : string) (w : World) :
  path <> DHCPCD_CONF ->
  files (set_ap_mode env self w).2 !! path = files w !! path.
Proof.
  intros Hd. revert w. change (leaves_file path (set_ap_mode env self)).
  unfold set_ap_mode.
  apply leaves_file_bind; [apply leaves_files_file, leaves_files_run|]. intros _.
  apply leaves_file_bind; [apply leaves_files_file, leaves_files_run|]. intros _.
  apply leaves_file_bind; [now apply leaves_file_add|]. intros _.
  apply leaves_file_bind; [apply leaves_files_file, leaves_files_run|]. intros _.
  apply leaves_file_bind; [apply leaves_files_file, leaves_files_run|]. intros _.
  apply leaves_file_bind; [apply leaves_files_file, leaves_files_run|]. intros _.
  apply leaves_files_file, leaves_files_ret.
Qed.

Lemma set_ap_mode_leaves_other_files_witness :
  files (set_ap_mode sample_env (init (lit "wlan0")) sample_world).2
    !! WPA_SUPPLICANT_CONF
  = files sample_world !! WPA_SUPPLICANT_CONF.
Proof.
  apply (set_ap_mode_leaves_other_files sample_env (init (lit "wlan0"))
           WPA_SUPPLICANT_CONF sample_world).
  discriminate.
Defined.

(** ** The scan loop *)

Lemma bind_raise {A B : Type} (m : M A) (k : A -> M B) (w w' : World) (e : exn) :
  m w = (Raise e, w') -> (m ≫= k) w = (Raise e, w').
Proof. intros H. unfold mbind, M_bind, bind. now rewrite H. Qed.

Lemma run_fail (env : Env) (argv : list text) (w : World) :
  exit_status env (trace w) argv <> 0%Z ->
  run env argv w
  = (Raise (CalledProcessError argv (exit_status env (trace w) argv)), log (Exec argv) w).
Proof. intros H. unfold run. now destruct (Z.eqb_spec (exit_status env (trace w) argv) 0). Qed.

Lemma scan_loop_events (env : Env) (attempts : nat) (self : WifiController) (w : World) :
  files (scan_loop env attempts self w).2 = files w
  /\ exists added,
       trace (scan_loop env attempts self w).2 = trace w ++ added
       /\ length (filter is_scan added) <= attempts
       /\ filter is_write added = [].
Proof.
  revert w. induction attempts as [|n IH]; intros w.
  - split; [reflexivity|]. exists []. rewrite app_nil_r. auto.
  - cbn [scan_loop]. erewrite bind_ok by reflexivity.
    destruct (cell_all env (trace w) (interface self)) as [cells|].
    + split; [reflexivity|]. exists [Scan (interface self)].
      split; [reflexivity|]. simpl. split; [lia | reflexivity].
    + set (argv := [lit "ifconfig"; interface self; lit "up"]).
      set (w1 := log (Scan (interface self)) w).
      destruct (Z.eq_dec (exit_status env (trace w1) argv) 0%Z) as [H0|H0].
      * rewrite (bind_ok _ _ _ _ _ (run_ok _ _ _ H0)).
        erewrite bind_ok by reflexivity.
        destruct (IH (log (Sleep 2) (log (Exec argv) w1)))
          as (Hf & added & Ht & Hs & Hw).
        split; [exact Hf|].
        exists ([Scan (interface self); Exec argv; Sleep 2] ++ added).
        rewrite Ht. cbn [trace log w1]. repeat rewrite <- app_assoc.
        split; [reflexivity|]. simpl. split; [lia | exact Hw].
      * rewrite (bind_raise _ _ _ _ _ (run_fail _ _ _ H0)).
        split; [reflexivity|]. exists [Scan (interface self); Exec argv].
        cbn [trace log snd w1]. rewrite <- app_assoc.
        split; [reflexivity|]. simpl. split; [lia | reflexivity].
Qed.

(** X7.  Scanning is bounded and touches no file: in every environment, and
    whether it returns or a process raises, [list_available_wifis] asks
    the scanning library at most three times, writes nothing, and leaves
    every file as it was. *)
Theorem list_available_wifis_bounded
        (env : Env) (self : WifiController) (w : World) :
  files (list_available_wifis env self w).2 = files w
  /\ exists added,
       trace (list_available_wifis env self w).2 = trace w ++ added
       /\ length (filter is_scan added) <= 3
       /\ filter is_write added = [].
Proof.
  unfold list_available_wifis, mbind, M_bind, bind.
  pose proof (scan_loop_events env 3 self w) as H.
  destruct (scan_loop env 3 self w) as [[cells|e] w']; exact H.
Qed.

(** X8.  When the interface never gets ready, [InterfaceError] does not reach
    the caller: after three scans, each followed by bringing the
    interface up and a pause of two seconds, also the last one, the
    function returns the empty list. *)
Theorem list_available_wifis_gives_up
        (env : Env) (self : WifiController) (w : World) :
  (forall t, cell_all env t (interface self) = None) ->
  (forall t, exit_status env t (ifconfig_up self) = 0%Z) ->
  exists w',
    list_available_wifis env self w = (Ok [], w')
    /\ files w' = files w
    /\ trace w'
       = trace w
         ++ [Scan (interface self); Exec (ifconfig_up self); Sleep 2;
             Scan (interface self); Exec (ifconfig_up self); Sleep 2;
             Scan (interface self); Exec (ifconfig_up self); Sleep 2].
Proof.
  intros Hscan Hexit. unfold list_available_wifis. cbn [scan_loop].
  fold (ifconfig_up self). eexists. split.
  - erewrite bind_ok.
    2:{ do 3 (erewrite bind_ok by reflexivity; rewrite Hscan;
              rewrite (bind_ok _ _ _ _ _ (run_ok _ _ _ (Hexit _)));
              erewrite bind_ok by reflexivity).
        reflexivity. }
    reflexivity.
  - split; [reflexivity|]. cbn [trace log]. now repeat rewrite <- app_assoc.
Qed.

Lemma list_available_wifis_gives_up_witness :
  exists w',
    list_available_wifis deaf_env (init (lit "wlan0")) empty_world = (Ok [], w')
    /\ files w' = files empty_world
    /\ trace w'
       = trace empty_world
         ++ [Scan (lit "wlan0"); Exec (ifconfig_up (init (lit "wlan0"))); Sleep 2;
             Scan (lit "wlan0"); Exec (ifconfig_up (init (lit "wlan0"))); Sleep 2;
             Scan (lit "wlan0"); Exec (ifconfig_up (init (lit "wlan0"))); Sleep 2].
Proof.
  apply (list_available_wifis_gives_up deaf_env (init (lit "wlan0")) empty_world).
  - intros t. reflexivity.
  - intros t. reflexivity.
Defined.

(** X9.  The retry catches [InterfaceError] only.  When the scan fails and
    bringing the interface up fails too, [CalledProcessError] reaches the
    caller, after one scan and one process, without a pause or another
    attempt. *)
Theorem list_available_wifis_ifconfig_fails
        (env : Env) (self : WifiController) (w : World) :
  cell_all env (trace w) (interface self) = None ->
  exit_status env (trace w ++ [Scan (interface self)]) (ifconfig_up self) <> 0%Z ->
  exists status w',
    list_available_wifis env self w
    = (Raise (CalledProcessError (ifconfig_up self) status), w')
    /\ status <> 0%Z
    /\ files w' = files w
    /\ trace w' = trace w ++ [Scan (interface self); Exec (ifconfig_up self)].
Proof.
  intros Hscan Hexit. unfold list_available_wifis. cbn [scan_loop].
  fold (ifconfig_up self). eexists _, _. split; [|split; [exact Hexit|]].
  - apply bind_raise. erewrite bind_ok by reflexivity. rewrite Hscan.
    apply bind_raise.
    exact (run_fail env (ifconfig_up self) (log (Scan (interface self)) w) Hexit).
  - split; [reflexivity|]. cbn [trace log]. now rewrite <- app_assoc.
Qed.

Lemma list_available_wifis_ifconfig_fails_witness :
  exists status w',
    list_available_wifis broken_env (init (lit "wlan0")) empty_world
    = (Raise (CalledProcessError (ifconfig_up (init (lit "wlan0"))) status), w')
    /\ status <> 0%Z
    /\ files w' = files empty_world
    /\ trace w'
       = trace empty_world
         ++ [Scan (lit "wlan0"); Exec (ifconfig_up (init (lit "wlan0")))].
Proof.
  apply (list_available_wifis_ifconfig_fails broken_env (init (lit "wlan0"))
           empty_world).
  - reflexivity.
  - discriminate.
Defined.

(** X10.  A scan that fails once is tried again: when the second scan, made
    after the interface was brought up and two seconds have passed,
    finds cells, the result is made from these. *)
Theorem list_available_wifis_retries
        (env : Env) (self : WifiController) (w : World) (cells : list Cell) :
  cell_all env (trace w) (interface self) = None ->
  exit_status env (trace w ++ [Scan (interface self)]) (ifconfig_up self) = 0%Z ->
  cell_all env
    (trace w ++ [Scan (interface self); Exec (ifconfig_up self); Sleep 2])
    (interface self) = Some cells ->
  exists w',
    list_available_wifis env self w
    = (Ok (sort_by_quality_desc (values (cells_by_ssid cells))), w')
    /\ trace w'
       = trace w
         ++ [Scan (interface self); Exec (ifconfig_up self); Sleep 2;
             Scan (interface self)].
Proof.
  intros Hscan Hexit Hscan2. unfold list_available_wifis. cbn [scan_loop].
  fold (ifconfig_up self). eexists. split.
  - erewrite bind_ok.
    2:{ erewrite bind_ok by reflexivity. rewrite Hscan.
        rewrite (bind_ok _ _ _ _ _
                   (run_ok env (ifconfig_up self) (log (Scan (interface self)) w) Hexit)).
        erewrite bind_ok by reflexivity.
        erewrite bind_ok by reflexivity.
        cbn [trace log]. repeat rewrite <- app_assoc. cbn [app]. rewrite Hscan2.
        reflexivity. }
    reflexivity.
  - cbn [trace log]. now repeat rewrite <- app_assoc.
Qed.

Lemma list_available_wifis_retries_witness :
  exists w',
    list_available_wifis (waking_env [cell_A3; cell_B5; cell_A7]) (init (lit "wlan0"))
      empty_world
    = (Ok (sort_by_quality_desc (values (cells_by_ssid [cell_A3; cell_B5; cell_A7]))),
       w')
    /\ trace w'
       = trace empty_world
         ++ [Scan (lit "wlan0"); Exec (ifconfig_up (init (lit "wlan0"))); Sleep 2;
             Scan (lit "wlan0")].
Proof.
  apply (list_available_wifis_retries (waking_env [cell_A3; cell_B5; cell_A7])
           (init (lit "wlan0")) empty_world).
  - reflexivity.
  - reflexivity.
  - reflexivity.
Defined.

(** ** The order of the result of a scan *)

Lemma insert_by_quality_filter (q : text) (x : Cell) (l : list Cell) :
  filter (fun c => bool_decide (quality c = q)) (insert_by_quality x l)
  = filter (fun c => bool_decide (quality c = q)) (x :: l).
Proof.
  induction l as [|y l IH]; [reflexivity|]. cbn [insert_by_quality].
  destruct (str_lt (quality x) (quality y)) eqn:Hlt; [|reflexivity].
  cbn [filter] in *. rewrite IH.
  destruct (bool_decide_reflect (quality x = q)) as [Hx|Hx]; [|reflexivity].
  destruct (bool_decide_reflect (quality y = q)) as [Hy|Hy]; [|reflexivity].
  rewrite Hx, Hy, str_lt_irrefl in Hlt. discriminate.
Qed.

(** X11.  The sort is stable: the cells of one quality stand in the result in
    the order in which they stood before. *)
Theorem sort_by_quality_desc_stable (q : text) (l : list Cell) :
  filter (fun c => bool_decide (quality c = q)) (sort_by_quality_desc l)
  = filter (fun c => bool_decide (quality c = q)) l.
Proof.
  induction l as [|x l IH]; [reflexivity|].
  cbn [sort_by_quality_desc fold_right]. rewrite insert_by_quality_filter.
  cbn [filter]. fold (sort_by_quality_desc l). now rewrite IH.
Qed.

Lemma dict_set_keys {V : Type} (k : text) (v : V) (d : list (text * V)) :
  map fst (dict_set k v d)
  = if in_dec (fun x y : text => decide (x = y)) k (map fst d)
    then map fst d else map fst d ++ [k].
Proof.
  induction d as [|[k1 v1] d IH]; [reflexivity|]. cbn [dict_set map fst].
  destruct (decide (k1 = k)) as [->|Hne].
  - destruct (in_dec _ k (k :: map fst d)) as [_|Hn]; [reflexivity|].
    destruct Hn. now left.
  - cbn [map fst]. rewrite IH.
    destruct (in_dec _ k (map fst d)) as [Hin|Hn];
      destruct (in_dec _ k (k1 :: map fst d)) as [Hin'|Hn']; try reflexivity.
    + destruct Hn'. now right.
    + destruct Hin' as [->|Hin']; [congruence | contradiction].
Qed.

(** X12.  The dictionary of a scan keeps the network names in the order in
    which each was first seen, so that is the order of the cells handed
    to the sort. *)
Theorem cells_by_ssid_order (cells : list Cell) :
  map ssid (values (cells_by_ssid cells))
  = rev (nodup (fun x y : text => decide (x = y)) (rev (map ssid cells))).
Proof.
  assert (map ssid (values (cells_by_ssid cells)) = map fst (cells_by_ssid cells))
    as ->.
  { unfold values. rewrite map_map. apply map_ext_in. intros [k v] H. simpl.
    apply (proj2 (cells_by_ssid_spec cells)) in H.
    now apply last_with_ssid_name in H. }
  induction cells as [|cell cells IH] using rev_ind; [reflexivity|].
  unfold cells_by_ssid in *. rewrite fold_left_app. cbn [fold_left].
  rewrite dict_set_keys, IH, map_app, rev_app_distr. cbn [map rev app nodup].
  destruct (in_dec _ (ssid cell) (rev (nodup _ (rev (map ssid cells))))) as [Hin|Hn];
    destruct (in_dec _ (ssid cell) (rev (map ssid cells))) as [Hin'|Hn'];
    try reflexivity.
  - destruct Hn'. rewrite <- in_rev in Hin. now apply nodup_In in Hin.
  - destruct Hn. rewrite <- in_rev. now apply nodup_In.
Qed.

(** ** Switching modes *)

Lemma strip_between (c d : ascii) (m : text) :
  is_space c = false -> is_space d = false ->
  strip (newline :: c :: m ++ [d; newline]) = c :: m ++ [d].
Proof.
  intros Hc Hd. unfold strip. cbn [lstrip]. 
  change (is_space newline) with true. cbn iota. rewrite Hc.
  change (c :: m ++ [d; newline]) with ((c :: m) ++ [d; newline]).
  rewrite rev_app_distr. cbn [rev app lstrip].
  change (is_space newline) with true. cbn iota. rewrite Hd.
  change (d :: rev m ++ [c]) with ([d] ++ rev (c :: m)).
  rewrite rev_app_distr, rev_involutive. reflexivity.
Qed.

(** The entry of a controller is the template with the interface put in
    and the newline at either end taken off; spaces or newlines at the
    ends of the interface name stay, being inside. *)
Lemma dhcpcd_conf_entry_init (iface : text) :
  dhcpcd_conf_entry (init iface) = static_address_entry iface.
Proof.
  cbn [init dhcpcd_conf_entry]. unfold DHCPCD_CONF_ENTRY_TEMPLATE, static_address_entry.
  transitivity
    (strip (newline :: "i"%char
              :: (lit "nterface " ++ iface ++ [newline]
                  ++ lit "    static ip_address=192.168.4.1/24" ++ [newline]
                  ++ lit "    nohook wpa_supplican")
              ++ ["t"%char; newline])).
  - f_equal. cbn [app lit list_ascii_of_string].
    rewrite <- ?app_assoc. cbn [app]. reflexivity.
  - rewrite strip_between by reflexivity.
    cbn [app lit list_ascii_of_string].
    rewrite <- ?app_assoc. cbn [app]. reflexivity.
Qed.

Lemma set_ap_mode_run
        (env : Env) (iface dhcpcd : text) (w : World) :
  (forall t argv, exit_status env t argv = 0%Z) ->
  files w !! DHCPCD_CONF = Some dhcpcd ->
  let kept := removed_content rpiwifi (universal_newlines dhcpcd) in
  exists w',
    set_ap_mode env (init iface) w = (Ok tt, w')
    /\ files w'
       = <[DHCPCD_CONF := kept ++ entry_block (static_address_entry iface) rpiwifi]>
           (files w)
    /\ trace w'
       = trace w ++ ap_mode_before (init iface)
         ++ [FileWrite DHCPCD_CONF kept;
             FileWrite DHCPCD_CONF (entry_block (static_address_entry iface) rpiwifi)]
         ++ ap_mode_after.
Proof.
  intros Hexit Hf kept. unfold set_ap_mode. eexists. split.
  - rewrite (bind_ok _ _ _ _ _ (run_ok _ _ _ (Hexit _ _))).
    rewrite (bind_ok _ _ _ _ _ (run_ok _ _ _ (Hexit _ _))).
    erewrite bind_ok by (apply add_entry_run; exact Hf).
    rewrite (bind_ok _ _ _ _ _ (run_ok _ _ _ (Hexit _ _))).
    rewrite (bind_ok _ _ _ _ _ (run_ok _ _ _ (Hexit _ _))).
    rewrite (bind_ok _ _ _ _ _ (run_ok _ _ _ (Hexit _ _))).
    reflexivity.
  - rewrite dhcpcd_conf_entry_init. cbn [files trace log].
    split; [reflexivity|]. unfold ap_mode_before, ap_mode_after.
    cbn [interface init]. repeat rewrite <- app_assoc. reflexivity.
Qed.

(** X13.  When every process succeeds and the DHCP client configuration
    exists, [set_ap_mode] puts the static address entry of its interface
    behind what the removal of the previous entry leaves of the text
    that is read from that file (its line ends read as newlines), between
    stopping the DHCP client and starting the access point services. *)
Theorem set_ap_mode_ok
        (env : Env) (iface dhcpcd : text) (w : World) :
  (forall t argv, exit_status env t argv = 0%Z) ->
  files w !! DHCPCD_CONF = Some dhcpcd ->
  let kept := removed_content rpiwifi (universal_newlines dhcpcd) in
  let block :=
    lit "#<begin_rpiwifi_entry>" ++ [newline]
    ++ lit "interface " ++ iface ++ [newline]
    ++ lit "    static ip_address=192.168.4.1/24" ++ [newline]
    ++ lit "    nohook wpa_supplicant" ++ [newline]
    ++ lit "#<end_rpiwifi_entry>" ++ [newline] in
  exists w',
    set_ap_mode env (init iface) w = (Ok tt, w')
    /\ files w' = <[DHCPCD_CONF := kept ++ block]> (files w)
    /\ trace w'
       = trace w ++ ap_mode_before (init iface)
         ++ [FileWrite DHCPCD_CONF kept; FileWrite DHCPCD_CONF block]
         ++ ap_mode_after.
Proof.
  intros Hexit Hf kept block.
  assert (block = entry_block (static_address_entry iface) rpiwifi) as ->.
  { unfold block, entry_block, static_address_entry.
    change (begin_marker rpiwifi) with (lit "#<begin_rpiwifi_entry>").
    change (end_marker rpiwifi) with (lit "#<end_rpiwifi_entry>").
    repeat rewrite <- app_assoc. reflexivity. }
  now apply set_ap_mode_run.
Qed.

Lemma set_ap_mode_ok_witness :
  let kept := removed_content rpiwifi (universal_newlines (lit "hostname" ++ [newline])) in
  let block :=
    lit "#<begin_rpiwifi_entry>" ++ [newline]
    ++ lit "interface " ++ lit "wlan0" ++ [newline]
    ++ lit "    static ip_address=192.168.4.1/24" ++ [newline]
    ++ lit "    nohook wpa_supplicant" ++ [newline]
    ++ lit "#<end_rpiwifi_entry>" ++ [newline] in
  exists w',
    set_ap_mode sample_env (init (lit "wlan0")) sample_world = (Ok tt, w')
    /\ files w' = <[DHCPCD_CONF := kept ++ block]> (files sample_world)
    /\ trace w'
       = trace sample_world ++ ap_mode_before (init (lit "wlan0"))
         ++ [FileWrite DHCPCD_CONF kept; FileWrite DHCPCD_CONF block]
         ++ ap_mode_after.
Proof.
  apply (set_ap_mode_ok sample_env (lit "wlan0") (lit "hostname" ++ [newline])
           sample_world).
  - intros t argv. reflexivity.
  - vm_compute. reflexivity.
Defined.

Lemma set_cli_mode_run
      (env : Env) (self : WifiController) (ssid : option text) (password : text)
      (w : World) (wpa dhcpcd : text) :
  (forall t argv, exit_status env t argv = 0%Z) ->
  password <> [] ->
  files w !! WPA_SUPPLICANT_CONF = Some wpa ->
  files w !! DHCPCD_CONF = Some dhcpcd ->
  exists w' wpa',
    set_cli_mode env self ssid (Some password) w = (Ok true, w')
    /\ files w' !! DHCPCD_CONF
       = Some (removed_content rpiwifi (universal_newlines dhcpcd))
    /\ files w' !! WPA_SUPPLICANT_CONF = Some wpa'
    /\ (truthy ssid = false -> wpa' = wpa).
Proof.
  intros Hexit Hpw Hwpa Hdhcp. unfold set_cli_mode.
  destruct password as [|p0 password]; [congruence|]. cbn [truthy negb].
  rewrite (bind_ok _ _ _ _ _ (run_ok _ _ _ (Hexit _ _))).
  rewrite (bind_ok _ _ _ _ _ (run_ok _ _ _ (Hexit _ _))).
  destruct (truthy ssid).
  - eexists _, _. split; [|split; [|split]].
    + erewrite bind_ok.
      2:{ rewrite (bind_ok _ _ _ _ _ (run_ok _ _ _ (Hexit _ _))).
          apply add_entry_run. exact Hwpa. }
      erewrite bind_ok.
      2:{ apply remove_entry_run. cbn [files]. rewrite lookup_insert_ne by discriminate.
          exact Hdhcp. }
      rewrite (bind_ok _ _ _ _ _ (run_ok _ _ _ (Hexit _ _))).
      rewrite (bind_ok _ _ _ _ _ (run_ok _ _ _ (Hexit _ _))).
      rewrite (bind_ok _ _ _ _ _ (run_ok _ _ _ (Hexit _ _))).
      erewrite bind_ok by reflexivity.
      rewrite (bind_ok _ _ _ _ _ (run_ok _ _ _ (Hexit _ _))).
      reflexivity.
    + cbn [files log]. apply lookup_insert_eq.
    + cbn [files log]. rewrite lookup_insert_ne by discriminate. apply lookup_insert_eq.
    + discriminate.
  - eexists _, _. split; [|split; [|split]].
    + erewrite bind_ok by reflexivity.
      erewrite bind_ok by (apply remove_entry_run; exact Hdhcp).
      rewrite (bind_ok _ _ _ _ _ (run_ok _ _ _ (Hexit _ _))).
      rewrite (bind_ok _ _ _ _ _ (run_ok _ _ _ (Hexit _ _))).
      rewrite (bind_ok _ _ _ _ _ (run_ok _ _ _ (Hexit _ _))).
      erewrite bind_ok by reflexivity.
      rewrite (bind_ok _ _ _ _ _ (run_ok _ _ _ (Hexit _ _))).
      reflexivity.
    + cbn [files log]. apply lookup_insert_eq.
    + cbn [files log]. rewrite lookup_insert_ne by discriminate. exact Hwpa.
    + reflexivity.
Qed.

(** One change to access point mode and back, on a file without a begin
    marker: the text of the file with a newline behind it. *)
Lemma switch_modes_once
      (env : Env) (iface : text) (ssid : option text) (password : text)
      (w : World) (wpa dhcpcd : text) :
  (forall t argv, exit_status env t argv = 0%Z) ->
  password <> [] ->
  files w !! WPA_SUPPLICANT_CONF = Some wpa ->
  files w !! DHCPCD_CONF = Some dhcpcd ->
  ~ occurs (begin_marker rpiwifi) dhcpcd ->
  exists w1 w2 wpa',
    set_ap_mode env (init iface) w = (Ok tt, w1)
    /\ set_cli_mode env (init iface) ssid (Some password) w1 = (Ok true, w2)
    /\ files w2 !! WPA_SUPPLICANT_CONF = Some wpa'
    /\ files w2 !! DHCPCD_CONF = Some (universal_newlines dhcpcd ++ [newline]).
Proof.
  intros Hexit Hpw Hwpa Hdhcp Hocc.
  assert (plain_identifier rpiwifi) as Hp by reflexivity.
  pose proof (no_begin_read _ _ Hp Hocc) as Hread.
  destruct (set_ap_mode_run env iface dhcpcd w Hexit Hdhcp) as (w1 & Hap & Hf1 & _).
  rewrite (removed_content_no_begin _ _ Hread) in Hf1.
  destruct (set_cli_mode_run env (init iface) ssid password w1 wpa
              (universal_newlines dhcpcd
               ++ entry_block (static_address_entry iface) rpiwifi) Hexit Hpw)
    as (w2 & wpa' & Hcli & Hf2 & Hwpa2 & _).
  { rewrite Hf1. rewrite lookup_insert_ne by discriminate. exact Hwpa. }
  { rewrite Hf1. apply lookup_insert_eq. }
  exists w1, w2, wpa'.
  split; [exact Hap|]. split; [exact Hcli|]. split; [exact Hwpa2|].
  etransitivity; [exact Hf2|]. f_equal.
  destruct (read_entry_block (static_address_entry iface) rpiwifi Hp)
    as (entry' & Hblock & _).
  rewrite universal_newlines_app by apply universal_newlines_no_cr.
  rewrite Hblock. now apply removed_added_block.
Qed.

(** X14.  Every change to access point mode and back leaves a newline at the
    end of the DHCP client configuration: after one or more such changes
    a file that held no begin marker holds its text (the line ends as
    newlines) with one newline behind it for every change. *)
Theorem switch_modes_grows_file
        (env : Env) (n : nat) (iface : text) (ssid : option text) (password : text)
        (w : World) (wpa dhcpcd : text) :
  (forall t argv, exit_status env t argv = 0%Z) ->
  password <> [] ->
  files w !! WPA_SUPPLICANT_CONF = Some wpa ->
  files w !! DHCPCD_CONF = Some dhcpcd ->
  occursb (begin_marker rpiwifi) dhcpcd = false ->
  exists w',
    switch_modes env (S n) (init iface) ssid password w = (Ok tt, w')
    /\ files w' !! DHCPCD_CONF
       = Some (universal_newlines dhcpcd ++ repeat newline (S n)).
Proof.
  intros Hexit Hpw Hwpa Hdhcp Hb.
  assert (~ occurs (begin_marker rpiwifi) dhcpcd) as Hocc
    by (rewrite <- occursb_spec, Hb; discriminate).
  clear Hb. revert w wpa dhcpcd Hwpa Hdhcp Hocc.
  induction n as [|n IH]; intros w wpa dhcpcd Hwpa Hdhcp Hocc;
    destruct (switch_modes_once env iface ssid password w wpa dhcpcd
                Hexit Hpw Hwpa Hdhcp Hocc)
      as (w1 & w2 & wpa' & Hap & Hcli & Hwpa2 & Hf2);
    cbn [switch_modes] in *;
    rewrite (bind_ok _ _ _ _ _ Hap), (bind_ok _ _ _ _ _ Hcli).
  - exists w2. split; [reflexivity | exact Hf2].
  - destruct (IH w2 wpa' (universal_newlines dhcpcd ++ [newline]) Hwpa2 Hf2)
      as (w' & Hrun & Hf').
    { apply no_begin_snoc_newline; [reflexivity|]. now apply no_begin_read. }
    exists w'. split; [exact Hrun|]. rewrite Hf'. f_equal.
    rewrite universal_newlines_same.
    + rewrite <- app_assoc. reflexivity.
    + intros Hin. apply in_app_or in Hin as [Hin|Hin];
        [now apply (universal_newlines_no_cr dhcpcd) | revert Hin; not_in_literal].
Qed.

Lemma switch_modes_grows_file_witness :
  exists w',
    switch_modes sample_env 3 (init (lit "wlan0")) None (lit "secretpw") sample_world
    = (Ok tt, w')
    /\ files w' !! DHCPCD_CONF
       = Some (universal_newlines (lit "hostname" ++ [newline]) ++ repeat newline 3).
Proof.
  apply (switch_modes_grows_file sample_env 2 (lit "wlan0") None (lit "secretpw")
           sample_world (lit "country=AT" ++ [newline]) (lit "hostname" ++ [newline])).
  - intros t argv. reflexivity.
  - discriminate.
  - vm_compute. reflexivity.
  - vm_compute. reflexivity.
  - vm_compute. reflexivity.
Defined.

(** ** Steps that fail *)

(** X15.  Nothing is rolled back.  When the DHCP client configuration is
    missing, [set_cli_mode] raises [FileNotFoundError] only after the new
    entry, the output of [wpa_passphrase] without the lines that the
    pattern of the plain text password matches, is in the WPA supplicant
    configuration behind what the removal left of the text read from it
    (the line ends as newlines), and with the DHCP client stopped: none
    of the later processes is run. *)
Theorem set_cli_mode_no_rollback
        (env : Env) (self : WifiController) (ssid password : text) (w : World)
        (wpa : text) :
  (forall t argv, exit_status env t argv = 0%Z) ->
  ssid <> [] -> password <> [] ->
  files w !! WPA_SUPPLICANT_CONF = Some wpa ->
  files w !! DHCPCD_CONF = None ->
  let kept := removed_content rpiwifi (universal_newlines wpa) in
  let stopped :=
    trace w
    ++ [Exec (dhcpcd_release self); Exec [lit "service"; lit "dhcpcd"; lit "stop"]] in
  let entry :=
    re_sub psk_comment_pattern [] (output env stopped (wpa_passphrase ssid password)) in
  exists w',
    set_cli_mode env self (Some ssid) (Some password) w
    = (Raise (FileNotFoundError DHCPCD_CONF), w')
    /\ files w' !! WPA_SUPPLICANT_CONF = Some (kept ++ entry_block entry rpiwifi)
    /\ files w' !! DHCPCD_CONF = None
    /\ trace w'
       = trace w
         ++ [Exec (dhcpcd_release self);
             Exec [lit "service"; lit "dhcpcd"; lit "stop"];
             Exec (wpa_passphrase ssid password);
             FileWrite WPA_SUPPLICANT_CONF kept;
             FileWrite WPA_SUPPLICANT_CONF (entry_block entry rpiwifi)].
Proof.
  intros Hexit Hssid Hpw Hwpa Hdhcp kept stopped entry.
  assert ((trace w ++ [Exec (dhcpcd_release self)])
          ++ [Exec [lit "service"; lit "dhcpcd"; lit "stop"]] = stopped) as Hstopped
    by (unfold stopped; now rewrite <- app_assoc).
  unfold set_cli_mode.
  destruct ssid as [|s0 ssid]; [congruence|].
  destruct password as [|p0 password]; [congruence|]. cbn [truthy negb arg default].
  eexists. split; [|split; [|split]].
  - rewrite (bind_ok _ _ _ _ _ (run_ok _ _ _ (Hexit _ _))).
    rewrite (bind_ok _ _ _ _ _ (run_ok _ _ _ (Hexit _ _))).
    erewrite bind_ok.
    2:{ rewrite (bind_ok _ _ _ _ _ (run_ok _ _ _ (Hexit _ _))).
        cbn [trace log]. fold (dhcpcd_release self).
        fold (wpa_passphrase (s0 :: ssid) (p0 :: password)).
        rewrite Hstopped. fold entry.
        apply add_entry_run. exact Hwpa. }
    apply bind_raise. unfold remove_entry_from_config.
    apply replace_in_file_missing. cbn [files log].
    rewrite lookup_insert_ne by discriminate. exact Hdhcp.
  - cbn [files log]. apply lookup_insert_eq.
  - cbn [files log]. rewrite lookup_insert_ne by discriminate. exact Hdhcp.
  - cbn [trace log]. rewrite Hstopped. unfold stopped.
    repeat rewrite <- app_assoc. reflexivity.
Qed.

Lemma set_cli_mode_no_rollback_witness :
  let kept := removed_content rpiwifi (universal_newlines (lit "country=AT")) in
  let stopped :=
    []
    ++ [Exec (dhcpcd_release (init (lit "wlan0")));
        Exec [lit "service"; lit "dhcpcd"; lit "stop"]] in
  let entry :=
    re_sub psk_comment_pattern []
      (output sample_env stopped (wpa_passphrase (lit "home") (lit "secretpw"))) in
  exists w',
    set_cli_mode sample_env (init (lit "wlan0")) (Some (lit "home"))
      (Some (lit "secretpw"))
      {| files := {[ WPA_SUPPLICANT_CONF := lit "country=AT" ]}; trace := [] |}
    = (Raise (FileNotFoundError DHCPCD_CONF), w')
    /\ files w' !! WPA_SUPPLICANT_CONF = Some (kept ++ entry_block entry rpiwifi)
    /\ files w' !! DHCPCD_CONF = None
    /\ trace w'
       = []
         ++ [Exec (dhcpcd_release (init (lit "wlan0")));
             Exec [lit "service"; lit "dhcpcd"; lit "stop"];
             Exec (wpa_passphrase (lit "home") (lit "secretpw"));
             FileWrite WPA_SUPPLICANT_CONF kept;
             FileWrite WPA_SUPPLICANT_CONF (entry_block entry rpiwifi)].
Proof.
  apply (set_cli_mode_no_rollback sample_env (init (lit "wlan0")) (lit "home")
           (lit "secretpw")
           {| files := {[ WPA_SUPPLICANT_CONF := lit "country=AT" ]}; trace := [] |}
           (lit "country=AT")).
  - intros t argv. reflexivity.
  - discriminate.
  - discriminate.
  - vm_compute. reflexivity.
  - vm_compute. reflexivity.
Defined.

(** X16.  Both changes of mode begin by releasing the DHCP lease.  When that
    process exits with another status than 0, either function raises
    [CalledProcessError] with that status at once: no other process is
    run and no file is touched. *)
Theorem mode_change_stops_at_failed_release
        (env : Env) (self : WifiController) (ssid : option text) (password : text)
        (w : World) :
  password <> [] ->
  exit_status env (trace w) (dhcpcd_release self) <> 0%Z ->
  let status := exit_status env (trace w) (dhcpcd_release self) in
  let w' := {| files := files w; trace := trace w ++ [Exec (dhcpcd_release self)] |} in
  set_ap_mode env self w = (Raise (CalledProcessError (dhcpcd_release self) status), w')
  /\ set_cli_mode env self ssid (Some password) w
     = (Raise (CalledProcessError (dhcpcd_release self) status), w').
Proof.
  intros Hpw Hexit status w'. split.
  - unfold set_ap_mode. apply bind_raise. now apply run_fail.
  - unfold set_cli_mode. destruct password as [|p0 password]; [congruence|].
    cbn [truthy negb]. apply bind_raise. now apply run_fail.
Qed.

Lemma mode_change_stops_at_failed_release_witness :
  let self := init (lit "wlan0") in
  let status := exit_status broken_env (trace sample_world) (dhcpcd_release self) in
  let w' := {| files := files sample_world;
               trace := trace sample_world ++ [Exec (dhcpcd_release self)] |} in
  set_ap_mode broken_env self sample_world
  = (Raise (CalledProcessError (dhcpcd_release self) status), w')
  /\ set_cli_mode broken_env self None (Some (lit "secretpw")) sample_world
     = (Raise (CalledProcessError (dhcpcd_release self) status), w').
Proof.
  apply (mode_change_stops_at_failed_release broken_env (init (lit "wlan0")) None
           (lit "secretpw") sample_world).
  - discriminate.
  - discriminate.
Defined.

(** ** The matcher with word boundaries *)

Lemma last_char_cons (prev : option ascii) (c : ascii) (w : text) :
  last_char prev (c :: w) = last_char (Some c) w.
Proof.
  unfold last_char. cbn [rev]. destruct (rev w); reflexivity.
Qed.

Lemma last_char_app (prev : option ascii) (a b : text) :
  last_char prev (a ++ b) = last_char (last_char prev a) b.
Proof.
  revert prev. induction a as [|c a IH]; intros prev; [reflexivity|].
  cbn [app]. now rewrite !last_char_cons.
Qed.

Lemma last_char_snoc (prev : option ascii) (a : text) (c : ascii) :
  last_char prev (a ++ [c]) = Some c.
Proof. unfold last_char. now rewrite rev_app_distr. Qed.

Lemma wmatch_literal_app (w : text) (p : wregex) (prev : option ascii) (s : text) :
  wmatch_here (wliteral w ++ p) prev (w ++ s) = wmatch_here p (last_char prev w) s.
Proof.
  revert prev. induction w as [|c w IH]; intros prev; [reflexivity|].
  cbn [wliteral map app wmatch_here atom_ok]. rewrite Ascii.eqb_refl.
  fold (wliteral w). rewrite IH. now rewrite last_char_cons.
Qed.

Lemma wmatch_literal_inv (w : text) (p : wregex) (prev : option ascii) (s : text)
      (r : option ascii * text) :
  wmatch_here (wliteral w ++ p) prev s = Some r ->
  exists s', s = w ++ s' /\ wmatch_here p (last_char prev w) s' = Some r.
Proof.
  revert prev s. induction w as [|c w IH]; intros prev s.
  - cbn. eauto.
  - cbn [wliteral map app wmatch_here atom_ok]. fold (wliteral w).
    destruct s as [|d s]; [discriminate|].
    destruct (Ascii.eqb c d) eqn:E; [|discriminate].
    apply Ascii.eqb_eq in E as <-. intros H.
    destruct (IH _ _ H) as (s' & -> & H'). exists s'.
    split; [reflexivity|]. now rewrite last_char_cons.
Qed.

Lemma wmatch_star_inv (a : atom) (k : option ascii -> text -> option (option ascii * text))
      (prev : option ascii) (s : text) (r : option ascii * text) :
  wmatch_star a k prev s = Some r ->
  exists u v, s = u ++ v /\ forallb (atom_ok a) u = true
              /\ k (last_char prev u) v = Some r.
Proof.
  revert prev. induction s as [|c s IH]; intros prev; cbn [wmatch_star].
  - intros H. exists [], []. auto.
  - destruct (atom_ok a c) eqn:Hc.
    + destruct (wmatch_star a k (Some c) s) as [r'|] eqn:Hs.
      * intros [= ->]. destruct (IH _ Hs) as (u & v & -> & Hu & Hk).
        exists (c :: u), v. rewrite last_char_cons. cbn [forallb]. rewrite Hc. auto.
      * intros H. exists [], (c :: s). auto.
    + intros H. exists [], (c :: s). auto.
Qed.

Lemma wmatch_star_none (a : atom) (k : option ascii -> text -> option (option ascii * text))
      (prev : option ascii) (s : text) :
  (forall u v, s = u ++ v -> forallb (atom_ok a) u = true ->
               k (last_char prev u) v = None) ->
  wmatch_star a k prev s = None.
Proof.
  intros H. destruct (wmatch_star a k prev s) as [r|] eqn:E; [|reflexivity].
  apply wmatch_star_inv in E as (u & v & Hs & Hu & Hk).
  rewrite (H u v Hs Hu) in Hk. discriminate.
Qed.

Lemma wmatch_star_greedy (a : atom)
      (k : option ascii -> text -> option (option ascii * text))
      (prev : option ascii) (u v : text) (r : option ascii * text) :
  forallb (atom_ok a) u = true ->
  k (last_char prev u) v = Some r ->
  (forall v1 v2, v = v1 ++ v2 -> v1 <> [] -> forallb (atom_ok a) v1 = true ->
                 k (last_char prev (u ++ v1)) v2 = None) ->
  wmatch_star a k prev (u ++ v) = Some r.
Proof.
  revert prev. induction u as [|c u IH]; intros prev Hu Hk Hlast.
  - cbn [app]. destruct v as [|d v]; cbn [wmatch_star]; [exact Hk|].
    destruct (atom_ok a d) eqn:Hd; [|exact Hk].
    rewrite wmatch_star_none; [exact Hk|].
    intros v1 v2 -> Hv1. rewrite <- (last_char_cons prev).
    apply (Hlast (d :: v1) v2); [reflexivity | discriminate|].
    cbn [forallb]. now rewrite Hd.
  - cbn [forallb] in Hu. apply andb_true_iff in Hu as [Hc Hu].
    cbn [app wmatch_star]. rewrite Hc, (IH (Some c)); [reflexivity | exact Hu | |].
    + now rewrite <- (last_char_cons prev).
    + intros v1 v2 Hv Hv1 Hall. rewrite <- (last_char_cons prev). now apply Hlast.
Qed.

Lemma wsub_loop_fuel (p : wregex) (repl : template) (n m : nat) (prev : option ascii)
      (s : text) :
  length s < n -> length s < m ->
  wsub_loop n p repl prev s = wsub_loop m p repl prev s.
Proof.
  revert m prev s. induction n as [|n IH]; intros m prev s Hn Hm; [lia|].
  destruct m as [|m]; [lia|]. cbn [wsub_loop].
  destruct (wmatch_here p prev s) as [[prev' r]|].
  - destruct (Nat.ltb_spec (length r) (length s)).
    + f_equal. apply IH; lia.
    + destruct s as [|c s]; [reflexivity|]. cbn [length] in *.
      do 2 f_equal. apply IH; lia.
  - destruct s as [|c s]; [reflexivity|]. cbn [length] in *. f_equal. apply IH; lia.
Qed.

Lemma wsub_skip (p : wregex) (repl : template) (prev : option ascii) (c : ascii)
      (s : text) :
  wmatch_here p prev (c :: s) = None ->
  wsub_from p repl prev (c :: s) = c :: wsub_from p repl (Some c) s.
Proof.
  intros H. unfold wsub_from. set (rest := wsub_loop (S (length s)) p repl (Some c) s).
  cbn [wsub_loop length]. rewrite H. reflexivity.
Qed.

Lemma wsub_match (p : wregex) (repl : template) (prev prev' : option ascii)
      (s r : text) :
  wmatch_here p prev s = Some (prev', r) -> length r < length s ->
  wsub_from p repl prev s
  = expand_template repl (take (length s - length r) s) ++ wsub_from p repl prev' r.
Proof.
  intros H Hlt. unfold wsub_from.
  set (rest := wsub_loop (S (length r)) p repl prev' r).
  cbn [wsub_loop]. rewrite H. destruct (Nat.ltb_spec (length r) (length s)); [|lia].
  f_equal. apply wsub_loop_fuel; lia.
Qed.

Lemma wsub_no_match (p : wregex) (repl : template) (prev : option ascii) (s : text) :
  (forall a b, s = a ++ b -> wmatch_here p (last_char prev a) b = None) ->
  wsub_from p repl prev s = s.
Proof.
  revert prev. induction s as [|c s IH]; intros prev H.
  - unfold wsub_from. cbn [wsub_loop length].
    now rewrite (H [] [] eq_refl : wmatch_here p prev [] = None).
  - rewrite wsub_skip by (apply (H []); reflexivity).
    f_equal. apply IH. intros a b ->. rewrite <- (last_char_cons prev).
    apply (H (c :: a)). reflexivity.
Qed.

Lemma wsub_first_match (p : wregex) (repl : template) (prev prev' : option ascii)
      (a s r : text) :
  (forall a1 a2, a = a1 ++ a2 -> a2 <> [] ->
                 wmatch_here p (last_char prev a1) (a2 ++ s) = None) ->
  wmatch_here p (last_char prev a) s = Some (prev', r) -> length r < length s ->
  wsub_from p repl prev (a ++ s)
  = a ++ expand_template repl (take (length s - length r) s)
    ++ wsub_from p repl prev' r.
Proof.
  revert prev. induction a as [|c a IH]; intros prev Ha Hm Hlt; cbn [app].
  - now apply wsub_match.
  - rewrite wsub_skip.
    + f_equal. apply IH; [|now rewrite <- (last_char_cons prev) | exact Hlt].
      intros a1 a2 -> Ha2. rewrite <- (last_char_cons prev).
      apply (Ha (c :: a1)); [reflexivity | exact Ha2].
    + apply (Ha [] (c :: a)); [reflexivity | discriminate].
Qed.

(** ** The pattern of a key and its value *)

Lemma key_match_inv (key : text) (prev : option ascii) (s : text)
      (r : option ascii * text) :
  wmatch_here (key_pattern key) prev s = Some r ->
  at_boundary prev s = true
  /\ exists m, m <> [] /\ s = key ++ m ++ r.2.
Proof.
  unfold key_pattern. cbn [app wmatch_here].
  destruct (at_boundary prev s); [|discriminate]. intros H. split; [reflexivity|].
  apply wmatch_literal_inv in H as (s' & -> & H). cbn [wmatch_here] in H.
  destruct s' as [|c s']; [discriminate|].
  destruct (atom_ok (NoneOf [newline]) c); [|discriminate].
  apply wmatch_star_inv in H as (u & v & -> & _ & H).
  destruct (at_boundary _ v); [|discriminate]. injection H as <-.
  exists (c :: u). split; [discriminate | reflexivity].
Qed.

Lemma at_boundary_false_false (prev : option ascii) (s : text) :
  match prev with Some c => re_word c | None => false end = false ->
  match s with c :: _ => re_word c | [] => false end = false ->
  at_boundary prev s = false.
Proof. intros H1 H2. unfold at_boundary. now rewrite H1, H2. Qed.

Lemma no_word_head (junk rest : text) :
  no_word junk = true -> line_end rest = true ->
  match junk ++ rest with c :: _ => re_word c | [] => false end = false.
Proof.
  intros Hj Hr. destruct junk as [|c junk]; cbn [app].
  - destruct rest as [|c rest]; [reflexivity|]. cbn [line_end] in Hr.
    apply Ascii.eqb_eq in Hr as ->. reflexivity.
  - cbn [no_word forallb] in Hj. apply andb_true_iff in Hj as [Hc _].
    apply andb_true_iff in Hc as [Hc _]. now apply negb_true_iff in Hc.
Qed.

Lemma no_word_last (prev : option ascii) (junk : text) :
  no_word junk = true -> junk <> [] ->
  match last_char prev junk with Some c => re_word c | None => false end = false.
Proof.
  intros Hj Hne. destruct (exists_last Hne) as (j & c & ->).
  rewrite last_char_snoc. unfold no_word in Hj. rewrite forallb_app in Hj.
  apply andb_true_iff in Hj as [_ Hc]. cbn [forallb] in Hc.
  rewrite andb_true_r in Hc. apply andb_true_iff in Hc as [Hc _].
  now apply negb_true_iff in Hc.
Qed.

(** The match of a key at a word boundary: the value is taken up to its
    last word character. *)
Lemma key_match (key old junk rest : text) (prev : option ascii) (k0 : ascii)
      (key' : text) :
  key = k0 :: key' -> re_word k0 = true ->
  match prev with Some c => re_word c | None => false end = false ->
  one_line old = true -> ends_in_word old = true ->
  no_word junk = true -> line_end rest = true ->
  wmatch_here (key_pattern key) prev (key ++ old ++ junk ++ rest)
  = Some (last_char None old, junk ++ rest).
Proof.
  intros Hkey Hk0 Hprev Hol Hew Hj Hr. unfold key_pattern. cbn [app wmatch_here].
  assert (at_boundary prev (key ++ old ++ junk ++ rest) = true) as ->.
  { unfold at_boundary. rewrite Hprev, Hkey. cbn [app]. now rewrite Hk0. }
  rewrite wmatch_literal_app. cbn [wmatch_here].
  destruct old as [|o0 old]; [discriminate Hew|].
  cbn [one_line forallb] in Hol. apply andb_true_iff in Hol as [Ho0 Hol].
  cbn [app]. rewrite Ho0.
  assert (forall p, last_char p (o0 :: old) = last_char None (o0 :: old)) as Hlc.
  { intros p. now rewrite !last_char_cons. }
  apply wmatch_star_greedy; [exact Hol | |].
  - cbn [wmatch_here]. rewrite <- (last_char_cons (last_char prev key)), Hlc.
    unfold at_boundary. unfold ends_in_word in Hew.
    destruct (last_char None (o0 :: old)) as [l|]; [|discriminate Hew].
    rewrite Hew, (no_word_head _ _ Hj Hr). reflexivity.
  - intros v1 v2 Hv Hv1 Hall. cbn [wmatch_here].
    rewrite at_boundary_false_false; [reflexivity | |].
    + destruct (Nat.le_gt_cases (length v1) (length junk)) as [Hle|Hgt].
      * symmetry in Hv. apply app_eq_app_le in Hv as (j2 & -> & _); [|exact Hle].
        rewrite last_char_app. apply no_word_last; [|exact Hv1].
        unfold no_word in *. rewrite forallb_app in Hj.
        now apply andb_true_iff in Hj as [Hj _].
      * exfalso. apply app_eq_app_le in Hv as (r1 & -> & ->); [|lia].
        destruct r1 as [|c r1]; [rewrite app_nil_r in Hgt; lia|].
        cbn [line_end] in Hr. apply Ascii.eqb_eq in Hr as ->.
        rewrite forallb_app in Hall. apply andb_true_iff in Hall as [_ Hall].
        cbn in Hall. discriminate Hall.
    + destruct (Nat.le_gt_cases (length v1) (length junk)) as [Hle|Hgt].
      * symmetry in Hv. apply app_eq_app_le in Hv as (j2 & -> & ->); [|exact Hle].
        apply no_word_head; [|exact Hr].
        unfold no_word in *. rewrite forallb_app in Hj.
        now apply andb_true_iff in Hj as [_ Hj].
      * exfalso. apply app_eq_app_le in Hv as (r1 & -> & ->); [|lia].
        destruct r1 as [|c r1]; [rewrite app_nil_r in Hgt; lia|].
        cbn [line_end] in Hr. apply Ascii.eqb_eq in Hr as ->.
        rewrite forallb_app in Hall. apply andb_true_iff in Hall as [_ Hall].
        cbn in Hall. discriminate Hall.
Qed.

Lemma key_free_no_match (key : text) (k0 : ascii) (key' : text)
      (prev : option ascii) (s : text) :
  key = k0 :: key' -> re_word k0 = true ->
  (starts_with key s = true ->
   match prev with Some c => re_word c | None => false end = true) ->
  wmatch_here (key_pattern key) prev s = None.
Proof.
  intros Hkey Hk0 Hfree.
  destruct (wmatch_here (key_pattern key) prev s) as [r|] eqn:E; [|reflexivity].
  exfalso. apply key_match_inv in E as (Hb & m & _ & Hs).
  unfold at_boundary in Hb. rewrite Hfree in Hb by (rewrite Hs; apply starts_with_app).
  rewrite Hs, Hkey in Hb. cbn [app] in Hb. rewrite Hk0 in Hb. discriminate Hb.
Qed.

Lemma key_free_here (key : text) (prev : option ascii) (s : text) :
  key_free key prev s = true ->
  starts_with key s = true ->
  match prev with Some c => re_word c | None => false end = true.
Proof.
  intros H Hs. destruct s as [|c s]; cbn [key_free] in H; rewrite Hs in H;
    now apply andb_true_iff in H as [H _].
Qed.

Lemma key_free_app (key : text) (prev : option ascii) (a b : text) :
  key_free key prev (a ++ b) = true -> key_free key (last_char prev a) b = true.
Proof.
  revert prev. induction a as [|c a IH]; intros prev H; [exact H|].
  rewrite last_char_cons. apply IH. cbn [app key_free] in H.
  now apply andb_true_iff in H as [_ H].
Qed.

Lemma wre_sub_from (p : wregex) (repl : template) (s : text) :
  wre_sub p repl s = wsub_from p repl None s.
Proof. reflexivity. Qed.

Lemma key_free_unchanged (key : text) (repl : template) (k0 : ascii) (key' : text)
      (prev : option ascii) (s : text) :
  key = k0 :: key' -> re_word k0 = true ->
  key_free key prev s = true ->
  wsub_from (key_pattern key) repl prev s = s.
Proof.
  intros Hkey Hk0 Hfree. apply wsub_no_match. intros a b ->.
  apply (key_free_no_match key k0 key' _ _ Hkey Hk0).
  apply key_free_here. now apply key_free_app.
Qed.

(** One substitution of [set_ap_credentials], on a text in which the key
    stands once at a word boundary: the key and its value, up to the last
    word character of the value, are what is matched and replaced, and
    what follows that on the line stays. *)
Lemma key_value_replaced (key : text) (repl : template) (pre old junk rest : text)
      (k0 : ascii) (key' : text) :
  key = k0 :: key' -> re_word k0 = true ->
  forallb re_word (removelast key) = true ->
  key_free key None pre = true -> ends_in_word pre = false ->
  one_line old = true -> ends_in_word old = true ->
  no_word junk = true -> line_end rest = true ->
  key_free key (last_char None old) (junk ++ rest) = true ->
  wre_sub (key_pattern key) repl (pre ++ key ++ old ++ junk ++ rest)
  = pre ++ expand_template repl (key ++ old) ++ junk ++ rest.
Proof.
  intros Hkey Hk0 Hbody Hpre Hpw Hol Hew Hj Hr Hrest.
  change (wre_sub ?p ?t ?s) with (wsub_from p t None s).
  rewrite (wsub_first_match _ _ None (last_char None old) pre _ (junk ++ rest)).
  - f_equal. f_equal.
    + f_equal. rewrite (app_assoc key old), length_app.
      replace (length (key ++ old) + length (junk ++ rest) - length (junk ++ rest))
        with (length (key ++ old)) by lia.
      apply take_app_length.
    + now apply (key_free_unchanged key _ k0 key').
  - intros a1 a2 -> Ha2.
    destruct (wmatch_here _ _ (a2 ++ _)) as [r|] eqn:E; [|reflexivity].
    exfalso. pose proof E as E'. apply key_match_inv in E as (Hb & m & _ & Hs).
    destruct (Nat.le_gt_cases (length key) (length a2)) as [Hle|Hgt].
    + symmetry in Hs. apply app_eq_app_le in Hs as (m' & -> & _); [|exact Hle].
      rewrite (key_free_no_match key k0 key' _ _ Hkey Hk0) in E'; [discriminate|].
      intros _. apply key_free_app in Hpre.
      apply (key_free_here _ _ _ Hpre). apply starts_with_app.
    + apply app_eq_app_le in Hs as (w2 & Hw2 & _); [|lia].
      assert (w2 <> []) as Hne by (intros ->; rewrite Hw2, app_nil_r in Hgt; lia).
      rewrite Hw2, removelast_app in Hbody by exact Hne.
      rewrite forallb_app in Hbody. apply andb_true_iff in Hbody as [Ha2w _].
      destruct (exists_last Ha2) as (a2' & c & ->).
      rewrite forallb_app in Ha2w. apply andb_true_iff in Ha2w as [_ Hc].
      cbn [forallb] in Hc. rewrite andb_true_r in Hc.
      unfold ends_in_word in Hpw. rewrite app_assoc, last_char_snoc in Hpw.
      congruence.
  - apply (key_match key old junk rest _ k0 key'); assumption.
  - repeat rewrite length_app. rewrite Hkey. cbn [length]. lia.
Qed.

(** ** The credentials of the access point *)

Lemma plain_replacement_app (a b : text) :
  plain_replacement a -> plain_replacement b -> plain_replacement (a ++ b).
Proof.
  unfold plain_replacement. intros Ha Hb H. apply in_app_or in H as [H|H]; tauto.
Qed.

Lemma plain_ssid_key : plain_replacement ssid_key.
Proof. not_in_literal. Qed.

Lemma plain_passphrase_key : plain_replacement passphrase_key.
Proof. not_in_literal. Qed.

Lemma leaves_files_get_mode (env : Env) (self : WifiController) :
  leaves_files (get_mode env self).
Proof.
  intros w. unfold get_mode, mbind, M_bind, bind, call. cbn.
  now destruct (_ =? _)%Z.
Qed.

Lemma leaves_files_restart (env : Env) (self : WifiController) :
  leaves_files
    (mode ← get_mode env self;
     if decide (mode = AP_MODE) then run env restart_hostapd;; mret tt else mret tt).
Proof.
  apply leaves_files_bind; [apply leaves_files_get_mode|]. intros mode.
  destruct (decide (mode = AP_MODE)); [|apply leaves_files_ret].
  apply leaves_files_bind; [apply leaves_files_run|]. intros _. apply leaves_files_ret.
Qed.

Lemma get_mode_run (env : Env) (self : WifiController) (w : World) :
  get_mode env self w
  = (Ok (if (exit_status env (trace w) is_active_query =? 0)%Z
         then AP_MODE else CLI_MODE),
     log (Exec is_active_query) w).
Proof.
  unfold get_mode, mbind, M_bind, bind, call. fold is_active_query.
  now destruct (_ =? _)%Z.
Qed.

(** The two rewrites of [set_ap_credentials] with a name and a passphrase
    that make well-formed templates: the second call reads what the first
    one wrote. *)
Lemma set_ap_credentials_run
      (env : Env) (self : WifiController) (name password content : text)
      (t1 t2 : template) (w : World) :
  files w !! HOSTAPD_CONF = Some content ->
  parse_template (ssid_key ++ name) = Ok t1 ->
  parse_template (passphrase_key ++ password) = Ok t2 ->
  let c1 := wre_sub (key_pattern ssid_key) t1 (universal_newlines content) in
  let c2 := wre_sub (key_pattern passphrase_key) t2 (universal_newlines c1) in
  set_ap_credentials env self name password w
  = (mode ← get_mode env self;
     if decide (mode = AP_MODE) then run env restart_hostapd;; mret tt else mret tt)
      {| files := <[HOSTAPD_CONF := c2]> (files w);
         trace := trace w ++ [FileWrite HOSTAPD_CONF c1; FileWrite HOSTAPD_CONF c2] |}.
Proof.
  intros Hf H1 H2 c1 c2. unfold set_ap_credentials.
  rewrite (bind_ok _ _ _ _ _ (replace_in_file_run _ _ _ _ _ _ Hf H1)).
  erewrite bind_ok
    by (apply replace_in_file_run; [cbn [files]; apply lookup_insert_eq | exact H2]).
  f_equal. cbn [files trace substituted]. fold c1. fold c2.
  f_equal; [apply insert_insert_eq|]. now rewrite <- app_assoc.
Qed.

(** The content of the file after [set_ap_credentials], whatever the
    mode query and the restart do. *)
Lemma set_ap_credentials_file
      (env : Env) (self : WifiController) (name password content : text)
      (t1 t2 : template) (w : World) :
  files w !! HOSTAPD_CONF = Some content ->
  parse_template (ssid_key ++ name) = Ok t1 ->
  parse_template (passphrase_key ++ password) = Ok t2 ->
  files (set_ap_credentials env self name password w).2
  = <[HOSTAPD_CONF :=
        wre_sub (key_pattern passphrase_key) t2
          (universal_newlines
             (wre_sub (key_pattern ssid_key) t1 (universal_newlines content)))]>
      (files w).
Proof.
  intros Hf H1 H2. rewrite (set_ap_credentials_run _ _ _ _ _ _ _ _ Hf H1 H2).
  now rewrite leaves_files_restart.
Qed.

(** X17.  The file is read with every line end as a newline.  When in the
    text as read each of the two keys stands once at a word boundary, and
    the new name and passphrase hold no backslash and the name no carriage
    return, [set_ap_credentials] puts the new name and the new passphrase
    in place of the old values.  A value is replaced up to its last word
    character only: punctuation at the end of the old value stays behind
    the new one.  Keys with a word character in front, as in
    [ignore_broadcast_ssid=], are not taken for the key. *)
Theorem set_ap_credentials_replaces_values
        (env : Env) (self : WifiController) (name password content : text) (w : World)
        (pre old1 junk1 mid old2 junk2 rest : text) :
  let after_ssid := mid ++ passphrase_key ++ old2 ++ junk2 ++ rest in
  let before_passphrase := pre ++ (ssid_key ++ name) ++ junk1 ++ mid in
  plain_replacement name -> ~ In carriage_return name ->
  plain_replacement password ->
  files w !! HOSTAPD_CONF = Some content ->
  universal_newlines content = pre ++ ssid_key ++ old1 ++ junk1 ++ after_ssid ->
  key_free ssid_key None pre = true -> ends_in_word pre = false ->
  one_line old1 = true -> ends_in_word old1 = true ->
  no_word junk1 = true -> line_end after_ssid = true ->
  key_free ssid_key (last_char None old1) (junk1 ++ after_ssid) = true ->
  key_free passphrase_key None before_passphrase = true ->
  ends_in_word before_passphrase = false ->
  one_line old2 = true -> ends_in_word old2 = true ->
  no_word junk2 = true -> line_end rest = true ->
  key_free passphrase_key (last_char None old2) (junk2 ++ rest) = true ->
  files (set_ap_credentials env self name password w).2 !! HOSTAPD_CONF
  = Some (pre ++ (ssid_key ++ name) ++ junk1 ++ mid
          ++ (passphrase_key ++ password) ++ junk2 ++ rest).
Proof.
  intros after_ssid before_passphrase Hn Hcr Hp Hf Hread H1 H2 H3 H4 H5 H6 H7 H8 H9
         H10 H11 H12 H13 H14.
  rewrite (set_ap_credentials_file _ _ _ _ _ _ _ _ Hf
             (parse_template_plain _ (plain_replacement_app _ _ plain_ssid_key Hn))
             (parse_template_plain _
                (plain_replacement_app _ _ plain_passphrase_key Hp))).
  rewrite lookup_insert_eq. f_equal. rewrite Hread.
  rewrite (key_value_replaced ssid_key _ pre old1 junk1 after_ssid "s"%char
             (lit "sid=")) by (reflexivity || assumption).
  rewrite expand_template_verbatim.
  assert (~ In carriage_return (pre ++ (ssid_key ++ name) ++ junk1 ++ after_ssid))
    as Hclean.
  { pose proof (universal_newlines_no_cr content) as Hno. rewrite Hread in Hno.
    intros H. apply Hno. rewrite !in_app_iff in H. rewrite !in_app_iff. tauto. }
  rewrite (universal_newlines_same _ Hclean).
  unfold after_ssid.
  replace (pre ++ (ssid_key ++ name) ++ junk1 ++ mid ++ passphrase_key ++ old2
             ++ junk2 ++ rest)
    with (before_passphrase ++ passphrase_key ++ old2 ++ junk2 ++ rest)
    by (unfold before_passphrase; now repeat rewrite <- app_assoc).
  rewrite (key_value_replaced passphrase_key _ before_passphrase old2 junk2
             rest "w"%char (lit "pa_passphrase=")) by (reflexivity || assumption).
  rewrite expand_template_verbatim.
  unfold before_passphrase. now repeat rewrite <- app_assoc.
Qed.

Lemma set_ap_credentials_replaces_values_witness :
  files (set_ap_credentials sample_env (init (lit "wlan0")) (lit "NewNet")
           (lit "newsecret") (hostapd_world crlf_hostapd)).2
    !! HOSTAPD_CONF
  = Some ((lit "interface=wlan0" ++ [newline]) ++ (ssid_key ++ lit "NewNet")
          ++ lit "!!"
          ++ ([newline] ++ lit "ignore_broadcast_ssid=0" ++ [newline])
          ++ (passphrase_key ++ lit "newsecret") ++ [] ++ [newline]).
Proof.
  apply (set_ap_credentials_replaces_values sample_env (init (lit "wlan0"))
           (lit "NewNet") (lit "newsecret") crlf_hostapd _
           (lit "interface=wlan0" ++ [newline]) (lit "Old Net") (lit "!!")
           ([newline] ++ lit "ignore_broadcast_ssid=0" ++ [newline])
           (lit "oldsecret") [] [newline]).
  - not_in_literal.
  - not_in_literal.
  - not_in_literal.
  - vm_compute. reflexivity.
  - vm_compute. reflexivity.
  - vm_compute. reflexivity.
  - vm_compute. reflexivity.
  - vm_compute. reflexivity.
  - vm_compute. reflexivity.
  - vm_compute. reflexivity.
  - vm_compute. reflexivity.
  - vm_compute. reflexivity.
  - vm_compute. reflexivity.
  - vm_compute. reflexivity.
  - vm_compute. reflexivity.
  - vm_compute. reflexivity.
  - vm_compute. reflexivity.
  - vm_compute. reflexivity.
  - vm_compute. reflexivity.
Defined.

(** X18.  Nothing is inserted.  With a name and a passphrase that make
    well-formed templates (as every text without a backslash does), on a
    configuration in which, as it is read, neither key stands at a word
    boundary, because it is missing or only part of a longer key,
    [set_ap_credentials] writes the text back as it was read: the
    credentials are not set, and nothing tells the caller.  A file
    without a carriage return is then as it was. *)
Theorem set_ap_credentials_needs_keys
        (env : Env) (self : WifiController) (name password content : text)
        (t1 t2 : template) (w : World) :
  parse_template (ssid_key ++ name) = Ok t1 ->
  parse_template (passphrase_key ++ password) = Ok t2 ->
  files w !! HOSTAPD_CONF = Some content ->
  key_free ssid_key None (universal_newlines content) = true ->
  key_free passphrase_key None (universal_newlines content) = true ->
  files (set_ap_credentials env self name password w).2
  = <[HOSTAPD_CONF := universal_newlines content]> (files w)
  /\ (~ In carriage_return content ->
      files (set_ap_credentials env self name password w).2 = files w).
Proof.
  intros H1 H2 Hf Hs Hp.
  assert (files (set_ap_credentials env self name password w).2
          = <[HOSTAPD_CONF := universal_newlines content]> (files w)) as Hfiles.
  { rewrite (set_ap_credentials_file _ _ _ _ _ _ _ _ Hf H1 H2).
    rewrite !wre_sub_from.
    rewrite (key_free_unchanged ssid_key _ "s"%char (lit "sid=") None _)
      by (reflexivity || assumption).
    rewrite universal_newlines_idem.
    rewrite (key_free_unchanged passphrase_key _ "w"%char (lit "pa_passphrase=")
               None _) by (reflexivity || assumption).
    reflexivity. }
  split; [exact Hfiles|]. intros Hcr.
  rewrite Hfiles, (universal_newlines_same _ Hcr). now apply insert_id.
Qed.

Lemma set_ap_credentials_needs_keys_witness :
  files (set_ap_credentials sample_env (init (lit "wlan0")) (lit "NewNet")
           (lit "newsecret")
           (hostapd_world (lit "interface=wlan0" ++ crlf
                           ++ lit "ignore_broadcast_ssid=0" ++ crlf))).2
  = <[HOSTAPD_CONF :=
        universal_newlines (lit "interface=wlan0" ++ crlf
                            ++ lit "ignore_broadcast_ssid=0" ++ crlf)]>
      (files (hostapd_world (lit "interface=wlan0" ++ crlf
                             ++ lit "ignore_broadcast_ssid=0" ++ crlf)))
  /\ (~ In carriage_return (lit "interface=wlan0" ++ crlf
                            ++ lit "ignore_broadcast_ssid=0" ++ crlf) ->
      files (set_ap_credentials sample_env (init (lit "wlan0")) (lit "NewNet")
               (lit "newsecret")
               (hostapd_world (lit "interface=wlan0" ++ crlf
                               ++ lit "ignore_broadcast_ssid=0" ++ crlf))).2
      = files (hostapd_world (lit "interface=wlan0" ++ crlf
                              ++ lit "ignore_broadcast_ssid=0" ++ crlf))).
Proof.
  apply (set_ap_credentials_needs_keys sample_env (init (lit "wlan0")) (lit "NewNet")
           (lit "newsecret")
           (lit "interface=wlan0" ++ crlf ++ lit "ignore_broadcast_ssid=0" ++ crlf)
           (verbatim (ssid_key ++ lit "NewNet"))
           (verbatim (passphrase_key ++ lit "newsecret"))).
  - vm_compute. reflexivity.
  - vm_compute. reflexivity.
  - vm_compute. reflexivity.
  - vm_compute. reflexivity.
  - vm_compute. reflexivity.
Defined.

(** X19.  The daemon is restarted exactly when it runs.  With a name and a
    passphrase that make well-formed templates, the two rewrites are
    followed by the query for the mode; when the query reports another
    status than 0 [set_ap_credentials] returns without a further process,
    and when it reports 0 the next and last process is the restart of the
    daemon.  Each rewrite writes the substitution made in the text as it
    was read, with every line end as a newline. *)
Theorem set_ap_credentials_restart
        (env : Env) (self : WifiController) (name password content : text)
        (t1 t2 : template) (w : World) :
  parse_template (ssid_key ++ name) = Ok t1 ->
  parse_template (passphrase_key ++ password) = Ok t2 ->
  files w !! HOSTAPD_CONF = Some content ->
  let c1 := wre_sub (key_pattern ssid_key) t1 (universal_newlines content) in
  let c2 := wre_sub (key_pattern passphrase_key) t2 (universal_newlines c1) in
  let t := trace w ++ [FileWrite HOSTAPD_CONF c1; FileWrite HOSTAPD_CONF c2] in
  let status := exit_status env t is_active_query in
  (status <> 0%Z ->
   exists w', set_ap_credentials env self name password w = (Ok tt, w')
              /\ trace w' = t ++ [Exec is_active_query])
  /\ (status = 0%Z ->
      trace (set_ap_credentials env self name password w).2
      = t ++ [Exec is_active_query; Exec restart_hostapd]).
Proof.
  intros H1 H2 Hf c1 c2 t status.
  rewrite (set_ap_credentials_run _ _ _ _ _ _ _ _ Hf H1 H2).
  fold c1 c2 t. rewrite (bind_ok _ _ _ _ _ (get_mode_run _ _ _)).
  cbn [trace]. fold status. split; intros Hs.
  - rewrite (proj2 (Z.eqb_neq _ _) Hs).
    destruct (decide (CLI_MODE = AP_MODE)) as [H|_]; [discriminate H|].
    eexists. split; reflexivity.
  - rewrite Hs. cbn [Z.eqb].
    destruct (decide (AP_MODE = AP_MODE)) as [_|H]; [|contradiction].
    unfold mbind, M_bind, bind, run. cbn [trace log].
    destruct (_ =? _)%Z; unfold mret, M_ret, ret; cbn [snd trace log];
      now rewrite <- app_assoc.
Qed.

Lemma set_ap_credentials_restart_witness :
  let c1 :=
    wre_sub (key_pattern ssid_key) (verbatim (ssid_key ++ lit "NewNet"))
      (universal_newlines crlf_hostapd) in
  let c2 :=
    wre_sub (key_pattern passphrase_key) (verbatim (passphrase_key ++ lit "newsecret"))
      (universal_newlines c1) in
  let t := trace (hostapd_world crlf_hostapd)
           ++ [FileWrite HOSTAPD_CONF c1; FileWrite HOSTAPD_CONF c2] in
  let status := exit_status sample_env t is_active_query in
  (status <> 0%Z ->
   exists w', set_ap_credentials sample_env (init (lit "wlan0")) (lit "NewNet")
                (lit "newsecret") (hostapd_world crlf_hostapd) = (Ok tt, w')
              /\ trace w' = t ++ [Exec is_active_query])
  /\ (status = 0%Z ->
      trace (set_ap_credentials sample_env (init (lit "wlan0")) (lit "NewNet")
               (lit "newsecret") (hostapd_world crlf_hostapd)).2
      = t ++ [Exec is_active_query; Exec restart_hostapd]).
Proof.
  apply (set_ap_credentials_restart sample_env (init (lit "wlan0")) (lit "NewNet")
           (lit "newsecret") crlf_hostapd
           (verbatim (ssid_key ++ lit "NewNet"))
           (verbatim (passphrase_key ++ lit "newsecret"))
           (hostapd_world crlf_hostapd)).
  - vm_compute. reflexivity.
  - vm_compute. reflexivity.
  - vm_compute. reflexivity.
Defined.

(** X20.  [set_ap_credentials] works on the configuration of the access point
    daemon only: however it ends, every other file is as it was. *)
Theorem set_ap_credentials_leaves_other_files
        (env : Env) (self : WifiController) (name password : text) (path : string)
        (w : World) :
  path <> HOSTAPD_CONF ->
  files (set_ap_credentials env self name password w).2 !! path = files w !! path.
Proof.
  intros Hne. revert w.
  change (leaves_file path (set_ap_credentials env self name password)).
  unfold set_ap_credentials.
  apply leaves_file_bind; [now apply leaves_file_replace|]. intros _.
  apply leaves_file_bind; [now apply leaves_file_replace|]. intros _.
  apply leaves_files_file, leaves_files_restart.
Qed.

Lemma set_ap_credentials_leaves_other_files_witness :
  files (set_ap_credentials sample_env (init (lit "wlan0")) (lit "NewNet")
           (lit "newsecret") sample_world).2 !! DHCPCD_CONF
  = files sample_world !! DHCPCD_CONF.
Proof.
  apply (set_ap_credentials_leaves_other_files sample_env (init (lit "wlan0"))
           (lit "NewNet") (lit "newsecret") DHCPCD_CONF sample_world).
  discriminate.
Defined.

(** X21.  Without the configuration of the access point daemon
    [set_ap_credentials] raises [FileNotFoundError] from its first read:
    the file is not created, the mode is not asked for, and the daemon is
    not restarted. *)
Theorem set_ap_credentials_needs_the_file
        (env : Env) (self : WifiController) (name password : text) (w : World) :
  files w !! HOSTAPD_CONF = None ->
  set_ap_credentials env self name password w
  = (Raise (FileNotFoundError HOSTAPD_CONF), w).
Proof.
  intros Hf. unfold set_ap_credentials. apply bind_raise.
  now apply replace_in_file_missing.
Qed.

Lemma set_ap_credentials_needs_the_file_witness :
  set_ap_credentials sample_env (init (lit "wlan0")) (lit "NewNet") (lit "newsecret")
    sample_world
  = (Raise (FileNotFoundError HOSTAPD_CONF), sample_world).
Proof.
  apply (set_ap_credentials_needs_the_file sample_env (init (lit "wlan0"))
           (lit "NewNet") (lit "newsecret") sample_world).
  vm_compute. reflexivity.
Defined.

(** X28.  A name that does not make a well-formed template, such as one that
    ends in a backslash, empties the configuration: the first rewrite has
    opened the file for writing when [re.sub] raises, so that
    [set_ap_credentials] ends with that exception and an empty file, and
    neither asks for the mode nor restarts the daemon. *)
Theorem set_ap_credentials_bad_name
        (env : Env) (self : WifiController) (name password content : text) (e : exn)
        (w : World) :
  files w !! HOSTAPD_CONF = Some content ->
  parse_template (ssid_key ++ name) = Raise e ->
  set_ap_credentials env self name password w
  = (Raise e, {| files := <[HOSTAPD_CONF := []]> (files w); trace := trace w |}).
Proof.
  intros Hf He. unfold set_ap_credentials. apply bind_raise.
  now apply replace_in_file_raise with (content := content).
Qed.

Lemma set_ap_credentials_bad_name_witness :
  set_ap_credentials sample_env (init (lit "wlan0")) (lit "Net" ++ [backslash])
    (lit "newsecret") (hostapd_world sample_hostapd)
  = (Raise ReError,
     {| files := <[HOSTAPD_CONF := []]> (files (hostapd_world sample_hostapd));
        trace := trace (hostapd_world sample_hostapd) |}).
Proof.
  apply (set_ap_credentials_bad_name sample_env (init (lit "wlan0"))
           (lit "Net" ++ [backslash]) (lit "newsecret") sample_hostapd ReError
           (hostapd_world sample_hostapd)).
  - vm_compute. reflexivity.
  - vm_compute. reflexivity.
Defined.

(** X29.  A passphrase that does not make a well-formed template empties the
    configuration after the name was set: the first rewrite is done and
    logged, the second one has opened the file for writing when [re.sub]
    raises, and [set_ap_credentials] ends with that exception, an empty
    file and no further process. *)
Theorem set_ap_credentials_bad_passphrase
        (env : Env) (self : WifiController) (name password content : text)
        (t1 : template) (e : exn) (w : World) :
  files w !! HOSTAPD_CONF = Some content ->
  parse_template (ssid_key ++ name) = Ok t1 ->
  parse_template (passphrase_key ++ password) = Raise e ->
  set_ap_credentials env self name password w
  = (Raise e,
     {| files := <[HOSTAPD_CONF := []]> (files w);
        trace :=
          trace w
          ++ [FileWrite HOSTAPD_CONF
                (wre_sub (key_pattern ssid_key) t1 (universal_newlines content))] |}).
Proof.
  intros Hf H1 He. unfold set_ap_credentials.
  rewrite (bind_ok _ _ _ _ _ (replace_in_file_run _ _ _ _ _ _ Hf H1)).
  apply bind_raise.
  erewrite replace_in_file_raise; [|cbn [files]; apply lookup_insert_eq | exact He].
  cbn [files trace substituted]. now rewrite insert_insert_eq.
Qed.

Lemma set_ap_credentials_bad_passphrase_witness :
  set_ap_credentials sample_env (init (lit "wlan0")) (lit "NewNet")
    (lit "new" ++ [backslash] ++ lit "secret") (hostapd_world sample_hostapd)
  = (Raise ReError,
     {| files := <[HOSTAPD_CONF := []]> (files (hostapd_world sample_hostapd));
        trace :=
          trace (hostapd_world sample_hostapd)
          ++ [FileWrite HOSTAPD_CONF
                (wre_sub (key_pattern ssid_key) (verbatim (ssid_key ++ lit "NewNet"))
                   (universal_newlines sample_hostapd))] |}).
Proof.
  apply (set_ap_credentials_bad_passphrase sample_env (init (lit "wlan0"))
           (lit "NewNet") (lit "new" ++ [backslash] ++ lit "secret") sample_hostapd
           (verbatim (ssid_key ++ lit "NewNet")) ReError
           (hostapd_world sample_hostapd)).
  - vm_compute. reflexivity.
  - vm_compute. reflexivity.
  - vm_compute. reflexivity.
Defined.

(** ** Replacing a literal text *)

Lemma literal_match (w s : text) : match_here (literal w) (w ++ s) = Some s.
Proof. rewrite <- (app_nil_r (literal w)). now rewrite match_literal_app. Qed.

Lemma literal_match_inv (w s r : text) :
  match_here (literal w) s = Some r -> s = w ++ r.
Proof.
  rewrite <- (app_nil_r (literal w)). intros H.
  apply match_literal_inv in H as (s' & -> & H). cbn in H. now injection H as ->.
Qed.

(** X22.  With [regex=False] and a target that makes a well-formed template,
    the source is replaced as a text, in the text of the file as it is
    read, with every line end as a newline: the text up to the first place
    where the source stands is kept, the expansion of the target, which
    is the target itself when it holds no backslash, is put in the place
    of the source, and the rest of the text is treated the same way; a
    text in which the source does not stand is written back as it was
    read. *)
Theorem replace_in_file_literal
        (filepath : string) (source target content : text) (repl : template)
        (w : World) :
  parse_template target = Ok repl ->
  source <> [] ->
  files w !! filepath = Some content ->
  let read := universal_newlines content in
  (plain_replacement target -> expand_template repl source = target)
  /\ exists w',
      replace_in_file filepath (Plain source) target w = (Ok tt, w')
      /\ files w' !! filepath
         = Some match find source read with
                | None => read
                | Some i =>
                    take i read ++ expand_template repl source
                    ++ substituted (Plain source) repl
                         (drop (i + length source) read)
                end.
Proof.
  intros Hrepl Hsrc Hf read. split.
  { intros Hplain. rewrite (parse_template_plain _ Hplain) in Hrepl.
    injection Hrepl as <-. apply expand_template_verbatim. }
  eexists. split; [exact (replace_in_file_run _ _ _ _ _ _ Hf Hrepl)|].
  cbn [files]. rewrite lookup_insert_eq. f_equal. fold read.
  cbn [substituted]. unfold re_escape.
  destruct (find source read) as [i|] eqn:F.
  - apply find_Some in F as (x & y & -> & Hi & Hmin).
    assert (drop (i + length source) (x ++ source ++ y) = y) as ->.
    { rewrite <- Hi, <- length_app, app_assoc. apply drop_app_length. }
    rewrite <- Hi, take_app_length.
    rewrite (re_sub_first_match _ _ x (source ++ y) y).
    + do 3 f_equal. rewrite length_app.
      replace (length source + length y - length y) with (length source) by lia.
      apply take_app_length.
    + intros a1 a2 -> Ha2.
      destruct (match_here (literal source) _) as [r|] eqn:E; [|reflexivity].
      exfalso. apply literal_match_inv in E.
      specialize (Hmin a1 r). rewrite <- app_assoc, E in Hmin.
      specialize (Hmin eq_refl). rewrite length_app in Hi.
      destruct a2; [congruence | cbn [length] in Hi; lia].
    + apply literal_match.
    + rewrite length_app. destruct source; [congruence | cbn [length]; lia].
  - apply re_sub_no_match. intros a b ->.
    destruct (match_here (literal source) b) as [r|] eqn:E; [|reflexivity].
    exfalso. apply literal_match_inv in E as ->.
    apply (find_None _ _ F). now exists a, r.
Qed.

Lemma replace_in_file_literal_witness :
  let read := universal_newlines (lit "hostname" ++ crlf) in
  (plain_replacement (lit "guest") ->
   expand_template (verbatim (lit "guest")) (lit "host") = lit "guest")
  /\ exists w',
      replace_in_file DHCPCD_CONF (Plain (lit "host")) (lit "guest")
        (dhcpcd_with (lit "hostname" ++ crlf)) = (Ok tt, w')
      /\ files w' !! DHCPCD_CONF
         = Some match find (lit "host") read with
                | None => read
                | Some i =>
                    take i read ++ expand_template (verbatim (lit "guest")) (lit "host")
                    ++ substituted (Plain (lit "host")) (verbatim (lit "guest"))
                         (drop (i + length (lit "host")) read)
                end.
Proof.
  apply (replace_in_file_literal DHCPCD_CONF (lit "host") (lit "guest")
           (lit "hostname" ++ crlf) (verbatim (lit "guest"))
           (dhcpcd_with (lit "hostname" ++ crlf))).
  - vm_compute. reflexivity.
  - discriminate.
  - reflexivity.
Defined.

(** X23.  An empty source stands in front of every character and at the end
    of the text as it is read: with a target that makes a well-formed
    template, its expansion for the empty match, which is the target
    itself when it holds no backslash, is put in at each of these
    places. *)
Theorem replace_in_file_empty_source
        (filepath : string) (target content : text) (repl : template) (w : World) :
  parse_template target = Ok repl ->
  files w !! filepath = Some content ->
  let read := universal_newlines content in
  (plain_replacement target -> expand_template repl [] = target)
  /\ exists w',
      replace_in_file filepath (Plain []) target w = (Ok tt, w')
      /\ files w' !! filepath
         = Some (flat_map (fun c => expand_template repl [] ++ [c]) read
                 ++ expand_template repl []).
Proof.
  intros Hrepl Hf read. split.
  { intros Hplain. rewrite (parse_template_plain _ Hplain) in Hrepl.
    injection Hrepl as <-. apply expand_template_verbatim. }
  eexists. split; [exact (replace_in_file_run _ _ _ _ _ _ Hf Hrepl)|].
  cbn [files]. rewrite lookup_insert_eq. f_equal. fold read.
  cbn [substituted]. unfold re_escape. clear Hf. generalize read. clear read.
  intros read. induction read as [|c read IH].
  - unfold re_sub. cbn [length sub_loop flat_map app].
    change (literal []) with (@nil (atom * quant)).
    cbn [match_here length Nat.ltb Nat.leb Nat.sub take]. reflexivity.
  - cbn [flat_map]. rewrite <- !app_assoc. cbn [app]. rewrite <- IH.
    unfold re_sub. set (rest := sub_loop (S (length read)) _ _ read).
    change (literal []) with (@nil (atom * quant)).
    cbn [sub_loop match_here]. rewrite Nat.ltb_irrefl, Nat.sub_diag. reflexivity.
Qed.

Lemma replace_in_file_empty_source_witness :
  let read := universal_newlines (lit "ab" ++ crlf) in
  (plain_replacement (lit "-") -> expand_template (verbatim (lit "-")) [] = lit "-")
  /\ exists w',
      replace_in_file DHCPCD_CONF (Plain []) (lit "-") (dhcpcd_with (lit "ab" ++ crlf))
      = (Ok tt, w')
      /\ files w' !! DHCPCD_CONF
         = Some (flat_map (fun c => expand_template (verbatim (lit "-")) [] ++ [c]) read
                 ++ expand_template (verbatim (lit "-")) []).
Proof.
  apply (replace_in_file_empty_source DHCPCD_CONF (lit "-") (lit "ab" ++ crlf)
           (verbatim (lit "-")) (dhcpcd_with (lit "ab" ++ crlf))).
  - vm_compute. reflexivity.
  - reflexivity.
Defined.

(** ** Client mode without a network name *)

(** X24.  With a password and no network name [set_cli_mode] does not ask
    [wpa_passphrase] and leaves the stored credentials alone; it still
    takes the static address entry out of the DHCP client configuration,
    which it writes back as it read it, with every line end as a newline,
    stops the access point services, has the WPA supplicant reconfigure,
    and returns [True]. *)
Theorem set_cli_mode_without_ssid
        (env : Env) (self : WifiController) (ssid : option text) (password : text)
        (w : World) (dhcpcd : text) :
  (forall t argv, exit_status env t argv = 0%Z) ->
  truthy ssid = false -> password <> [] ->
  files w !! DHCPCD_CONF = Some dhcpcd ->
  let kept := removed_content rpiwifi (universal_newlines dhcpcd) in
  exists w',
    set_cli_mode env self ssid (Some password) w = (Ok true, w')
    /\ files w' = <[DHCPCD_CONF := kept]> (files w)
    /\ trace w'
       = trace w
         ++ [Exec (dhcpcd_release self);
             Exec [lit "service"; lit "dhcpcd"; lit "stop"];
             FileWrite DHCPCD_CONF kept]
         ++ cli_mode_after self.
Proof.
  intros Hexit Hssid Hpw Hdhcp kept. unfold set_cli_mode.
  destruct password as [|p0 password]; [congruence|]. cbn [truthy negb].
  rewrite Hssid. eexists. split; [|split].
  - rewrite (bind_ok _ _ _ _ _ (run_ok _ _ _ (Hexit _ _))).
    rewrite (bind_ok _ _ _ _ _ (run_ok _ _ _ (Hexit _ _))).
    erewrite bind_ok by reflexivity.
    erewrite bind_ok by (apply remove_entry_run; exact Hdhcp).
    rewrite (bind_ok _ _ _ _ _ (run_ok _ _ _ (Hexit _ _))).
    rewrite (bind_ok _ _ _ _ _ (run_ok _ _ _ (Hexit _ _))).
    rewrite (bind_ok _ _ _ _ _ (run_ok _ _ _ (Hexit _ _))).
    erewrite bind_ok by reflexivity.
    rewrite (bind_ok _ _ _ _ _ (run_ok _ _ _ (Hexit _ _))).
    reflexivity.
  - reflexivity.
  - cbn [trace log]. unfold dhcpcd_release, cli_mode_after.
    repeat rewrite <- app_assoc. reflexivity.
Qed.

Lemma set_cli_mode_without_ssid_witness :
  let kept := removed_content rpiwifi (universal_newlines (lit "hostname" ++ [newline])) in
  exists w',
    set_cli_mode sample_env (init (lit "wlan0")) None (Some (lit "secretpw"))
      sample_world = (Ok true, w')
    /\ files w' = <[DHCPCD_CONF := kept]> (files sample_world)
    /\ trace w'
       = trace sample_world
         ++ [Exec (dhcpcd_release (init (lit "wlan0")));
             Exec [lit "service"; lit "dhcpcd"; lit "stop"];
             FileWrite DHCPCD_CONF kept]
         ++ cli_mode_after (init (lit "wlan0")).
Proof.
  apply (set_cli_mode_without_ssid sample_env (init (lit "wlan0")) None
           (lit "secretpw") sample_world (lit "hostname" ++ [newline])).
  - intros t argv. reflexivity.
  - reflexivity.
  - discriminate.
  - vm_compute. reflexivity.
Defined.

(** ** A begin marker that was left in the file *)

Lemma removed_added_from_marker (entry identifier c1 : text) (i : nat) :
  find (begin_marker identifier) c1 = Some i ->
  removed_content identifier (c1 ++ entry_block entry identifier)
  = take i c1 ++ [newline].
Proof.
  intros F. apply find_Some in F as (x & y & -> & Hi & Hmin).
  rewrite <- Hi, take_app_length. unfold entry_block.
  replace ((x ++ begin_marker identifier ++ y) ++ begin_marker identifier
             ++ [newline] ++ entry ++ [newline] ++ end_marker identifier ++ [newline])
    with (x ++ begin_marker identifier
            ++ (y ++ begin_marker identifier ++ newline :: entry ++ [newline])
            ++ end_marker identifier ++ [newline])
    by (repeat rewrite <- app_assoc; cbn [app]; repeat rewrite <- app_assoc;
        reflexivity).
  apply removed_content_cut.
  - pose proof (begin_marker_length_pos identifier).
    intros H0. apply (f_equal (@length ascii)) in H0.
    repeat rewrite length_app in H0. cbn [length] in H0. lia.
  - intros x0 y0 H0.
    destruct (Nat.le_gt_cases (length x) (length x0)) as [|Hgt]; [assumption|].
    exfalso.
    assert (length x0 + length (begin_marker identifier)
            <= length (x ++ begin_marker identifier ++ y)) as Hfit
      by (repeat rewrite length_app; lia).
    assert ((x0 ++ begin_marker identifier) ++ y0
            = (x ++ begin_marker identifier ++ y)
              ++ (begin_marker identifier ++ newline :: entry ++ [newline])
              ++ end_marker identifier ++ [newline]) as Hsplit
      by (rewrite <- app_assoc, <- H0; repeat rewrite <- app_assoc; reflexivity).
    apply app_eq_app_le in Hsplit as (k & Hk & _);
      [|rewrite length_app; exact Hfit].
    rewrite <- app_assoc in Hk. specialize (Hmin x0 k Hk). lia.
  - intros x0 y0 H0. apply (end_last_occurrence identifier _ x0 y0).
    rewrite <- H0. now repeat rewrite <- app_assoc.
Qed.

(** X25.  With an identifier made of characters that stand for themselves
    in a pattern, adding an entry and removing it again cuts the text of
    the file, as the addition read it and kept it, from the first begin
    marker that was left in it, and leaves a newline there.  So where an
    entry was left without its end marker, all that stood behind its
    begin marker goes with the next entry that is removed. *)
Theorem add_then_remove_cuts_from_marker
        (entry : text) (filepath : string) (identifier content : text) (w : World) :
  plain_identifier identifier ->
  files w !! filepath = Some content ->
  let kept := removed_content identifier (universal_newlines content) in
  exists w1 w2,
    add_entry_to_config entry filepath identifier w = (Ok tt, w1)
    /\ remove_entry_from_config filepath identifier w1 = (Ok tt, w2)
    /\ files w2 !! filepath
       = Some (match find (begin_marker identifier) kept with
               | Some i => take i kept
               | None => kept
               end ++ [newline]).
Proof.
  intros Hp Hf kept.
  destruct (read_entry_block entry identifier Hp) as (entry' & Hread & _).
  eexists _, _.
  split; [apply add_entry_run, Hf|].
  split; [apply remove_entry_run; cbn [files]; apply lookup_insert_eq|].
  cbn [files]. rewrite lookup_insert_eq. f_equal. fold kept.
  rewrite universal_newlines_app
    by apply removed_content_no_cr, universal_newlines_no_cr.
  rewrite Hread.
  destruct (find (begin_marker identifier) kept) as [i|] eqn:F.
  - now apply removed_added_from_marker.
  - apply removed_added_block; [exact Hp | now apply find_None].
Qed.

Lemma add_then_remove_cuts_from_marker_witness :
  let kept := removed_content rpiwifi (universal_newlines unterminated) in
  exists w1 w2,
    add_entry_to_config (lit "interface wlan1") DHCPCD_CONF rpiwifi
      (dhcpcd_with unterminated) = (Ok tt, w1)
    /\ remove_entry_from_config DHCPCD_CONF rpiwifi w1 = (Ok tt, w2)
    /\ files w2 !! DHCPCD_CONF
       = Some (match find (begin_marker rpiwifi) kept with
               | Some i => take i kept
               | None => kept
               end ++ [newline]).
Proof.
  apply (add_then_remove_cuts_from_marker (lit "interface wlan1") DHCPCD_CONF rpiwifi
           unterminated (dhcpcd_with unterminated)).
  - reflexivity.
  - reflexivity.
Defined.
